(** * MINDMESH on-device retrieval engine: vector index, hybrid recall,
      persistent store and analytics.

    Shallow embedding of
      - [utils/vector-search]  (ANN index, cosine similarity, hybrid score),
      - [utils/storage]        (CortexStorage over IndexedDB),
      - [RecallService]        (hybrid search),
      - [AnalyticsService]     (batch statistics).

    Conventions.
      - A JavaScript [number] that carries a measurement (vector entry,
        similarity, score, percentage) is a type [N] with the arithmetic of
        the interface [JsNumber].  Two instances are given: IEEE-754 binary64
        ([float], what the engine really computes with; executable) and the
        real numbers ([R], exact arithmetic, used for the general theorems).
      - Counts, limits and [k] are [nat]; epoch-millisecond timestamps are [Z].
      - Strings are ASCII strings.
      - A JS [Map]/[Set] iterates in insertion order: association lists.
      - A rejected promise / thrown exception is the [Err] branch of [result]. *)

From Stdlib Require Import String Ascii Bool Arith ZArith Lia.
From Stdlib Require Import Reals Lra Permutation Sorted List.
From Stdlib Require PrimFloat Uint63 DecimalString.
Import ListNotations.

Set Implicit Arguments.

(* ================================================================== *)
(** ** JavaScript numbers *)

Class JsNumber (N : Type) : Type := {
  ofZ   : Z -> N;            (* an integer literal *)
  jadd  : N -> N -> N;
  jsub  : N -> N -> N;
  jmul  : N -> N -> N;
  jdiv  : N -> N -> N;
  jsqrt : N -> N;            (* Math.sqrt *)
  jmin  : N -> N -> N;       (* Math.min  *)
  jltb  : N -> N -> bool;    (* a < b     *)
  jleb  : N -> N -> bool;    (* a <= b    *)
  jeqb  : N -> N -> bool     (* a === b   *)
}.

Declare Scope js_scope.
Delimit Scope js_scope with js.
Notation "x + y" := (jadd x y) : js_scope.
Notation "x - y" := (jsub x y) : js_scope.
Notation "x * y" := (jmul x y) : js_scope.
Notation "x / y" := (jdiv x y) : js_scope.
Notation "x <? y" := (jltb x y) : js_scope.
Notation "x <=? y" := (jleb x y) : js_scope.
Notation "x >? y" := (jltb y x) : js_scope.
Notation "x >=? y" := (jleb y x) : js_scope.
Notation "x === y" := (jeqb x y) (at level 70, no associativity) : js_scope.

(** A decimal literal [n/d], e.g. [0.25 = dec 25 100]. *)
Definition dec {N} `{JsNumber N} (n d : Z) : N := jdiv (ofZ n) (ofZ d).

(** *** Exact arithmetic: the reals *)

Definition Rltb (x y : R) : bool := if Rlt_dec x y then true else false.
Definition Rleb (x y : R) : bool := if Rle_dec x y then true else false.
Definition Reqb (x y : R) : bool := if Req_dec_T x y then true else false.

#[export] Instance JsR : JsNumber R := {|
  ofZ := IZR;
  jadd := Rplus; jsub := Rminus; jmul := Rmult; jdiv := Rdiv;
  jsqrt := sqrt; jmin := Rmin;
  jltb := Rltb; jleb := Rleb; jeqb := Reqb
|}.

(** *** IEEE-754 binary64 *)

Definition f64_ofZ (z : Z) : PrimFloat.float :=
  match z with
  | Z0 => PrimFloat.zero
  | Zpos _ => PrimFloat.of_uint63 (Uint63.of_Z z)
  | Zneg p => PrimFloat.opp (PrimFloat.of_uint63 (Uint63.of_Z (Zpos p)))
  end.

(** [Math.min]: NaN if an argument is NaN, and [-0] is below [+0]. *)
Definition f64_min (a b : PrimFloat.float) : PrimFloat.float :=
  if PrimFloat.is_nan a || PrimFloat.is_nan b then PrimFloat.nan
  else if PrimFloat.ltb b a then b
  else if PrimFloat.ltb a b then a
  else if PrimFloat.get_sign a then a else b.

#[export] Instance JsF64 : JsNumber PrimFloat.float := {|
  ofZ := f64_ofZ;
  jadd := PrimFloat.add; jsub := PrimFloat.sub;
  jmul := PrimFloat.mul; jdiv := PrimFloat.div;
  jsqrt := PrimFloat.sqrt; jmin := f64_min;
  jltb := PrimFloat.ltb; jleb := PrimFloat.leb; jeqb := PrimFloat.eqb
|}.

(* ================================================================== *)
(** ** JavaScript runtime: exceptions, arrays, Map, Set, strings *)

Inductive JsError : Type :=
| TypeError                     (* property read on [undefined] *)
| DbError (msg : string).       (* [reject(new Error(msg))] *)

Inductive result (A : Type) : Type :=
| Ok (a : A)
| Err (e : JsError).
Arguments Ok {A} a.
Arguments Err {A} e.

Definition bind {A B} (r : result A) (f : A -> result B) : result B :=
  match r with
  | Ok a => f a
  | Err e => Err e
  end.

Notation "x <- r ;; k" := (bind r (fun x => k))
  (at level 61, r at next level, right associativity).

(** [Promise.all] over an array of requests: rejects when one of them does. *)
Fixpoint mapM {A B} (f : A -> result B) (l : list A) : result (list B) :=
  match l with
  | [] => Ok []
  | a :: l' => b <- f a ;; bs <- mapM f l' ;; Ok (b :: bs)
  end.

(** *** Array.prototype.sort

    The sort is stable.  [gt a b] is "comparator(a, b) > 0": [a] has to go
    after [b].  An element stays in front of everything that followed it
    unless the comparator says otherwise. *)
Section Sort.
Context {A : Type} (gt : A -> A -> bool).

Fixpoint sort_insert (x : A) (l : list A) : list A :=
  match l with
  | [] => [x]
  | y :: l' => if gt x y then y :: sort_insert x l' else x :: y :: l'
  end.

Definition js_sort (l : list A) : list A := fold_right sort_insert [] l.
End Sort.

(** [arr.slice(0, k)] *)
Definition slice0 {A} (k : nat) (l : list A) : list A := firstn k l.

(** *** Map and Set (insertion ordered) *)

Class Key (K : Type) : Type := {
  key_eqb : K -> K -> bool;
  key_eqb_eq : forall x y, key_eqb x y = true <-> x = y
}.

#[export] Instance Key_string : Key string :=
  {| key_eqb := String.eqb; key_eqb_eq := String.eqb_eq |}.

#[export] Instance Key_Z : Key Z :=
  {| key_eqb := Z.eqb; key_eqb_eq := Z.eqb_eq |}.

Definition JsMap (K V : Type) : Type := list (K * V).

Section JsMap.
Context {K V : Type} `{Key K}.

Fixpoint map_get (k : K) (m : JsMap K V) : option V :=
  match m with
  | [] => None
  | (k', v) :: m' => if key_eqb k k' then Some v else map_get k m'
  end.

Definition map_has (k : K) (m : JsMap K V) : bool :=
  match map_get k m with
  | Some _ => true
  | None => false
  end.

(** [m.set(k, v)]: an existing key keeps its place, a new one goes last. *)
Fixpoint map_set (k : K) (v : V) (m : JsMap K V) : JsMap K V :=
  match m with
  | [] => [(k, v)]
  | (k', v') :: m' =>
      if key_eqb k k' then (k, v) :: m' else (k', v') :: map_set k v m'
  end.

Definition map_delete (k : K) (m : JsMap K V) : JsMap K V :=
  filter (fun kv => negb (key_eqb k (fst kv))) m.

Definition map_keys (m : JsMap K V) : list K := map fst m.
Definition map_values (m : JsMap K V) : list V := map snd m.
End JsMap.

Definition JsSet (K : Type) : Type := list K.

Definition set_has {K} `{Key K} (x : K) (s : JsSet K) : bool :=
  existsb (key_eqb x) s.

Definition set_add {K} `{Key K} (x : K) (s : JsSet K) : JsSet K :=
  if set_has x s then s else s ++ [x].

(** *** Strings *)

Definition lower_ascii (c : ascii) : ascii :=
  let n := nat_of_ascii c in
  if (65 <=? n)%nat && (n <=? 90)%nat then ascii_of_nat (n + 32) else c.

Fixpoint toLowerCase (s : string) : string :=
  match s with
  | EmptyString => EmptyString
  | String c s' => String (lower_ascii c) (toLowerCase s')
  end.

(** [s.includes(sub)] *)
Fixpoint includes (s sub : string) : bool :=
  String.prefix sub s ||
  match s with
  | EmptyString => false
  | String _ s' => includes s' sub
  end.

(** The class [\s]: tab, line feed, vertical tab, form feed, carriage
    return, space. *)
Definition is_ws (c : ascii) : bool :=
  let n := nat_of_ascii c in
  ((9 <=? n)%nat && (n <=? 13)%nat) || (n =? 32)%nat.

(** [s.split(/\s+/)]: [cur] is the piece being read, [in_ws] tells that the
    previous character belonged to a separator. *)
Fixpoint split_ws_from (s cur : string) (in_ws : bool) : list string :=
  match s with
  | EmptyString => [cur]
  | String c s' =>
      if is_ws c then
        if in_ws then split_ws_from s' cur true
        else cur :: split_ws_from s' EmptyString true
      else split_ws_from s' (cur ++ String c EmptyString)%string false
  end.

Definition split_ws (s : string) : list string :=
  split_ws_from s EmptyString false.

(** [arr.join(sep)] *)
Definition join (sep : string) (l : list string) : string := String.concat sep l.
(* ================================================================== *)
(** ** shared/extension-types *)

Record Embedding (N : Type) : Type := {
  vector : list N;
  model : string;
  emb_timestamp : Z
}.

Record MemoryNode (N : Type) : Type := {
  id : string;
  url : string;
  title : string;
  readableText : string;
  timestamp : Z;
  embedding : option (Embedding N);
  keywords : list string;
  domain : string                   (* metadata.domain *)
}.

Record MatchReason (N : Type) : Type := {
  sharedKeywords : list string;
  contextMatch : string;
  semanticSimilarity : N
}.

Record SemanticMatch (N : Type) : Type := {
  nodeId : string;
  similarity : N;
  node : MemoryNode N;
  reason : MatchReason N
}.

(* ================================================================== *)
(** ** utils/vector-search: cosineSimilarity *)

Section Cosine.
Context {N : Type} `{JsNumber N}.
Local Open Scope js_scope.

(** One turn of the loop body: the three running sums. *)
Definition cosStep (acc : N * N * N) (xy : N * N) : N * N * N :=
  let '(dotProduct, normA, normB) := acc in
  let '(x, y) := xy in
  (dotProduct + x * y, normA + x * x, normB + y * y).

Definition cosineSimilarity (vecA vecB : list N) : N :=
  if negb (Nat.eqb (length vecA) (length vecB)) then ofZ 0
  else
    let '(dotProduct, normA, normB) :=
      fold_left cosStep (combine vecA vecB) (ofZ 0, ofZ 0, ofZ 0) in
    if (normA === ofZ 0) || (normB === ofZ 0) then ofZ 0
    else dotProduct / (jsqrt normA * jsqrt normB).
End Cosine.

(** Euclidean quantities the loop accumulates, as plain recursive sums. *)
Fixpoint sumsq (v : list R) : R :=
  match v with
  | [] => 0
  | x :: v' => x * x + sumsq v'
  end.

Fixpoint dotR (a b : list R) : R :=
  match a, b with
  | x :: a', y :: b' => x * y + dotR a' b'
  | _, _ => 0
  end.

(* ================================================================== *)
(** ** utils/vector-search: ANNIndex *)

Definition numHashes : nat := 16.
Definition dim : nat := 384.

Record ANNIndex (N : Type) : Type := {
  vectors : JsMap string (list N);
  hashes : JsMap string Z;
  buckets : JsMap Z (list string);
  projectionMatrix : list (list N)
}.

Section ANN.
Context {N : Type} `{JsNumber N}.
Local Open Scope js_scope.

(** The constructor: [numHashes] rows of [dim] draws [Math.random() * 2 - 1];
    [random i j] is the draw made for row [i], column [j]. *)
Definition ANNIndex_new (random : nat -> nat -> N) : ANNIndex N :=
  {| vectors := [];
     hashes := [];
     buckets := [];
     projectionMatrix :=
       map (fun i => map (fun j => random i j * ofZ 2 - ofZ 1) (seq 0 dim))
           (seq 0 numHashes) |}.

(** [for (j = 0; j < n; j++) dot += vector[j] * row[j]], reading both
    arrays front to back.  [None] is the NaN that an [undefined] operand
    produces; once there it stays. *)
Fixpoint dotLoop (n : nat) (vector row : list N) (dot : N) : option N :=
  match n with
  | O => Some dot
  | S n' =>
      match vector, row with
      | x :: vector', y :: row' => dotLoop n' vector' row' (dot + x * y)
      | _, _ => None
      end
  end.

Definition rowDot (vector row : list N) : option N :=
  dotLoop dim vector row (ofZ 0).

(** [if (dot > 0) hash |= (1 << i)] *)
Definition hashStep (matrix : list (list N)) (vector : list N)
                    (hash : Z) (i : nat) : Z :=
  match nth_error matrix i with
  | Some row =>
      match rowDot vector row with
      | Some dot =>
          if dot >? ofZ 0 then Z.lor hash (Z.shiftl 1 (Z.of_nat i)) else hash
      | None => hash
      end
  | None => hash
  end.

Definition computeHash (matrix : list (list N)) (vector : list N) : Z :=
  fold_left (hashStep matrix vector) (seq 0 numHashes) 0%Z.

Definition bucket_of (hash : Z) (bs : JsMap Z (list string)) : list string :=
  match map_get hash bs with
  | Some bucket => bucket
  | None => []
  end.

Definition add (nodeId : string) (vector : list N) (ix : ANNIndex N)
  : ANNIndex N :=
  let hash := computeHash (projectionMatrix ix) vector in
  let buckets1 :=
    if map_has hash (buckets ix) then buckets ix
    else map_set hash [] (buckets ix) in
  {| vectors := map_set nodeId vector (vectors ix);
     hashes := map_set nodeId hash (hashes ix);
     buckets := map_set hash (bucket_of hash buckets1 ++ [nodeId]) buckets1;
     projectionMatrix := projectionMatrix ix |}.

(** [[queryHash, queryHash ^ (1 << 0), ..., queryHash ^ (1 << 15)]] *)
Definition searchHashes (queryHash : Z) : list Z :=
  queryHash ::
  map (fun i => Z.lxor queryHash (Z.shiftl 1 (Z.of_nat i))) (seq 0 numHashes).

(** [bucket.forEach(id => candidates.add(id))] for every search hash. *)
Definition gather (bs : JsMap Z (list string)) (hs : list Z) : JsSet string :=
  fold_left
    (fun candidates h =>
       match map_get h bs with
       | Some bucket => fold_left (fun c id => set_add id c) bucket candidates
       | None => candidates
       end)
    hs [].

(** The fallback loop over [this.vectors.keys()]. *)
Fixpoint fallback (keys : list string) (candidates : JsSet string)
  : JsSet string :=
  match keys with
  | [] => candidates
  | nodeId :: keys' =>
      let candidates' := set_add nodeId candidates in
      if (100 <? length candidates')%nat then candidates'
      else fallback keys' candidates'
  end.

Definition candidatesFor (queryVector : list N) (k : nat) (ix : ANNIndex N)
  : JsSet string :=
  let queryHash := computeHash (projectionMatrix ix) queryVector in
  let candidates := gather (buckets ix) (searchHashes queryHash) in
  if (length candidates <? k)%nat
  then fallback (map_keys (vectors ix)) candidates
  else candidates.

(** The scoring loop; [this.vectors.get(nodeId)!] of an id without vector
    hands [undefined] to [cosineSimilarity], whose [vecB.length] throws. *)
Fixpoint scoreCandidates (vs : JsMap string (list N)) (queryVector : list N)
                         (threshold : N) (candidates : list string)
  : result (list (string * N)) :=
  match candidates with
  | [] => Ok []
  | nodeId :: rest =>
      match map_get nodeId vs with
      | None => Err TypeError
      | Some vector =>
          let similarity := cosineSimilarity queryVector vector in
          results <- scoreCandidates vs queryVector threshold rest ;;
          Ok (if similarity >=? threshold
              then (nodeId, similarity) :: results else results)
      end
  end.

(** comparator [(a, b) => b.similarity - a.similarity] is positive *)
Definition bySimilarityDesc {A} (a b : A * N) : bool :=
  (snd b - snd a) >? ofZ 0.

Definition search (queryVector : list N) (k : nat) (threshold : N)
                  (ix : ANNIndex N) : result (list (string * N)) :=
  results <- scoreCandidates (vectors ix) queryVector threshold
               (candidatesFor queryVector k ix) ;;
  Ok (slice0 k (js_sort bySimilarityDesc results)).

Definition remove (nodeId : string) (ix : ANNIndex N) : ANNIndex N :=
  let buckets' :=
    match map_get nodeId (hashes ix) with
    | Some hash =>
        match map_get hash (buckets ix) with
        | Some bucket =>
            map_set hash
              (filter (fun id => negb (String.eqb id nodeId)) bucket)
              (buckets ix)
        | None => buckets ix
        end
    | None => buckets ix
    end in
  {| vectors := map_delete nodeId (vectors ix);
     hashes := map_delete nodeId (hashes ix);
     buckets := buckets';
     projectionMatrix := projectionMatrix ix |}.

Definition clear (ix : ANNIndex N) : ANNIndex N :=
  {| vectors := []; hashes := []; buckets := [];
     projectionMatrix := projectionMatrix ix |}.

(** The operations of the [VectorIndex] interface that change the index. *)
Inductive IndexOp : Type :=
| OpAdd (nodeId : string) (vector : list N)
| OpRemove (nodeId : string)
| OpClear.

Definition applyOp (ix : ANNIndex N) (op : IndexOp) : ANNIndex N :=
  match op with
  | OpAdd nodeId vector => add nodeId vector ix
  | OpRemove nodeId => remove nodeId ix
  | OpClear => clear ix
  end.

Definition run (ops : list IndexOp) (ix : ANNIndex N) : ANNIndex N :=
  fold_left applyOp ops ix.
End ANN.

(* ================================================================== *)
(** ** utils/vector-search: explanations and the hybrid score *)

Section Hybrid.
Context {N : Type} `{JsNumber N}.
Local Open Scope js_scope.

Definition findSharedKeywords (queryText : string) (nd : MemoryNode N)
  : list string :=
  let queryWords :=
    fold_left (fun s w => set_add w s)
      (filter (fun w => (3 <? String.length w)%nat)
              (split_ws (toLowerCase queryText)))
      [] in
  filter (fun kw => set_has (toLowerCase kw) queryWords) (keywords nd).

Definition generateContextMatch (queryText : string) (nd : MemoryNode N)
  : string :=
  let queryLower := toLowerCase queryText in
  let titleLower := toLowerCase (title nd) in
  let textLower := String.substring 0 500 (toLowerCase (readableText nd)) in
  let domainLower := toLowerCase (domain nd) in
  if String.eqb titleLower queryLower then "Exact title match"
  else if includes titleLower queryLower then "Title contains query terms"
  else if includes domainLower queryLower then "Domain contains query terms"
  else if includes textLower queryLower then "Content contains query terms"
  else if existsb (fun kw => includes queryLower (toLowerCase kw)) (keywords nd)
  then "Shared keywords match"
  else "Semantic similarity match".

Definition createSemanticMatch (nd : MemoryNode N) (sim : N)
                               (queryText : string) : SemanticMatch N :=
  {| nodeId := id nd;
     similarity := sim;
     node := nd;
     reason := {| sharedKeywords := findSharedKeywords queryText nd;
                  contextMatch := generateContextMatch queryText nd;
                  semanticSimilarity := sim |} |}.

(** [queryLower.split(/\s+/).filter(w => w.length > 2)] *)
Definition queryWordsOf (queryLower : string) : list string :=
  filter (fun w => (2 <? String.length w)%nat) (split_ws queryLower).

Definition calculateHybridScore (semanticSimilarity : N) (nd : MemoryNode N)
                                (query : string) : N :=
  let queryLower := toLowerCase query in
  let titleLower := toLowerCase (title nd) in
  let domainLower := toLowerCase (domain nd) in
  let queryWords := queryWordsOf queryLower in
  let score := semanticSimilarity in
  let score :=
    (* Exact title match *)
    if String.eqb titleLower queryLower
    then jmin (ofZ 1) (score + dec 4 10)
    (* Title contains exact query *)
    else if includes titleLower queryLower
    then jmin (ofZ 1) (score + dec 25 100)
    (* All query words in title *)
    else if forallb (fun word => includes titleLower word) queryWords
    then jmin (ofZ 1) (score + dec 2 10)
    (* Some query words in title *)
    else if existsb (fun word => includes titleLower word) queryWords
    then jmin (ofZ 1) (score + dec 1 10)
    else score in
  let score :=
    (* Domain contains query *)
    if includes domainLower queryLower
    then jmin (ofZ 1) (score + dec 15 100)
    (* Domain contains query words *)
    else if existsb (fun word => includes domainLower word) queryWords
    then jmin (ofZ 1) (score + dec 8 100)
    else score in
  score.
End Hybrid.

(* ================================================================== *)
(** ** utils/storage: CortexStorage

    An object store is a keyed collection; [put] overwrites, [delete] of an
    absent key does nothing.  A request or transaction of IndexedDB either
    succeeds or fails as a whole; which of the two happens is an input of
    the operation ([io = true]: it succeeds).  A failed transaction leaves
    the stores as they were. *)

Record EmbeddingRecord (N : Type) : Type := {
  er_nodeId : string;               (* keyPath *)
  er_vector : list N;
  er_model : string;
  er_timestamp : Z
}.

Record CortexStorage (N : Type) : Type := {
  opened : bool;                    (* [initPromise] resolved *)
  pages : JsMap string (MemoryNode N);
  embeddings : JsMap string (EmbeddingRecord N);
  annIndex : ANNIndex N
}.

Section Storage.
Context {N : Type} `{JsNumber N}.
Local Open Scope js_scope.

(** [await this.ready()] *)
Definition ready (st : CortexStorage N) : result unit :=
  if opened st then Ok tt else Err (DbError "Failed to open IndexedDB").

(** Order of the entries of the ["timestamp"] index: by key, then by
    primary key. *)
Definition indexAfter (a b : MemoryNode N) : bool :=
  (timestamp b <? timestamp a)%Z
  || ((timestamp a =? timestamp b)%Z && String.ltb (id b) (id a)).

Definition timestampIndex (ps : JsMap string (MemoryNode N))
  : list (MemoryNode N) :=
  js_sort indexAfter (map_values ps).

Definition addMemoryNode (nd : MemoryNode N) (io : bool)
                         (st : CortexStorage N)
  : CortexStorage N * result unit :=
  match ready st with
  | Err e => (st, Err e)
  | Ok _ =>
      if io then
        ({| opened := opened st;
            pages := map_set (id nd) nd (pages st);
            embeddings := embeddings st;
            annIndex := annIndex st |}, Ok tt)
      else (st, Err (DbError "Failed to add memory node"))
  end.

Definition getMemoryNode (nid : string) (io : bool) (st : CortexStorage N)
  : result (option (MemoryNode N)) :=
  _ <- ready st ;;
  if io then Ok (map_get nid (pages st))
  else Err (DbError "Failed to get memory node").

(** [limit] is [None] when the argument is left out.  [if (limit)] sends
    [0] the same way as [undefined]. *)
Definition getAllMemoryNodes (limit : option nat) (io : bool)
                             (st : CortexStorage N)
  : result (list (MemoryNode N)) :=
  _ <- ready st ;;
  if io then
    match limit with
    | Some (S n) =>
        (* index.openCursor(null, "prev"), at most [limit] steps *)
        Ok (firstn (S n) (rev (timestampIndex (pages st))))
    | _ =>
        (* index.getAll() *)
        Ok (timestampIndex (pages st))
    end
  else Err (DbError "Failed to get memory nodes").

(** title, text and keywords joined by single spaces; an absent field
    counts as the empty string *)
Definition searchText (nd : MemoryNode N) : string :=
  (title nd ++ " " ++ readableText nd ++ " " ++ join " " (keywords nd))%string.

Definition termScore (queryTerms : list string) (nd : MemoryNode N) : nat :=
  length (filter (fun term => includes (toLowerCase (searchText nd)) term)
                 queryTerms).

Definition searchMemoryNodes (query : string) (limit : nat) (io : bool)
                             (st : CortexStorage N)
  : result (list (MemoryNode N)) :=
  allNodes <- getAllMemoryNodes None io st ;;
  let queryTerms := split_ws (toLowerCase query) in
  let scored :=
    slice0 limit
      (js_sort (fun a b => (snd a <? snd b)%nat)
         (filter (fun r => (0 <? snd r)%nat)
            (map (fun nd => (nd, termScore queryTerms nd)) allNodes))) in
  Ok (map fst scored).

(** [store.getAll()]: the records in ascending key order. *)
Definition byKey {V : Type} (m : JsMap string V) : list V :=
  map snd (js_sort (fun a b => String.ltb (fst b) (fst a)) m).

Definition embeddingOf (r : EmbeddingRecord N) : string * Embedding N :=
  (er_nodeId r,
   {| vector := er_vector r; model := er_model r;
      emb_timestamp := er_timestamp r |}).

(** [init] starts [hydrateIndex] without awaiting it: its read of the
    embeddings is queued before any transaction opened later, and when the
    read returns every stored embedding is added to the index.
    [hydrating] tells that this hydration is still in flight when the
    operation starts; it then completes after the synchronous index step
    of the operation and before the operation's own transaction runs. *)
Definition deleteMemoryNode (nid : string) (io : bool) (hydrating : bool)
                            (st : CortexStorage N)
  : CortexStorage N * result unit :=
  match ready st with
  | Err e => (st, Err e)
  | Ok _ =>
      let ann := remove nid (annIndex st) in
      let ann :=
        if hydrating then
          fold_left (fun ix ne => add (fst ne) (vector (snd ne)) ix)
                    (map embeddingOf (byKey (embeddings st))) ann
        else ann in
      if io then
        ({| opened := opened st;
            pages := map_delete nid (pages st);
            embeddings := map_delete nid (embeddings st);
            annIndex := ann |}, Ok tt)
      else
        ({| opened := opened st;
            pages := pages st;
            embeddings := embeddings st;
            annIndex := ann |},
         Err (DbError "Failed to delete memory node"))
  end.

Definition storeEmbedding (nid : string) (e : Embedding N) (io : bool)
                          (st : CortexStorage N)
  : CortexStorage N * result unit :=
  match ready st with
  | Err err => (st, Err err)
  | Ok _ =>
      let ann := add nid (vector e) (annIndex st) in
      if io then
        ({| opened := opened st;
            pages := pages st;
            embeddings :=
              map_set nid
                {| er_nodeId := nid; er_vector := vector e;
                   er_model := model e; er_timestamp := emb_timestamp e |}
                (embeddings st);
            annIndex := ann |}, Ok tt)
      else
        ({| opened := opened st;
            pages := pages st;
            embeddings := embeddings st;
            annIndex := ann |},
         Err (DbError "Failed to store embedding"))
  end.

Definition getEmbedding (nid : string) (io : bool) (st : CortexStorage N)
  : result (option (Embedding N)) :=
  _ <- ready st ;;
  if io then
    Ok (match map_get nid (embeddings st) with
        | None => None
        | Some r => Some {| vector := er_vector r; model := er_model r;
                            emb_timestamp := er_timestamp r |}
        end)
  else Err (DbError "Failed to get embedding").

(** comparator [(a, b) => b.similarity - a.similarity] is positive *)
Definition matchAfter (a b : SemanticMatch N) : bool :=
  (similarity b - similarity a) >? ofZ 0.

(** [io nid] tells whether the page request for [nid] succeeds. *)
Definition vectorSearch (queryVector : list N) (limit : nat) (threshold : N)
                        (io : string -> bool) (st : CortexStorage N)
  : result (list (SemanticMatch N)) :=
  _ <- ready st ;;
  candidateMatches <- search queryVector (limit * 2) threshold (annIndex st) ;;
  nodes <- mapM (fun c => getMemoryNode (fst c) (io (fst c)) st)
                candidateMatches ;;
  let matches :=
    flat_map
      (fun cn =>
         match snd cn with
         | None => []
         | Some nd =>
             [ {| nodeId := fst (fst cn);
                  similarity := snd (fst cn);
                  node := nd;
                  reason := {| sharedKeywords := [];
                               contextMatch := EmptyString;
                               semanticSimilarity := snd (fst cn) |} |} ]
         end)
      (combine candidateMatches nodes) in
  Ok (slice0 limit (js_sort matchAfter matches)).
End Storage.

(* ================================================================== *)
(** ** RecallService *)

Record RecallResult (N : Type) : Type := {
  matches : list (SemanticMatch N);
  rr_query : string;
  rr_timestamp : Z;
  totalResults : nat
}.

Section Recall.
Context {N : Type} `{JsNumber N}.
Local Open Scope js_scope.

(** [generateEmbedding] of [utils/embedding] (the feature extractor) and
    the clock [Date.now()]. *)
Variable generateEmbedding :
  string -> string -> list string -> result (Embedding N).
Variable now : Z.

(** One turn of [allMatches.forEach]: keep the higher score per node id. *)
Definition mergeStep (uniqueMatches : JsMap string (SemanticMatch N))
                     (m : SemanticMatch N)
  : JsMap string (SemanticMatch N) :=
  match map_get (nodeId m) uniqueMatches with
  | Some existing =>
      if similarity m >? similarity existing
      then map_set (nodeId m) m uniqueMatches
      else uniqueMatches
  | None => map_set (nodeId m) m uniqueMatches
  end.

(** The body of the [try] block. *)
Definition searchBody (query : string) (limit : nat) (threshold : N)
                      (io_page : string -> bool) (io_scan : bool)
                      (st : CortexStorage N) : result (RecallResult N) :=
  queryEmbedding <- generateEmbedding query query [] ;;
  semanticMatches <-
    vectorSearch (vector queryEmbedding) (limit * 2) threshold io_page st ;;
  let boostedMatches :=
    map (fun m =>
           {| nodeId := nodeId m;
              similarity := calculateHybridScore (similarity m) (node m) query;
              node := node m;
              reason := reason m |})
        semanticMatches in
  keywordNodes <- searchMemoryNodes query limit io_scan st ;;
  let keywordMatches :=
    map (fun nd =>
           let baseScore := dec 5 10 in
           let hybridScore := calculateHybridScore baseScore nd query in
           createSemanticMatch nd hybridScore query)
        keywordNodes in
  let allMatches := boostedMatches ++ keywordMatches in
  let uniqueMatches := fold_left mergeStep allMatches [] in
  let finalMatches :=
    slice0 limit (js_sort matchAfter (map_values uniqueMatches)) in
  Ok {| matches := finalMatches;
        rr_query := query;
        rr_timestamp := now;
        totalResults := length finalMatches |}.

(** [try { ... } catch (error) { return empty }] *)
Definition RecallService_search (query : string) (limit : nat) (threshold : N)
                                (io_page : string -> bool) (io_scan : bool)
                                (st : CortexStorage N)
  : result (RecallResult N) :=
  match searchBody query limit threshold io_page io_scan st with
  | Ok r => Ok r
  | Err _ =>
      Ok {| matches := [];
            rr_query := query;
            rr_timestamp := now;
            totalResults := 0 |}
  end.
End Recall.

(* ================================================================== *)
(** ** AnalyticsService *)

Record TopSite (N : Type) : Type := {
  ts_domain : string;
  ts_count : nat;
  ts_percentage : N;
  ts_lastVisit : Z
}.

Record TopCategory (N : Type) : Type := {
  tc_category : string;
  tc_count : nat;
  tc_percentage : N
}.

Record AnalyticsData (N : Type) : Type := {
  daily : list (string * nat);      (* { date, count } *)
  monthly : list (string * nat);    (* { month, count } *)
  yearly : list (string * nat);     (* { year, count } *)
  topSites : list (TopSite N);
  topCategories : list (TopCategory N);
  totalPages : nat;
  uniqueDomains : nat;
  dateRange : Z * Z                 (* { start, end } *)
}.

Definition CATEGORY_DEFINITIONS : list (string * list string) :=
  [ ("coding", ["leetcode"; "hackerrank"; "codeforces"; "codewars"; "atcoder";
                "topcoder"; "spoj"; "projecteuler"; "codechef"]);
    ("developer", ["github"; "gitlab"; "bitbucket"; "cursor"; "vscode";
                   "stackoverflow"; "dev.to"; "github.io"; "git"; "code"]);
    ("ai", ["gemini"; "claude"; "chatgpt"; "openai"; "anthropic";
            "perplexity"; "poe"; "bard"]);
    ("documentation", ["docs."; "developer."; "developers."; "learn."; "api.";
                       "guide."; "reference."; "wiki."; "documentation.";
                       "docs.nvidia"; "developer.nvidia"; "learn.microsoft";
                       "docs.microsoft"; "developer.microsoft"; "docs.google";
                       "developers.google"; "docs.aws"; "docs.github";
                       "docs.gitlab"; "docs.docker"; "kubernetes.io/docs";
                       "react.dev"; "vuejs.org"; "angular.io/docs";
                       "nodejs.org/docs"; "python.org/doc"; "docs.python";
                       "dev.mozilla.org"; "developer.mozilla.org";
                       "readthedocs.io"; "gitbook.io"; "devdocs.io"]);
    ("research", ["arxiv"; "pubmed"; "scholar.google"; "researchgate";
                  "academia.edu"; "jstor"; "ieee"; "acm.org"; "springer";
                  "nature.com"; "science.org"; "cell.com"; "plos.org";
                  "biorxiv"; "medrxiv"]);
    ("shopping", ["amazon"; "ebay"; "walmart"; "etsy"; "alibaba"; "flipkart";
                  "shopify"; "bigcommerce"; "target"; "bestbuy"]);
    ("travel", ["booking"; "airbnb"; "expedia"; "tripadvisor"; "kayak";
                "hotels"; "skyscanner"; "makemytrip"; "goibibo"; "agoda"]);
    ("health", ["webmd"; "healthline"; "mayoclinic"; "headspace"; "calm";
                "myfitnesspal"; "fitbit"; "nhs.uk"; "practo"]);
    ("food", ["allrecipes"; "foodnetwork"; "tasty"; "minimalistbaker";
              "seriouseats"; "yelp"; "zomato"; "swiggy"; "ubereats"]);
    ("entertainment", ["netflix"; "youtube"; "spotify"; "twitch"; "hulu";
                       "disneyplus"; "primevideo"; "hotstar"; "apple.com/tv";
                       "steam"]);
    ("jobs", ["linkedin"; "indeed"; "glassdoor"; "naukri"; "monster";
              "internshala"; "angellist"; "stackoverflow.com/jobs"]);
    ("social", ["facebook"; "instagram"; "twitter"; "reddit"; "tiktok";
                "pinterest"; "snapchat"; "telegram"; "whatsapp"; "discord"]);
    ("education", ["coursera"; "udemy"; "edx"; "khanacademy"; "skillshare";
                   "linkedin.com/learning"; "pluralsight"; "udacity"; "byju"]);
    ("news", ["bbc"; "cnn"; "nytimes"; "theguardian"; "reuters";
              "hindustantimes"; "timesofindia"; "medium"; "substack"]);
    ("nonprofit", ["wikipedia"; "wikimedia"; "redcross"; "unicef"; "wwf";
                   "greenpeace"; "amnesty"; "doctorswithoutborders"]);
    ("corporate", ["about"; "careers"; "company"; "corporate"; "investor"]);
    ("professional", ["bloomberg"; "forbes"; "wsj"; "morningstar";
                      "marketwatch"; "investing"; "tradingview"]);
    ("portfolio", ["behance"; "dribbble"; "deviantart"; "artstation";
                   "github.io"; "portfolio"; "wix.com/website"]);
    ("government", [".gov"; "irs.gov"; "usa.gov"; "nic.in"; "india.gov";
                    "mygov"]) ]%string.

Definition CATEGORY_PRIORITY_ORDER : list string :=
  [ "coding"; "ai"; "developer"; "documentation"; "research"; "shopping";
    "travel"; "health"; "food"; "entertainment"; "jobs"; "social";
    "education"; "news"; "nonprofit"; "corporate"; "professional";
    "portfolio"; "government" ]%string.


Section Analytics.
Context {N : Type} `{JsNumber N}.
Local Open Scope js_scope.

(** The platform: local calendar fields of [new Date(timestamp)], the
    collation [a.localeCompare(b) > 0], [new URL(url).hostname] ([None]
    when the constructor throws) and the clock. *)
Variable getFullYear getMonth getDate : Z -> Z.
Variable localeAfter : string -> string -> bool.
Variable URL_hostname : string -> option string.
Variable now : Z.

(** [String(n)] of an integer *)
Definition String_of (n : Z) : string :=
  DecimalString.NilZero.string_of_int (Z.to_int n).

(** [s.padStart(2, '0')] *)
Definition padStart2 (s : string) : string :=
  match String.length s with
  | O => "00"
  | S O => ("0" ++ s)%string
  | _ => s
  end.

Definition yearStr (t : Z) : string := String_of (getFullYear t).

Definition monthStr (t : Z) : string :=
  (String_of (getFullYear t) ++ "-"
   ++ padStart2 (String_of (getMonth t + 1)%Z))%string.

Definition dateStr (t : Z) : string :=
  (String_of (getFullYear t) ++ "-"
   ++ padStart2 (String_of (getMonth t + 1)%Z) ++ "-"
   ++ padStart2 (String_of (getDate t)))%string.

(** [map.set(key, (map.get(key) || 0) + 1)] *)
Definition bump (m : JsMap string nat) (key : string) : JsMap string nat :=
  map_set key
    (match map_get key m with
     | Some c => c
     | None => 0%nat
     end + 1)%nat m.

Definition countBy (key : MemoryNode N -> string) (nodes : list (MemoryNode N))
  : JsMap string nat :=
  fold_left (fun m nd => bump m (key nd)) nodes [].

Definition calculateDailyStats (nodes : list (MemoryNode N))
  : list (string * nat) :=
  js_sort (fun a b => localeAfter (fst a) (fst b))
          (countBy (fun nd => dateStr (timestamp nd)) nodes).

Definition calculateMonthlyStats (nodes : list (MemoryNode N))
  : list (string * nat) :=
  js_sort (fun a b => localeAfter (fst a) (fst b))
          (countBy (fun nd => monthStr (timestamp nd)) nodes).

Definition calculateYearlyStats (nodes : list (MemoryNode N))
  : list (string * nat) :=
  js_sort (fun a b => localeAfter (fst a) (fst b))
          (countBy (fun nd => yearStr (timestamp nd)) nodes).

Definition siteStep (domainMap : JsMap string (nat * Z)) (nd : MemoryNode N)
  : JsMap string (nat * Z) :=
  let existing :=
    match map_get (domain nd) domainMap with
    | Some e => e
    | None => (0%nat, 0%Z)
    end in
  map_set (domain nd)
          ((fst existing + 1)%nat, Z.max (snd existing) (timestamp nd))
          domainMap.

(** [(count / total) * 100] *)
Definition percentage (count total : nat) : N :=
  (ofZ (Z.of_nat count) / ofZ (Z.of_nat total)) * ofZ 100.

Definition calculateTopSites (nodes : list (MemoryNode N)) : list (TopSite N) :=
  let domainMap := fold_left siteStep nodes [] in
  let total := length nodes in
  slice0 20
    (js_sort (fun a b => (ts_count a <? ts_count b)%nat)
       (map (fun e =>
               {| ts_domain := fst e;
                  ts_count := fst (snd e);
                  ts_percentage := percentage (fst (snd e)) total;
                  ts_lastVisit := snd (snd e) |})
            domainMap)).

Definition matchesAny (hostname : string) (domains : list string) : bool :=
  existsb (fun d => includes hostname (toLowerCase d)) domains.

Definition categorizeUrl (u : string) : string :=
  match URL_hostname u with
  | None => "miscellaneous"         (* caught *)
  | Some h =>
      let hostname := toLowerCase h in
      let hit (key : string) : bool :=
        match map_get key CATEGORY_DEFINITIONS with
        | Some domains => matchesAny hostname domains
        | None => false
        end in
      match find hit CATEGORY_PRIORITY_ORDER with
      | Some key => key
      | None =>
          match
            find (fun e =>
                    negb (existsb (String.eqb (fst e)) CATEGORY_PRIORITY_ORDER)
                    && matchesAny hostname (snd e))
                 CATEGORY_DEFINITIONS
          with
          | Some e => fst e
          | None => "miscellaneous"
          end
      end
  end.

(** [node.url || `https://${node.metadata.domain}`] *)
Definition categoryOf (nd : MemoryNode N) : string :=
  categorizeUrl
    (if String.eqb (url nd) EmptyString then ("https://" ++ domain nd)%string
     else url nd).

Definition calculateTopCategories (nodes : list (MemoryNode N))
  : list (TopCategory N) :=
  let categoryMap := countBy categoryOf nodes in
  let total := length nodes in
  slice0 15
    (js_sort (fun a b => (tc_count a <? tc_count b)%nat)
       (map (fun e =>
               {| tc_category := fst e;
                  tc_count := snd e;
                  tc_percentage := percentage (snd e) total |})
            categoryMap)).

(** The statistics of a non-empty batch; [allNodes.sort] works in place. *)
Definition analyse (allNodes : list (MemoryNode N)) : AnalyticsData N :=
  match allNodes with
  | [] =>
      {| daily := []; monthly := []; yearly := []; topSites := [];
         topCategories := []; totalPages := 0; uniqueDomains := 0;
         dateRange := (now, now) |}
  | first :: _ =>
      let sortedNodes :=
        js_sort (fun a b => (timestamp a - timestamp b >? 0)%Z) allNodes in
      {| daily := calculateDailyStats sortedNodes;
         monthly := calculateMonthlyStats sortedNodes;
         yearly := calculateYearlyStats sortedNodes;
         topSites := calculateTopSites sortedNodes;
         topCategories := calculateTopCategories sortedNodes;
         totalPages := length sortedNodes;
         uniqueDomains :=
           length (fold_left (fun s nd => set_add (domain nd) s) sortedNodes []);
         dateRange :=
           (timestamp (hd first sortedNodes),
            timestamp (last sortedNodes first)) |}
  end.

End Analytics.

(* ================================================================== *)
(** ** Properties and test fixtures *)

Section IndexProps.
Context {N : Type} `{JsNumber N}.

(** Ids handed to [add] by a sequence of operations, in order. *)
Fixpoint addedIds (ops : list (IndexOp (N:=N))) : list string :=
  match ops with
  | [] => []
  | OpAdd nodeId _ :: ops' => nodeId :: addedIds ops'
  | _ :: ops' => addedIds ops'
  end.

(** Every id of a bucket has a vector. *)
Definition bucketsBacked (ix : ANNIndex N) : Prop :=
  forall h bucket nodeId,
    map_get h (buckets ix) = Some bucket -> In nodeId bucket ->
    exists v, map_get nodeId (vectors ix) = Some v.

(** Every id of a bucket is recorded under that bucket's hash, has a vector
    and was added before. *)
Definition bucketsTracked (seen : list string) (ix : ANNIndex N) : Prop :=
  forall h bucket nodeId,
    map_get h (buckets ix) = Some bucket -> In nodeId bucket ->
    map_get nodeId (hashes ix) = Some h
    /\ (exists v, map_get nodeId (vectors ix) = Some v)
    /\ In nodeId seen.
(** Every id of a bucket is recorded under that bucket's hash and has a
    vector. *)
Definition bucketsRecorded (ix : ANNIndex N) : Prop :=
  forall h bucket nodeId,
    map_get h (buckets ix) = Some bucket -> In nodeId bucket ->
    map_get nodeId (hashes ix) = Some h
    /\ (exists v, map_get nodeId (vectors ix) = Some v).

(** No [add] of the sequence moves an indexed id to another hash. *)
Fixpoint hashStable (ix : ANNIndex N) (ops : list (IndexOp (N:=N))) : Prop :=
  match ops with
  | [] => True
  | op :: ops' =>
      match op with
      | OpAdd nodeId vector =>
          match map_get nodeId (hashes ix) with
          | Some h => h = computeHash (projectionMatrix ix) vector
          | None => True
          end
      | _ => True
      end
      /\ hashStable (applyOp ix op) ops'
  end.
End IndexProps.

(** *** Fixtures in binary64 *)

Definition F64 : Type := PrimFloat.float.

(** A run of [Math.random()] whose matrix has 0.5 in column 0 and 0 in
    the other columns. *)
Definition fixRandom (i j : nat) : F64 :=
  match j with
  | O => dec 75 100
  | S _ => dec 5 10
  end.

Definition fixIndex : ANNIndex F64 := ANNIndex_new fixRandom.

(** The vector [(x, 0, ..., 0)] of dimension 384. *)
Definition axisVector (x : Z) : list F64 := ofZ x :: repeat (ofZ 0) 383.

(** Node ids ["n0"], ["n1"], ... *)
Definition nid (i : nat) : string :=
  ("n" ++ DecimalString.NilEmpty.string_of_uint (Nat.to_uint i))%string.

(** [n] pages whose embedding is [(1, 0, ..., 0)]. *)
Definition addMany (n : nat) : list (IndexOp (N:=F64)) :=
  map (fun i => OpAdd (nid i) (axisVector 1)) (seq 0 n).

(** A page of the fixtures: only what the claims look at is filled in. *)
Definition page (i : string) (u t : string) (ts : Z) (d : string)
  : MemoryNode F64 :=
  {| id := i; url := u; title := t; readableText := EmptyString; timestamp := ts;
     embedding := None; keywords := []; domain := d |}.

Definition emptyStore : CortexStorage F64 :=
  {| opened := true; pages := []; embeddings := []; annIndex := fixIndex |}.

Definition sampleEmbedding : Embedding F64 :=
  {| vector := axisVector 1; model := "fallback"; emb_timestamp := 1700000000000 |}.

(** A store with the page ["a"] and its embedding. *)
Definition storeWithA : CortexStorage F64 :=
  fst (storeEmbedding "a" sampleEmbedding true
         (fst (addMemoryNode (page "a" "https://a.example/" "A" 1 "a.example")
                 true emptyStore))).

(** Two pages captured one second apart. *)
Definition pageOld : MemoryNode F64 :=
  page "a" "https://a.example/" "A" 1700000000000 "a.example".
Definition pageNew : MemoryNode F64 :=
  page "b" "https://b.example/" "B" 1700000001000 "b.example".

Definition twoPages : CortexStorage F64 :=
  fst (addMemoryNode pageNew true (fst (addMemoryNode pageOld true emptyStore))).

(** A feature extractor that answers (1, 0, ..., 0) for every text. *)
Definition fixEmbedding (text ttl : string) (kws : list string)
  : result (Embedding F64) :=
  Ok sampleEmbedding.

(** A store whose index went through [add "a" v1; add "a" v2; remove "a"]
    with vectors of different hash. *)
Definition staleStore : CortexStorage F64 :=
  {| opened := true; pages := []; embeddings := [];
     annIndex := run [OpAdd "a"%string (axisVector 1);
                      OpAdd "a"%string (axisVector (-1));
                      OpRemove "a"%string] fixIndex |}.

(** *** The hybrid score in closed form

    One title bonus, one domain bonus, one clamp, over the query words the
    code keeps: the whitespace-separated words of the lowercased query
    that are longer than two characters. *)
Section HybridSpec.
Context {N : Type} `{JsNumber N}.

Definition titleBonus (titleLower queryLower : string) : N :=
  if String.eqb titleLower queryLower then dec 4 10
  else if includes titleLower queryLower then dec 25 100
  else if forallb (fun w => includes titleLower w) (queryWordsOf queryLower)
  then dec 2 10
  else if existsb (fun w => includes titleLower w) (queryWordsOf queryLower)
  then dec 1 10
  else ofZ 0.

Definition domainBonus (domainLower queryLower : string) : N :=
  if includes domainLower queryLower then dec 15 100
  else if existsb (fun w => includes domainLower w) (queryWordsOf queryLower)
  then dec 8 100
  else ofZ 0.

Definition claimedHybridScore (s : N) (nd : MemoryNode N) (query : string) : N :=
  let queryLower := toLowerCase query in
  jmin (ofZ 1)
       (jadd (jadd s (titleBonus (toLowerCase (title nd)) queryLower))
             (domainBonus (toLowerCase (domain nd)) queryLower)).

(** Some branch of the title cascade or of the domain cascade is taken. *)
Definition anyBonus (nd : MemoryNode N) (query : string) : bool :=
  let queryLower := toLowerCase query in
  let titleLower := toLowerCase (title nd) in
  let domainLower := toLowerCase (domain nd) in
  let queryWords := queryWordsOf queryLower in
  String.eqb titleLower queryLower
  || includes titleLower queryLower
  || forallb (fun w => includes titleLower w) queryWords
  || existsb (fun w => includes titleLower w) queryWords
  || includes domainLower queryLower
  || existsb (fun w => includes domainLower w) queryWords.

(** The title shares nothing with the query: it neither contains the query
    nor any of its whitespace-separated words. *)
Definition noTitleOverlap (nd : MemoryNode N) (query : string) : bool :=
  let queryLower := toLowerCase query in
  let titleLower := toLowerCase (title nd) in
  negb (includes titleLower queryLower)
  && negb (existsb (fun w => includes titleLower w) (split_ws queryLower)).
End HybridSpec.

Definition pageR (t d : string) : MemoryNode R :=
  {| id := EmptyString; url := EmptyString; title := t; readableText := EmptyString; timestamp := 0;
     embedding := None; keywords := []; domain := d |}.

(** *** Analytics fixtures *)


(** The count of an entry of the domain map. *)
Definition siteCount (e : string * (nat * Z)) : nat := fst (snd e).

(** The calendar of a host in UTC, for instants of 14 November 2023 (all
    timestamps of the fixtures fall on that day). *)
Definition fixYear (t : Z) : Z := 2023.
Definition fixMonth (t : Z) : Z := 10.
Definition fixDate (t : Z) : Z := 14.
Definition fixLocaleAfter (a b : string) : bool := String.ltb b a.

Fixpoint untilSlash (s : string) : string :=
  match s with
  | EmptyString => EmptyString
  | String c s' =>
      if Ascii.eqb c "/" then EmptyString else String c (untilSlash s')
  end.

(** [new URL(u).hostname] for urls of the shape [https://host/path]. *)
Definition fixHostname (u : string) : option string :=
  if String.prefix "https://" u
  then Some (untilSlash (String.substring 8 (String.length u - 8) u))
  else None.

Definition sixteenHosts : list string :=
  [ "leetcode.com"; "chatgpt.com"; "github.com"; "docs.rs"; "arxiv.org";
    "amazon.com"; "booking.com"; "webmd.com"; "yelp.com"; "netflix.com";
    "indeed.com"; "reddit.com"; "coursera.org"; "bbc.com"; "wikipedia.org";
    "forbes.com" ]%string.

(** Sixteen pages, one per host, captured a millisecond apart. *)
Definition sixteenPages : list (MemoryNode F64) :=
  map (fun ih =>
         page (nid (fst ih)) ("https://" ++ snd ih ++ "/")%string (snd ih)
              (1700000000000 + Z.of_nat (fst ih)) (snd ih))
      (combine (seq 0 16) sixteenHosts).




(** The page ["a"] captured a second time with other content: its new
    embedding points the other way and falls into another bucket. *)
Definition recapturedStore : CortexStorage F64 :=
  fst (storeEmbedding "a"
         {| vector := axisVector (-1); model := "fallback";
            emb_timestamp := 1700000005000 |}
         true storeWithA).

(** A store as a restart finds it: the page ["a"] and its embedding are on
    disk, the index of the new process is still empty. *)
Definition coldStore : CortexStorage F64 :=
  {| opened := true; pages := pages storeWithA;
     embeddings := embeddings storeWithA; annIndex := fixIndex |}.

(** Two doubles whose squares leave the range of binary64:
    [1e200] and [1e-200]. *)
Section Extremes.
Import PrimFloat.
Definition hugeEntry : F64 := 0x1.4e718d7d7625ap+664%float.
Definition tinyEntry : F64 := 0x1.87e92154ef7acp-665%float.
End Extremes.

(** *** The hybrid score as the claim states it

    The same cascades with every whitespace-separated word of the
    lowercased query as a query word, and one clamp at the end. *)
Section HybridStated.
Context {N : Type} `{JsNumber N}.

Definition statedTitleBonus (titleLower queryLower : string) : N :=
  if String.eqb titleLower queryLower then dec 4 10
  else if includes titleLower queryLower then dec 25 100
  else if forallb (fun w => includes titleLower w) (split_ws queryLower)
  then dec 2 10
  else if existsb (fun w => includes titleLower w) (split_ws queryLower)
  then dec 1 10
  else ofZ 0.

Definition statedDomainBonus (domainLower queryLower : string) : N :=
  if includes domainLower queryLower then dec 15 100
  else if existsb (fun w => includes domainLower w) (split_ws queryLower)
  then dec 8 100
  else ofZ 0.

Definition statedHybridScore (s : N) (nd : MemoryNode N) (query : string) : N :=
  let queryLower := toLowerCase query in
  jmin (ofZ 1)
       (jadd (jadd s (statedTitleBonus (toLowerCase (title nd)) queryLower))
             (statedDomainBonus (toLowerCase (domain nd)) queryLower)).
End HybridStated.
(* ================================================================== *)
(** ** utils/vector-search: BruteForceIndex and normalizeVector *)

Module BruteForceIndex.
Section BruteForce.
Context {N : Type} `{JsNumber N}.
Local Open Scope js_scope.

(** The index is its [vectors] map. *)
Definition t : Type := JsMap string (list N).

Definition add (nodeId : string) (vector : list N) (ix : t) : t :=
  map_set nodeId vector ix.

(** The loop over [this.vectors.entries()], then sort and slice. *)
Definition search (queryVector : list N) (k : nat) (threshold : N) (ix : t)
  : list (string * N) :=
  let results :=
    filter (fun r => snd r >=? threshold)
           (map (fun e => (fst e, cosineSimilarity queryVector (snd e))) ix) in
  slice0 k (js_sort bySimilarityDesc results).

Definition remove (nodeId : string) (ix : t) : t := map_delete nodeId ix.

Definition clear (ix : t) : t := [].
End BruteForce.
End BruteForceIndex.

Section Normalize.
Context {N : Type} `{JsNumber N}.
Local Open Scope js_scope.

Definition normalizeVector (vector : list N) : list N :=
  let norm :=
    jsqrt (fold_left (fun sum val => sum + val * val) vector (ofZ 0)) in
  if norm === ofZ 0 then vector
  else map (fun val => val / norm) vector.
End Normalize.

(** *** Properties of the index *)

Section IndexProps2.
Context {N : Type} `{JsNumber N}.

(** Every indexed id sits in the bucket of the hash of its vector. *)
Definition vectorsBucketed (ix : ANNIndex N) : Prop :=
  forall nodeId v,
    map_get nodeId (vectors ix) = Some v ->
    exists bucket,
      map_get (computeHash (projectionMatrix ix) v) (buckets ix) = Some bucket
      /\ In nodeId bucket.

(** [p] is a match of the query: an indexed id with the cosine of its
    vector, which reaches the threshold. *)
Definition isMatch (vs : JsMap string (list N)) (q : list N) (th : N)
                   (p : string * N) : Prop :=
  exists v, map_get (fst p) vs = Some v
            /\ snd p = cosineSimilarity q v
            /\ jleb th (snd p) = true.

(** Scoring a list of ids that all have a vector. *)
Definition scored (vs : JsMap string (list N)) (q : list N) (th : N) (cands : list string)
  : list (string * N) :=
  filter (fun p => jleb th (snd p))
    (map (fun x =>
            (x, cosineSimilarity q
                  match map_get x vs with Some v => v | None => [] end))
         cands).

End IndexProps2.

(** *** Fixtures for the index *)

(** Three pages with embedding (1, 0, ..., 0). *)
Definition threeIndex : ANNIndex F64 := run (addMany 3) fixIndex.

(** An index over the reals with one vector of dimension 1. *)
Definition oneIndexR : ANNIndex R :=
  run [OpAdd "a"%string [1%R]] (ANNIndex_new (fun _ _ => (1 / 2)%R)).


(** The vector [(x, y, 0, ..., 0)] of dimension 384. *)
Definition planeVector (x y : Z) : list F64 :=
  ofZ x :: ofZ y :: repeat (ofZ 0) 382.

(** Two vectors on either side of the first hyperplane, at the same angle
    from [(0, 1, 0, ..., 0)]. *)
Definition tieIndex : ANNIndex F64 :=
  run [OpAdd "b"%string (planeVector 1 1); OpAdd "a"%string (planeVector (-1) 1)]
      fixIndex.
(* ================================================================== *)
(** ** utils/storage: the remaining collections and operations *)

(** A promise either settles or stays pending for ever (an [async]
    callback that throws after the executor has returned). *)
Inductive outcome (A : Type) : Type :=
| Settled (r : result A)
| Pending.
Arguments Settled {A} r.
Arguments Pending {A}.

Record GraphEdgeRecord (N : Type) : Type := {
  ge_id : string;                   (* keyPath *)
  fromNode : string;
  toNode : string;
  strength : N;
  ge_timestamp : Z
}.

Record CaptureSettings : Type := {
  enabled : bool;
  excludeDomains : list string;
  excludeKeywords : list string;
  maxStorageSize : Z
}.

(** [Partial<CaptureSettings>] *)
Record PartialSettings : Type := {
  p_enabled : option bool;
  p_excludeDomains : option (list string);
  p_excludeKeywords : option (list string);
  p_maxStorageSize : option Z
}.

Inductive RuleType : Type := RuleDomain | RuleDate | RuleKeyword.
Inductive RuleStatus : Type := RuleActive | RuleInactive.

Record PrivacyRule : Type := {
  rule_id : string;
  rule_type : RuleType;
  rule_value : string;
  rule_status : RuleStatus;
  createdAt : string
}.

Record MemoryCluster (N : Type) : Type := {
  cl_id : string;
  cl_name : string;
  cl_color : string;
  cl_nodes : list (MemoryNode N);
  cl_centroid : option (list N);
  cl_keywords : list string
}.

(** The whole database: the pages, embeddings and index of [CortexStorage]
    together with the other object stores and the hydration flag.  The
    settings store only ever holds the record under the key ["capture"]. *)
Record Database (N : Type) : Type := {
  core : CortexStorage N;
  isHydrated : bool;
  clusters : JsMap string (MemoryCluster N);
  graph_edges : JsMap string (GraphEdgeRecord N);
  sessions : JsMap string string;
  activity : JsMap string string;
  settings : option CaptureSettings;
  rules : JsMap string PrivacyRule
}.

Section StorageMore.
Context {N : Type} `{JsNumber N}.
Local Open Scope js_scope.

Definition setCore (db : Database N) (c : CortexStorage N) : Database N :=
  {| core := c; isHydrated := isHydrated db; clusters := clusters db;
     graph_edges := graph_edges db; sessions := sessions db;
     activity := activity db; settings := settings db; rules := rules db |}.

(** *** Embeddings and hydration *)

Definition getAllEmbeddings (io : bool) (st : CortexStorage N)
  : result (list (string * Embedding N)) :=
  _ <- ready st ;;
  if io then Ok (map embeddingOf (byKey (embeddings st)))
  else Err (DbError "Failed to get embeddings").

(** Without the [ready()] check: throws when the handle is not there. *)
Definition internalGetAllEmbeddings (io : bool) (st : CortexStorage N)
  : result (list (string * Embedding N)) :=
  if opened st then
    if io then Ok (map embeddingOf (byKey (embeddings st)))
    else Err (DbError "Failed to get embeddings")
  else Err (DbError "DB not initialized").

Definition withIndex (st : CortexStorage N) (ix : ANNIndex N)
  : CortexStorage N :=
  {| opened := opened st; pages := pages st; embeddings := embeddings st;
     annIndex := ix |}.

(** Never rejects: a failure is logged and the flag stays down. *)
Definition hydrateIndex (io : bool) (db : Database N) : Database N :=
  if isHydrated db then db
  else
    match internalGetAllEmbeddings io (core db) with
    | Ok embs =>
        let ix :=
          fold_left (fun ix ne => add (fst ne) (vector (snd ne)) ix)
                    embs (annIndex (core db)) in
        {| core := withIndex (core db) ix; isHydrated := true;
           clusters := clusters db; graph_edges := graph_edges db;
           sessions := sessions db; activity := activity db;
           settings := settings db; rules := rules db |}
    | Err _ => db
    end.

(** *** Cleanup *)

(** What one step of a delete cursor does to the value under the cursor. *)
Definition deleteStep (st : CortexStorage N) (nd : MemoryNode N)
  : CortexStorage N :=
  {| opened := opened st;
     pages := map_delete (id nd) (pages st);
     embeddings := map_delete (id nd) (embeddings st);
     annIndex := remove (id nd) (annIndex st) |}.

(** A cursor over [targets].  [failAfter = Some n] with
    [n <= length targets]: the request fails once [n] records have been
    handled; the transaction is rolled back, the index is not. *)
Definition deleteCursor (targets : list (MemoryNode N)) (failAfter : option nat)
                        (msg : string) (st : CortexStorage N)
  : CortexStorage N * result nat :=
  match failAfter with
  | Some n =>
      if (n <=? length targets)%nat then
        (withIndex st
           (fold_left (fun ix nd => remove (id nd) ix) (firstn n targets)
                      (annIndex st)),
         Err (DbError msg))
      else (fold_left deleteStep targets st, Ok (length targets))
  | None => (fold_left deleteStep targets st, Ok (length targets))
  end.

(** The entries of the ["domain"] index under one key, by primary key. *)
Definition domainRange (d : string) (ps : JsMap string (MemoryNode N))
  : list (MemoryNode N) :=
  js_sort (fun a b => String.ltb (id b) (id a))
          (filter (fun nd => String.eqb (domain nd) d) (map_values ps)).

Definition deleteByDomain (d : string) (failAfter : option nat)
                          (st : CortexStorage N)
  : CortexStorage N * result nat :=
  match ready st with
  | Err e => (st, Err e)
  | Ok _ =>
      deleteCursor (domainRange d (pages st)) failAfter
                   "Failed to delete by domain" st
  end.

(** The entries of the ["timestamp"] index with
    [startDate <= key <= endDate]. *)
Definition dateRangeOf (startDate endDate : Z)
                       (ps : JsMap string (MemoryNode N))
  : list (MemoryNode N) :=
  filter (fun nd => (startDate <=? timestamp nd)%Z
                    && (timestamp nd <=? endDate)%Z)
         (timestampIndex ps).

(** [IDBKeyRange.bound] throws a [DataError] when the lower bound is above
    the upper one; thrown inside the executor, it rejects the promise. *)
Definition deleteByDateRange (startDate endDate : Z) (failAfter : option nat)
                             (st : CortexStorage N)
  : CortexStorage N * result nat :=
  match ready st with
  | Err e => (st, Err e)
  | Ok _ =>
      if (endDate <? startDate)%Z then (st, Err (DbError "DataError"))
      else
        deleteCursor (dateRangeOf startDate endDate (pages st)) failAfter
                     "Failed to delete by date range" st
  end.

(** [hydrating]: the hydration started by [init] is still in flight; it
    completes after [annIndex.clear()] and before the transaction runs
    (see [deleteMemoryNode]). *)
Definition clearAllData (io : bool) (hydrating : bool) (db : Database N)
  : Database N * result unit :=
  match ready (core db) with
  | Err e => (db, Err e)
  | Ok _ =>
      let cleared := setCore db (withIndex (core db) (clear (annIndex (core db)))) in
      let db1 := if hydrating then hydrateIndex true cleared else cleared in
      if io then
        ({| core := {| opened := opened (core db1); pages := [];
                       embeddings := [];
                       annIndex := annIndex (core db1) |};
            isHydrated := isHydrated db1;
            clusters := []; graph_edges := []; sessions := [];
            activity := []; settings := None; rules := [] |}, Ok tt)
      else (db1, Err (DbError "Failed to clear all data"))
  end.

(** *** Statistics *)

Record Stats : Type := {
  pageCount : nat;
  clusterCount : nat;
  edgeCount : nat;
  storageSize : Z
}.

(** [estimate]: [None] when [navigator.storage.estimate] is not there,
    [Some (Err _)] when it throws, [Some (Ok usage)] otherwise, with
    [usage = None] for a missing field. *)
Definition getStats (io_pages io_clusters io_edges : bool)
                    (estimate : option (result (option Z)))
                    (db : Database N) : result Stats :=
  _ <- ready (core db) ;;
  pc <- (if io_pages then Ok (length (pages (core db)))
         else Err (DbError "Failed to count pages")) ;;
  cc <- (if io_clusters then Ok (length (clusters db))
         else Err (DbError "Failed to count clusters")) ;;
  ec <- (if io_edges then Ok (length (graph_edges db))
         else Err (DbError "Failed to count edges")) ;;
  let size :=
    match estimate with
    | Some (Ok (Some usage)) => usage     (* [usage || 0] *)
    | _ => 0%Z
    end in
  Ok {| pageCount := pc; clusterCount := cc; edgeCount := ec;
        storageSize := size |}.

(** *** Clusters *)

Definition saveCluster (c : MemoryCluster N) (io : bool) (db : Database N)
  : Database N * result unit :=
  match ready (core db) with
  | Err e => (db, Err e)
  | Ok _ =>
      if io then
        ({| core := core db; isHydrated := isHydrated db;
            clusters := map_set (cl_id c) c (clusters db);
            graph_edges := graph_edges db; sessions := sessions db;
            activity := activity db; settings := settings db;
            rules := rules db |}, Ok tt)
      else (db, Err (DbError "Failed to save cluster"))
  end.

Definition getAllClusters (io : bool) (db : Database N)
  : result (list (MemoryCluster N)) :=
  _ <- ready (core db) ;;
  if io then Ok (byKey (clusters db))
  else Err (DbError "Failed to get clusters").

(** *** Graph *)

Definition edgeId (fromN toN : string) : string :=
  (fromN ++ ":" ++ toN)%string.

(** [now] is [Date.now()]. *)
Definition addGraphEdge (fromN toN : string) (s : N) (now : Z) (io : bool)
                        (db : Database N) : Database N * result unit :=
  match ready (core db) with
  | Err e => (db, Err e)
  | Ok _ =>
      if io then
        ({| core := core db; isHydrated := isHydrated db;
            clusters := clusters db;
            graph_edges :=
              map_set (edgeId fromN toN)
                {| ge_id := edgeId fromN toN; fromNode := fromN;
                   toNode := toN; strength := s; ge_timestamp := now |}
                (graph_edges db);
            sessions := sessions db; activity := activity db;
            settings := settings db; rules := rules db |}, Ok tt)
      else (db, Err (DbError "Failed to add graph edge"))
  end.

(** The entries of the ["fromNode"] index under one key, by primary key. *)
Definition edgesFrom (nid : string) (es : JsMap string (GraphEdgeRecord N))
  : list (GraphEdgeRecord N) :=
  filter (fun e => String.eqb (fromNode e) nid) (byKey es).

(** [sorted.slice(0, limit)]: the edges whose far ends are looked up. *)
Definition followedEdges (nid : string) (limit : nat) (db : Database N)
  : list (GraphEdgeRecord N) :=
  slice0 limit
    (js_sort (fun a b => (strength b - strength a) >? ofZ 0)
             (edgesFrom nid (graph_edges db))).

(** The page requests run inside the [async] success callback: when one of
    them fails nothing settles the promise. *)
Definition getRelatedNodes (nid : string) (limit : nat) (io : bool)
                           (io_page : string -> bool) (db : Database N)
  : outcome (list (MemoryNode N)) :=
  match ready (core db) with
  | Err e => Settled (Err e)
  | Ok _ =>
      if io then
        let sorted :=
          js_sort (fun a b => (strength b - strength a) >? ofZ 0)
                  (edgesFrom nid (graph_edges db)) in
        let relatedIds := map (@toNode N) (slice0 limit sorted) in
        match mapM (fun i => getMemoryNode i (io_page i) (core db)) relatedIds with
        | Ok nodes =>
            Settled (Ok (flat_map (fun o => match o with
                                            | Some nd => [nd]
                                            | None => []
                                            end) nodes))
        | Err _ => Pending
        end
      else Settled (Err (DbError "Failed to get related nodes"))
  end.

(** *** Settings *)

Definition defaultSettings : CaptureSettings :=
  {| enabled := true; excludeDomains := []; excludeKeywords := [];
     maxStorageSize := 500 * 1024 * 1024 |}.

Definition getSettings (io : bool) (db : Database N) : result CaptureSettings :=
  _ <- ready (core db) ;;
  if io then
    Ok (match settings db with
        | Some s => s
        | None => defaultSettings
        end)
  else Err (DbError "Failed to get settings").

(** [{ ...current, ...settings }] *)
Definition mergeSettings (current : CaptureSettings) (p : PartialSettings)
  : CaptureSettings :=
  {| enabled := match p_enabled p with Some b => b | None => enabled current end;
     excludeDomains :=
       match p_excludeDomains p with
       | Some l => l
       | None => excludeDomains current
       end;
     excludeKeywords :=
       match p_excludeKeywords p with
       | Some l => l
       | None => excludeKeywords current
       end;
     maxStorageSize :=
       match p_maxStorageSize p with
       | Some z => z
       | None => maxStorageSize current
       end |}.

(** The executor is [async] and first awaits [getSettings]: when that read
    fails, neither [resolve] nor [reject] is ever called. *)
Definition updateSettings (p : PartialSettings) (io_get io_put : bool)
                          (db : Database N) : Database N * outcome unit :=
  match ready (core db) with
  | Err e => (db, Settled (Err e))
  | Ok _ =>
      match getSettings io_get db with
      | Err _ => (db, Pending)
      | Ok current =>
          if io_put then
            ({| core := core db; isHydrated := isHydrated db;
                clusters := clusters db; graph_edges := graph_edges db;
                sessions := sessions db; activity := activity db;
                settings := Some (mergeSettings current p);
                rules := rules db |}, Settled (Ok tt))
          else (db, Settled (Err (DbError "Failed to update settings")))
      end
  end.

(** *** Privacy rules *)

Definition setRules (db : Database N) (rs : JsMap string PrivacyRule)
  : Database N :=
  {| core := core db; isHydrated := isHydrated db; clusters := clusters db;
     graph_edges := graph_edges db; sessions := sessions db;
     activity := activity db; settings := settings db; rules := rs |}.

Definition addPrivacyRule (r : PrivacyRule) (io : bool) (db : Database N)
  : Database N * result unit :=
  match ready (core db) with
  | Err e => (db, Err e)
  | Ok _ =>
      if io then (setRules db (map_set (rule_id r) r (rules db)), Ok tt)
      else (db, Err (DbError "Failed to add privacy rule"))
  end.

Definition getPrivacyRules (io : bool) (db : Database N)
  : result (list PrivacyRule) :=
  _ <- ready (core db) ;;
  if io then Ok (byKey (rules db))
  else Err (DbError "Failed to get privacy rules").

Definition deletePrivacyRule (rid : string) (io : bool) (db : Database N)
  : Database N * result unit :=
  match ready (core db) with
  | Err e => (db, Err e)
  | Ok _ =>
      if io then (setRules db (map_delete rid (rules db)), Ok tt)
      else (db, Err (DbError "Failed to delete privacy rule"))
  end.

(** The matches built from the candidates and the pages found for them. *)
Definition matchesOf (cn : list ((string * N) * option (MemoryNode N)))
  : list (SemanticMatch N) :=
  flat_map
    (fun cn =>
       match snd cn with
       | None => []
       | Some nd =>
           [ {| nodeId := fst (fst cn);
                similarity := snd (fst cn);
                node := nd;
                reason := {| sharedKeywords := [];
                             contextMatch := EmptyString;
                             semanticSimilarity := snd (fst cn) |} |} ]
       end) cn.

(** The object store of the pages is keyed by [id], one record per key. *)
Definition pagesKeyed (ps : JsMap string (MemoryNode N)) : Prop :=
  NoDup (map_keys ps) /\ forall k nd, In (k, nd) ps -> id nd = k.

(** The object store of the embeddings is keyed by [nodeId]. *)
Definition embeddingsKeyed (es : JsMap string (EmbeddingRecord N)) : Prop :=
  NoDup (map_keys es) /\ forall k r, In (k, r) es -> er_nodeId r = k.

(** The object store of the privacy rules is keyed by the rule id. *)
Definition rulesKeyed (rs : JsMap string PrivacyRule) : Prop :=
  NoDup (map_keys rs) /\ forall k r, In (k, r) rs -> rule_id r = k.
End StorageMore.

(** No [":"] occurs in the string. *)
Fixpoint no_colon (s : string) : bool :=
  match s with
  | EmptyString => true
  | String c s' => negb (Ascii.eqb c ":") && no_colon s'
  end.

(** A database over [twoPages], with the embedding of page ["a"] stored
    and nothing else; the index has not been hydrated. *)
Definition fixDb : Database F64 :=
  {| core := {| opened := true; pages := pages twoPages;
                embeddings :=
                  [("a"%string,
                    {| er_nodeId := "a"; er_vector := axisVector 1;
                       er_model := "fallback";
                       er_timestamp := 1700000000000 |})];
                annIndex := fixIndex |};
     isHydrated := false; clusters := []; graph_edges := [];
     sessions := []; activity := []; settings := None; rules := [] |}.

Definition fixRule : PrivacyRule :=
  {| rule_id := "r1"; rule_type := RuleDomain; rule_value := "bank.example";
     rule_status := RuleActive; createdAt := "2023-11-14" |}.

(* ================================================================== *)
(** ** RecallService: the other queries *)

Section RecallMore.
Context {N : Type} `{JsNumber N}.

(** [now] is [Date.now()]. *)
Variable now : Z.

Definition getRelatedPages (u : string) (limit : nat) (io_scan io_edges : bool)
                           (io_page : string -> bool) (db : Database N)
  : outcome (list (MemoryNode N)) :=
  match getAllMemoryNodes (Some 1000) io_scan (core db) with
  | Err e => Settled (Err e)
  | Ok nodes =>
      match find (fun n => String.eqb (url n) u) nodes with
      | None => Settled (Ok [])
      | Some targetNode =>
          getRelatedNodes (id targetNode) limit io_edges io_page db
      end
  end.

(** [hours] a whole number of hours. *)
Definition getRecentPages (hours : Z) (limit : nat) (io : bool)
                          (st : CortexStorage N)
  : result (list (MemoryNode N)) :=
  let cutoff := (now - hours * 60 * 60 * 1000)%Z in
  allNodes <- getAllMemoryNodes (Some (limit * 5)) io st ;;
  Ok (slice0 limit
        (js_sort (fun a b => (timestamp b - timestamp a >? 0)%Z)
           (filter (fun node => (timestamp node >=? cutoff)%Z) allNodes))).

Definition getPagesByDomain (d : string) (io : bool) (st : CortexStorage N)
  : result (list (MemoryNode N)) :=
  nodes <- getAllMemoryNodes (Some 500) io st ;;
  Ok (filter (fun node => String.eqb (domain node) d) nodes).
End RecallMore.
(* ================================================================== *)
(** ** web-workers/clustering.worker *)

Section Clustering.
Context {N : Type} `{JsNumber N}.
Local Open Scope js_scope.

(** The loop [for (i = 0; i < a.length; i++)] of the worker's own
    [cosineSimilarity].  There is no length check: once [b[i]] is
    [undefined] the products with it are NaN and [dotProduct] and [normB]
    stay NaN; [None] is that NaN. *)
Fixpoint workerLoop (a b : list N) (dotProduct : option N) (normA : N)
                    (normB : option N) : option N * N * option N :=
  match a with
  | [] => (dotProduct, normA, normB)
  | x :: a' =>
      match b with
      | y :: b' =>
          workerLoop a' b'
            (option_map (fun d => d + x * y) dotProduct)
            (normA + x * x)
            (option_map (fun n => n + y * y) normB)
      | [] => workerLoop a' [] None (normA + x * x) None
      end
  end.

(** [None] is the result NaN. *)
Definition worker_cosineSimilarity (a b : list N) : option N :=
  let '(dotProduct, normA, normB) :=
    workerLoop a b (Some (ofZ 0)) (ofZ 0) (Some (ofZ 0)) in
  let normA := jsqrt normA in
  match dotProduct, normB with
  | Some dotProduct, Some normB =>
      let normB := jsqrt normB in
      if (normA === ofZ 0) || (normB === ofZ 0) then Some (ofZ 0)
      else Some (dotProduct / (normA * normB))
  | _, _ =>
      (* [NaN === 0] is false, and the quotient is NaN *)
      if normA === ofZ 0 then Some (ofZ 0) else None
  end.

(** [similarity >= threshold]; false for NaN. *)
Definition similarEnough (threshold : N) (a b : list N) : bool :=
  match worker_cosineSimilarity a b with
  | Some similarity => similarity >=? threshold
  | None => false
  end.

(** [`cluster_${n}`] *)
Definition clusterName (n : nat) : string :=
  ("cluster_" ++ DecimalString.NilEmpty.string_of_uint (Nat.to_uint n))%string.

(** One turn of the inner loop: the state is [cluster.pages] and
    [assigned]. *)
Definition innerStep (threshold : N) (item : string * list N)
                     (st : list string * JsSet string)
                     (other : string * list N)
  : list string * JsSet string :=
  if set_has (fst other) (snd st) then st
  else if similarEnough threshold (snd item) (snd other)
       then (fst st ++ [fst other], set_add (fst other) (snd st))
       else st.

(** One turn of the outer loop: the state is [clusters] and [assigned]. *)
Definition outerStep (threshold : N) (embeddings : list (string * list N))
                     (st : list (string * list string) * JsSet string)
                     (item : string * list N)
  : list (string * list string) * JsSet string :=
  if set_has (fst item) (snd st) then st
  else
    let inner :=
      fold_left (innerStep threshold item) embeddings
                ([fst item], set_add (fst item) (snd st)) in
    (fst st ++ [(clusterName (length (fst st)), fst inner)], snd inner).

Definition clusterPages (embeddings : list (string * list N)) (threshold : N)
  : list (string * list string) :=
  fst (fold_left (outerStep threshold embeddings) embeddings ([], [])).

(** The answer to a message: the default threshold is [0.5]. *)
Definition onmessage (embeddings : list (string * list N))
  : list (string * list string) :=
  clusterPages embeddings (dec 5 10).

(** A cluster as the loops build it: a seed taken from the input followed
    by ids of inputs whose vector is similar enough to the seed's. *)
Definition clusterBuilt (threshold : N) (embeddings : list (string * list N))
                        (c : string * list string) : Prop :=
  exists item rest,
    In item embeddings
    /\ snd c = fst item :: rest
    /\ forall p, In p rest ->
         exists other, In other embeddings /\ fst other = p
                       /\ similarEnough threshold (snd item) (snd other) = true.
End Clustering.

(** Three pages: ["a"] and ["b"] point the same way, ["c"] elsewhere. *)
Definition threeEmbeddings : list (string * list F64) :=
  [ ("a"%string, [ofZ 1; ofZ 0]);
    ("b"%string, [ofZ 1; dec 1 10]);
    ("c"%string, [ofZ 0; ofZ 1]) ].
(* ================================================================== *)
(** ** background: the message handler *)

(** [ToInt32] *)
Definition toInt32 (z : Z) : Z :=
  let m := (z mod 2 ^ 32)%Z in
  if (m <? 2 ^ 31)%Z then m else (m - 2 ^ 32)%Z.

(** [((hash << 5) - hash) + char.charCodeAt(0)]: the shift works on 32
    bits, the subtraction and the addition do not. *)
Definition urlHashStep (hash : Z) (char : ascii) : Z :=
  (toInt32 (toInt32 hash * 32) - hash + Z.of_nat (nat_of_ascii char))%Z.

Definition urlHash (u : string) : Z :=
  fold_left urlHashStep (list_ascii_of_string u) 0%Z.

Definition digit36 (d : Z) : ascii :=
  if (d <? 10)%Z then ascii_of_nat (48 + Z.to_nat d)
  else ascii_of_nat (87 + Z.to_nat d).

Fixpoint toString36_from (fuel : nat) (n : Z) (acc : string) : string :=
  match fuel with
  | O => acc
  | S fuel' =>
      let acc' := String (digit36 (n mod 36)) acc in
      if (n / 36 =? 0)%Z then acc' else toString36_from fuel' (n / 36) acc'
  end.

(** [n.toString(36)] for an integer [n >= 0]; a number has no more
    base-36 digits than binary ones. *)
Definition toString36 (n : Z) : string :=
  toString36_from (S (Z.to_nat (Z.log2 n))) n EmptyString.

(** [`page_${Math.abs(urlHash).toString(36)}`] *)
Definition nodeIdOf (u : string) : string :=
  ("page_" ++ toString36 (Z.abs (urlHash u)))%string.

Record PageContext : Type := {
  pc_url : string;
  pc_title : string;
  pc_readableText : string;
  pc_isRefresh : bool               (* [payload.isRefresh || false] *)
}.

(** The answers of the ["PAGE_CAPTURED"] case. *)
Inductive CaptureResponse : Type :=
| Skipped (reason : string)         (* success, skipped, reason *)
| AlreadyCaptured (nodeId : string) (* success, nodeId, skipped *)
| Processing (nodeId : string)      (* success, nodeId, status "processing" *)
| UrlError.                         (* success: false *)

(** The loop over the privacy rules: the reason of the first rule that
    applies. *)
Fixpoint ruleVerdict (hostname fullText : string) (privacyRules : list PrivacyRule)
  : option string :=
  match privacyRules with
  | [] => None
  | rule :: rest =>
      match rule_status rule with
      | RuleInactive => ruleVerdict hostname fullText rest
      | RuleActive =>
          if match rule_type rule with RuleDomain => true | _ => false end
             && includes hostname (toLowerCase (rule_value rule))
          then Some "privacy_rule_domain"%string
          else if match rule_type rule with RuleKeyword => true | _ => false end
                  && includes fullText (toLowerCase (rule_value rule))
          then Some "privacy_rule_keyword"%string
          else ruleVerdict hostname fullText rest
      end
  end.

Section Handler.
(** [new URL(u).hostname]; [None] when the constructor throws. *)
Variable URL_hostname : string -> option string.

(** The decision of the ["PAGE_CAPTURED"] case, from the settings and
    rules read from the store, the payload, the session cache and the
    clock. *)
Definition pageCaptured (settings : CaptureSettings)
                        (privacyRules : list PrivacyRule)
                        (payload : PageContext)
                        (sessionCaptured : JsMap string Z) (now : Z)
  : CaptureResponse :=
  if negb (enabled settings) then Skipped "disabled"
  else
    match URL_hostname (pc_url payload) with
    | None => UrlError
    | Some hostname =>
        let fullText :=
          toLowerCase (pc_title payload ++ " " ++ pc_readableText payload) in
        if existsb (fun d => includes hostname (toLowerCase d))
                   (excludeDomains settings)
        then Skipped "excluded_domain"
        else
          match ruleVerdict hostname fullText privacyRules with
          | Some reason => Skipped reason
          | None =>
              let nodeId := nodeIdOf (pc_url payload) in
              match map_get (pc_url payload) sessionCaptured with
              | Some lastCaptured =>
                  if negb (pc_isRefresh payload)
                     && negb (lastCaptured =? 0)%Z
                     && (now - lastCaptured <? 30000)%Z
                  then AlreadyCaptured nodeId
                  else Processing nodeId
              | None => Processing nodeId
              end
          end
    end.
End Handler.

(** A rule that the loop can act on: active, and about a domain or a
    keyword. *)
Definition ruleApplies (rule : PrivacyRule) : bool :=
  match rule_status rule, rule_type rule with
  | RuleActive, RuleDomain => true
  | RuleActive, RuleKeyword => true
  | _, _ => false
  end.

(** The answers of the ["FORGET_DATA"] case: the count, or the error the
    handler catches. *)
Inductive ForgetResponse : Type :=
| Forgotten (count : Z)
| ForgetFailed (e : JsError).

Section Forget.
Context {N : Type} `{JsNumber N}.

Definition countResponse (r : result nat) : ForgetResponse :=
  match r with
  | Ok n => Forgotten (Z.of_nat n)
  | Err e => ForgetFailed e
  end.

(** [domain], [startDate], [endDate] are [None] when the payload does not
    have the field.  An empty string and the number 0 are falsy.
    [failAfter] is for the delete cursors, [io] and [hydrating] for
    [clearAllData]. *)
Definition forgetData (domain : option string) (startDate endDate : option Z)
                      (failAfter : option nat) (io : bool) (hydrating : bool)
                      (db : Database N) (sessionCaptured : JsMap string Z)
  : Database N * JsMap string Z * ForgetResponse :=
  let everything :=
    match clearAllData io hydrating db with
    | (db', Ok _) => (db', [], Forgotten (-1))
    | (db', Err e) => (db', sessionCaptured, ForgetFailed e)
    end in
  let byDates :=
    match startDate, endDate with
    | Some s, Some e =>
        if negb (s =? 0)%Z && negb (e =? 0)%Z then
          let '(st', r) := deleteByDateRange s e failAfter (core db) in
          (setCore db st', sessionCaptured, countResponse r)
        else everything
    | _, _ => everything
    end in
  match domain with
  | Some d =>
      if negb (String.eqb d EmptyString) then
        let '(st', r) := deleteByDomain d failAfter (core db) in
        (setCore db st', sessionCaptured, countResponse r)
      else byDates
  | None => byDates
  end.
End Forget.

(** Fixtures: exclusion of ["bank.example"], and a page of another host
    that carries that name inside its own. *)
Definition fixSettings : CaptureSettings :=
  {| enabled := true; excludeDomains := ["Bank.example"%string];
     excludeKeywords := ["secret"%string]; maxStorageSize := 0 |}.

Definition fixPayload : PageContext :=
  {| pc_url := "https://b.example/secret"; pc_title := "A secret page";
     pc_readableText := "nothing"; pc_isRefresh := false |}.

Definition fixRules : list PrivacyRule :=
  [ {| rule_id := "r1"; rule_type := RuleKeyword; rule_value := "secret";
       rule_status := RuleInactive; createdAt := "2023-11-14" |};
    {| rule_id := "r2"; rule_type := RuleDate; rule_value := "b.example";
       rule_status := RuleActive; createdAt := "2023-11-14" |} ].
(* ================================================================== *)
(** ** Dashboard: the classifier of the page list *)

Module Dashboard.
(** The domain lists of [CATEGORY_DEFINITIONS], in the order of its keys. *)
Definition CATEGORY_DEFINITIONS : list (string * list string) :=
  [
    ("shopping",
      ["amazon"; "ebay"; "walmart"; "etsy"; "alibaba"; "flipkart";
       "shopify"; "bigcommerce"; "target"; "bestbuy"]);
    ("travel",
      ["booking"; "airbnb"; "expedia"; "tripadvisor"; "kayak";
       "hotels"; "skyscanner"; "makemytrip"; "goibibo"; "agoda"]);
    ("health",
      ["webmd"; "healthline"; "mayoclinic"; "headspace"; "calm";
       "myfitnesspal"; "fitbit"; "nhs.uk"; "practo"]);
    ("food",
      ["allrecipes"; "foodnetwork"; "tasty"; "minimalistbaker";
       "seriouseats"; "yelp"; "zomato"; "swiggy"; "ubereats"]);
    ("entertainment",
      ["netflix"; "youtube"; "spotify"; "twitch"; "hulu";
       "disneyplus"; "primevideo"; "hotstar"; "apple.com/tv"; "steam"]);
    ("jobs",
      ["linkedin"; "indeed"; "glassdoor"; "naukri"; "monster";
       "internshala"; "angellist"; "stackoverflow.com/jobs"]);
    ("social",
      ["facebook"; "instagram"; "twitter"; "reddit"; "tiktok";
       "pinterest"; "snapchat"; "telegram"; "whatsapp"; "discord"]);
    ("education",
      ["coursera"; "udemy"; "edx"; "khanacademy"; "skillshare";
       "linkedin.com/learning"; "pluralsight"; "udacity"; "byju"]);
    ("news",
      ["bbc"; "cnn"; "nytimes"; "theguardian"; "reuters";
       "hindustantimes"; "timesofindia"; "medium"; "substack"]);
    ("nonprofit",
      ["wikipedia"; "wikimedia"; "redcross"; "unicef"; "wwf";
       "greenpeace"; "amnesty"; "doctorswithoutborders"]);
    ("corporate",
      ["about"; "careers"; "company"; "corporate"; "investor"]);
    ("professional",
      ["bloomberg"; "forbes"; "wsj"; "morningstar"; "marketwatch";
       "investing"; "tradingview"]);
    ("portfolio",
      ["behance"; "dribbble"; "deviantart"; "artstation";
       "github.io"; "portfolio"; "wix.com/website"]);
    ("government",
      [".gov"; "irs.gov"; "usa.gov"; "nic.in"; "india.gov"; "mygov"]);
    ("coding",
      ["leetcode"; "hackerrank"; "codeforces"; "codewars"; "atcoder";
       "topcoder"; "spoj"; "projecteuler"; "codechef"]);
    ("ai",
      ["gemini"; "claude"; "chatgpt"; "openai"; "anthropic";
       "perplexity"; "poe"; "bard"]);
    ("developer",
      ["github"; "gitlab"; "bitbucket"; "cursor"; "vscode";
       "stackoverflow"; "dev.to"; "github.io"; "git"; "code"]);
    ("documentation",
      ["docs."; "developer."; "developers."; "learn."; "api.";
       "guide."; "reference."; "wiki."; "documentation.";
       "docs.nvidia"; "developer.nvidia"; "learn.microsoft";
       "docs.microsoft"; "developer.microsoft"; "docs.google";
       "developers.google"; "docs.aws"; "docs.github"; "docs.gitlab";
       "docs.docker"; "kubernetes.io/docs"; "react.dev"; "vuejs.org";
       "angular.io/docs"; "nodejs.org/docs"; "python.org/doc";
       "docs.python"; "dev.mozilla.org"; "developer.mozilla.org";
       "readthedocs.io"; "gitbook.io"; "devdocs.io"]);
    ("research",
      ["arxiv"; "pubmed"; "scholar.google"; "researchgate";
       "academia.edu"; "jstor"; "ieee"; "acm.org"; "springer";
       "nature.com"; "science.org"; "cell.com"; "plos.org";
       "biorxiv"; "medrxiv"]) ]%string.

Definition priorityOrder : list string :=
  [ "coding"; "developer"; "ai"; "documentation"; "research"; "jobs";
    "education"; "shopping"; "travel"; "health"; "food";
    "entertainment"; "social"; "news"; "nonprofit"; "corporate";
    "professional"; "portfolio"; "government" ]%string.

Section Classifier.
(** [new URL(url).hostname]; [None] when the constructor throws. *)
Variable URL_hostname : string -> option string.

Definition categorizeUrl (u : string) : string :=
  match URL_hostname u with
  | None => "miscellaneous"         (* caught *)
  | Some h =>
      let hostname := toLowerCase h in
      let hit (key : string) : bool :=
        match map_get key CATEGORY_DEFINITIONS with
        | Some domains =>
            existsb (fun d => includes hostname (toLowerCase d)) domains
        | None => false
        end in
      match find hit priorityOrder with
      | Some key => key
      | None =>
          match
            find (fun e =>
                    negb (existsb (String.eqb (fst e)) priorityOrder)
                    && existsb (fun d => includes hostname (toLowerCase d))
                               (snd e))
                 CATEGORY_DEFINITIONS
          with
          | Some e => fst e
          | None => "miscellaneous"
          end
      end
  end.
End Classifier.
End Dashboard.

(** The host name matches an entry of the domain list of [key]. *)
Definition categoryHit (hostname key : string) : bool :=
  match map_get key CATEGORY_DEFINITIONS with
  | Some domains => matchesAny hostname domains
  | None => false
  end.
(* ================================================================== *)
(** ** Theorems *)

Section CosineFacts.
Local Open Scope R_scope.

Lemma Reqb_true x y : Reqb x y = true <-> x = y.
Proof. unfold Reqb; destruct (Req_dec_T x y); split; congruence. Qed.

Lemma Reqb_false x y : Reqb x y = false <-> x <> y.
Proof. unfold Reqb; destruct (Req_dec_T x y); split; congruence. Qed.

Lemma Rltb_true x y : Rltb x y = true <-> x < y.
Proof. unfold Rltb; destruct (Rlt_dec x y); split; auto; discriminate. Qed.

Lemma Rltb_false x y : Rltb x y = false <-> y <= x.
Proof.
  unfold Rltb; destruct (Rlt_dec x y); split; auto; try discriminate; lra.
Qed.

Lemma Rleb_true x y : Rleb x y = true <-> x <= y.
Proof. unfold Rleb; destruct (Rle_dec x y); split; auto; discriminate. Qed.

Lemma Rleb_false x y : Rleb x y = false <-> y < x.
Proof.
  unfold Rleb; destruct (Rle_dec x y); split; auto; try discriminate; lra.
Qed.

Lemma cos_loop_R (a b : list R) : forall d na nb,
  length a = length b ->
  fold_left cosStep (combine a b) (d, na, nb)
  = (d + dotR a b, na + sumsq a, nb + sumsq b).
Proof.
  revert b; induction a as [|x a IH]; intros [|y b] d na nb Hlen;
    simpl in *; try discriminate.
  - f_equal; [f_equal|]; lra.
  - rewrite IH by lia. f_equal; [f_equal|]; lra.
Qed.

Lemma sumsq_nonneg v : 0 <= sumsq v.
Proof. induction v as [|x v IH]; simpl; [lra | nra]. Qed.

Lemma sumsq_zero_iff v : sumsq v = 0 <-> Forall (fun x => x = 0) v.
Proof.
  induction v as [|x v IH]; simpl.
  - split; auto.
  - pose proof (sumsq_nonneg v). split.
    + intros E. assert (x * x = 0 /\ sumsq v = 0) as [Hx Hv] by nra.
      constructor; [nra | now apply IH].
    + intros F; inversion F; subst. apply IH in H3. lra.
Qed.

Lemma cauchy_schwarz a : forall b,
  length a = length b -> dotR a b * dotR a b <= sumsq a * sumsq b.
Proof.
  induction a as [|x a IH]; intros [|y b] Hlen; simpl in *;
    try discriminate; try lra.
  assert (Hab := IH b ltac:(lia)).
  pose proof (sumsq_nonneg a) as HA. pose proof (sumsq_nonneg b) as HB.
  set (D := dotR a b) in *. set (A := sumsq a) in *. set (B := sumsq b) in *.
  assert (Hx : 2 * D * (x * y) <= A * (y * y) + B * (x * x)).
  { destruct (Rle_dec (2 * D * (x * y)) 0) as [Hn|Hp]; [nra|].
    assert (Hsq : (2 * D * (x * y)) * (2 * D * (x * y))
                  <= (A * (y * y) + B * (x * x)) * (A * (y * y) + B * (x * x))).
    { pose proof (Rle_0_sqr (A * (y * y) - B * (x * x))) as Hsq0.
      unfold Rsqr in Hsq0.
      assert (D * D * ((x * y) * (x * y)) <= A * B * ((x * y) * (x * y))).
      { apply Rmult_le_compat_r; [nra | exact Hab]. }
      nra. }
    assert (0 <= A * (y * y) + B * (x * x)) by nra.
    nra. }
  nra.
Qed.
End CosineFacts.

Section CosineTheorems.
Local Open Scope R_scope.

Lemma cosineSimilarity_R_eq (a b : list R) :
  length a = length b -> sumsq a <> 0 -> sumsq b <> 0 ->
  cosineSimilarity a b = dotR a b / (sqrt (sumsq a) * sqrt (sumsq b)).
Proof.
  intros Hlen Ha Hb. unfold cosineSimilarity.
  rewrite Hlen, Nat.eqb_refl. cbn [negb ofZ JsR].
  rewrite cos_loop_R by exact Hlen. cbn [jeqb jdiv jmul jsqrt JsR].
  rewrite !Rplus_0_l.
  destruct (Reqb (sumsq a) 0) eqn:Ea; [apply Reqb_true in Ea; contradiction|].
  destruct (Reqb (sumsq b) 0) eqn:Eb; [apply Reqb_true in Eb; contradiction|].
  reflexivity.
Qed.

Lemma cosine_ratio_bounds (a b : list R) :
  length a = length b -> sumsq a <> 0 -> sumsq b <> 0 ->
  -1 <= dotR a b / (sqrt (sumsq a) * sqrt (sumsq b)) <= 1.
Proof.
  intros Hlen Ha Hb.
  pose proof (sumsq_nonneg a) as HA. pose proof (sumsq_nonneg b) as HB.
  pose proof (cauchy_schwarz a b Hlen) as CS.
  assert (0 < sqrt (sumsq a) * sqrt (sumsq b)) as Hpos.
  { apply Rmult_lt_0_compat; apply sqrt_lt_R0; lra. }
  set (s := sqrt (sumsq a) * sqrt (sumsq b)) in *.
  assert (Hs : s * s = sumsq a * sumsq b).
  { unfold s.
    replace (sqrt (sumsq a) * sqrt (sumsq b) * (sqrt (sumsq a) * sqrt (sumsq b)))
      with ((sqrt (sumsq a) * sqrt (sumsq a)) * (sqrt (sumsq b) * sqrt (sumsq b)))
      by ring.
    now rewrite !sqrt_sqrt by assumption. }
  split; apply Rmult_le_reg_r with s; try exact Hpos;
    unfold Rdiv; rewrite Rmult_assoc, Rinv_l by lra; nra.
Qed.

Lemma dotR_self a : dotR a a = sumsq a.
Proof. induction a as [|x a IH]; simpl; [reflexivity | now rewrite IH]. Qed.

(** In binary64 the quotient can round above 1: with [a = [1;1;1]] the
    norms are 3, [Math.sqrt(3) * Math.sqrt(3)] rounds to
    2.9999999999999996 and the result is 1.0000000000000002. *)
Lemma cosineSimilarity_f64_above_one :
  let one : PrimFloat.float := ofZ 1 in
  let a := [one; one; one] in
  length a = length a /\
  jeqb (fold_left (fun s x => jadd s (jmul x x)) a (ofZ 0)) (ofZ 0) = false /\
  jleb (cosineSimilarity a a) (ofZ 1) = false.
Proof. vm_compute. repeat split. Qed.

(** With entries as large as [1e200] the sums of squares overflow and the
    result is NaN; with entries as small as [1e-200] they underflow to 0
    and the similarity of the vector with itself is 0. *)
Lemma cosineSimilarity_f64_overflow_underflow :
  PrimFloat.is_nan (cosineSimilarity [hugeEntry] [hugeEntry]) = true
  /\ jleb (cosineSimilarity [hugeEntry] [hugeEntry]) (ofZ 1) = false
  /\ jeqb tinyEntry (ofZ 0) = false
  /\ cosineSimilarity [tinyEntry] [tinyEntry] = ofZ 0.
Proof. vm_compute. repeat split. Qed.

(** C4.  [cosineSimilarity] is exactly 0 when the lengths differ or when
    one of the vectors has zero norm; for vectors of equal length and
    non-zero norm, computed over the reals, it lies in [[-1, 1]], and the
    similarity of a vector with itself is 1.  For every kind of number,
    doubles included, it is exactly 0 when the lengths differ or when the
    sum of squares that the loop computes for one of the vectors is 0. *)
Theorem cosineSimilarity_bounds (a b : list R) :
  (length a <> length b -> cosineSimilarity a b = 0) /\
  (sumsq a = 0 \/ sumsq b = 0 -> cosineSimilarity a b = 0) /\
  (length a = length b -> sumsq a <> 0 -> sumsq b <> 0 ->
     -1 <= cosineSimilarity a b <= 1) /\
  (sumsq a <> 0 -> cosineSimilarity a a = 1) /\
  (forall (F : Type) (HF : JsNumber F) (x y : list F),
     length x <> length y
     \/ (let '(_, normA, normB) :=
            fold_left cosStep (combine x y) (ofZ 0, ofZ 0, ofZ 0) in
          jeqb normA (ofZ 0) || jeqb normB (ofZ 0)) = true ->
     cosineSimilarity x y = ofZ 0).
Proof.
  split; [|split; [|split; [|split]]].
  - intros Hne. unfold cosineSimilarity.
    apply Nat.eqb_neq in Hne. now rewrite Hne.
  - intros Hz. unfold cosineSimilarity.
    destruct (Nat.eqb (length a) (length b)) eqn:El; [|reflexivity].
    apply Nat.eqb_eq in El. cbn [negb ofZ JsR].
    rewrite cos_loop_R by exact El. cbn [jeqb JsR]. rewrite !Rplus_0_l.
    assert (E0 : Reqb 0 0 = true) by now apply Reqb_true.
    destruct Hz as [Hz|Hz]; rewrite Hz, E0; [reflexivity|].
    now rewrite orb_true_r.
  - intros Hlen Ha Hb. rewrite cosineSimilarity_R_eq by assumption.
    now apply cosine_ratio_bounds.
  - intros Ha. rewrite cosineSimilarity_R_eq by auto.
    rewrite sqrt_sqrt by apply sumsq_nonneg.
    rewrite dotR_self. now apply Rdiv_diag.
  - intros F HF x y Hz. unfold cosineSimilarity.
    destruct (Nat.eqb (length x) (length y)) eqn:El; [|reflexivity].
    cbn [negb]. apply Nat.eqb_eq in El.
    destruct Hz as [Hne|Hz]; [contradiction|].
    destruct (fold_left cosStep (combine x y) (ofZ 0, ofZ 0, ofZ 0))
      as [[d na] nb].
    now rewrite Hz.
Qed.

Lemma cosineSimilarity_bounds_witness :
  -1 <= cosineSimilarity [1; 0] [1; 1] <= 1
  /\ cosineSimilarity [1; 0] [1; 0] = 1
  /\ cosineSimilarity [tinyEntry] [tinyEntry] = ofZ 0.
Proof.
  destruct (cosineSimilarity_bounds [1; 0] [1; 1]) as (_ & _ & Hb & Hs & Hg).
  split; [|split].
  - apply Hb; simpl; [reflexivity | lra | lra].
  - apply Hs; simpl; lra.
  - apply Hg. right. vm_compute. reflexivity.
Defined.
End CosineTheorems.


(* ------------------------------------------------------------------ *)
(** *** Runtime facts: sort, Map, Set *)

Section SortFacts.
Context {A : Type} (gt : A -> A -> bool).

Lemma sort_insert_perm x l : Permutation (sort_insert gt x l) (x :: l).
Proof.
  induction l as [|y l IH]; simpl; [reflexivity|].
  destruct (gt x y); [|reflexivity].
  rewrite IH. apply perm_swap.
Qed.

Lemma js_sort_perm l : Permutation (js_sort gt l) l.
Proof.
  induction l as [|x l IH]; simpl; [reflexivity|].
  rewrite sort_insert_perm. now constructor.
Qed.

Lemma js_sort_In x l : In x (js_sort gt l) <-> In x l.
Proof.
  split; apply Permutation_in; [|symmetry]; apply js_sort_perm.
Qed.

Lemma js_sort_length l : length (js_sort gt l) = length l.
Proof. apply Permutation_length, js_sort_perm. Qed.
End SortFacts.

Lemma slice0_In {A} k (x : A) l : In x (slice0 k l) -> In x l.
Proof. unfold slice0. revert l; induction k; intros [|y l]; simpl; intuition. Qed.

Lemma slice0_all {A} k (l : list A) : length l <= k -> slice0 k l = l.
Proof. apply firstn_all2. Qed.

Section MapFacts.
Context {K V : Type} `{Key K}.
Implicit Types (m : JsMap K V) (k : K) (v : V).

Lemma key_eqb_refl k : key_eqb k k = true.
Proof. now apply key_eqb_eq. Qed.

Lemma key_eqb_neq k k' : key_eqb k k' = false <-> k <> k'.
Proof.
  split.
  - intros E Heq. apply key_eqb_eq in Heq. congruence.
  - intros Hne. destruct (key_eqb k k') eqn:E; [|reflexivity].
    apply key_eqb_eq in E. contradiction.
Qed.

Lemma key_eq_dec k k' : {k = k'} + {k <> k'}.
Proof.
  destruct (key_eqb k k') eqn:E.
  - left. now apply key_eqb_eq.
  - right. now apply key_eqb_neq.
Qed.

Lemma map_get_set_eq k v m : map_get k (map_set k v m) = Some v.
Proof.
  induction m as [|[k' v'] m IH]; simpl.
  - now rewrite key_eqb_refl.
  - destruct (key_eqb k k') eqn:E; simpl; rewrite ?key_eqb_refl, ?E; auto.
Qed.

Lemma map_get_set_neq k k' v m :
  k <> k' -> map_get k (map_set k' v m) = map_get k m.
Proof.
  intros Hne. induction m as [|[k2 v2] m IH]; simpl.
  - apply key_eqb_neq in Hne. now rewrite Hne.
  - destruct (key_eqb k' k2) eqn:E; simpl.
    + apply key_eqb_eq in E; subst k2.
      apply key_eqb_neq in Hne. now rewrite Hne.
    + now rewrite IH.
Qed.

Lemma map_get_delete_eq k m : map_get k (map_delete k m) = None.
Proof.
  induction m as [|[k' v'] m IH]; simpl; [reflexivity|].
  destruct (key_eqb k k') eqn:E; simpl; rewrite ?E; auto.
Qed.

Lemma map_get_delete_neq k k' m :
  k <> k' -> map_get k (map_delete k' m) = map_get k m.
Proof.
  intros Hne. induction m as [|[k2 v2] m IH]; simpl; [reflexivity|].
  destruct (key_eqb k' k2) eqn:E; simpl.
  - apply key_eqb_eq in E; subst k2.
    apply key_eqb_neq in Hne. now rewrite Hne.
  - now rewrite IH.
Qed.

Lemma map_keys_get k m : In k (map_keys m) -> exists v, map_get k m = Some v.
Proof.
  induction m as [|[k' v'] m IH]; simpl; [tauto|].
  intros [->|Hin].
  - rewrite key_eqb_refl. eauto.
  - destruct (key_eqb k k'); eauto.
Qed.

Lemma map_get_In k v m : map_get k m = Some v -> In (k, v) m.
Proof.
  induction m as [|[k' v'] m IH]; simpl; [discriminate|].
  destruct (key_eqb k k') eqn:E.
  - apply key_eqb_eq in E. intros [= ->]. left. now subst.
  - auto.
Qed.

Lemma map_has_true k m : map_has k m = true <-> exists v, map_get k m = Some v.
Proof.
  unfold map_has. destruct (map_get k m); split; eauto; try discriminate.
  intros [v [=]].
Qed.
End MapFacts.

Section SetFacts.
Context {K : Type} `{Key K}.

Lemma set_has_In (x : K) s : set_has x s = true <-> In x s.
Proof.
  unfold set_has. rewrite existsb_exists. split.
  - intros [y [Hin E]]. apply key_eqb_eq in E. now subst.
  - intros Hin. exists x. split; [assumption | apply key_eqb_refl].
Qed.

Lemma set_add_In (x y : K) s : In y (set_add x s) <-> y = x \/ In y s.
Proof.
  unfold set_add. destruct (set_has x s) eqn:E.
  - apply set_has_In in E. split; [auto | intros [->|]; auto].
  - rewrite in_app_iff. simpl. intuition.
Qed.

Lemma set_add_NoDup (x : K) s : NoDup s -> NoDup (set_add x s).
Proof.
  intros Hnd. unfold set_add. destruct (set_has x s) eqn:E; [assumption|].
  apply NoDup_app; [assumption | repeat constructor; simpl; tauto |].
  intros y Hy [<-|[]]. apply set_has_In in Hy. congruence.
Qed.

Lemma fold_set_add_In (y : K) l s :
  In y (fold_left (fun c x => set_add x c) l s) <-> In y l \/ In y s.
Proof.
  revert s; induction l as [|x l IH]; intros s; simpl; [tauto|].
  rewrite IH, set_add_In. intuition.
Qed.
End SetFacts.

Lemma prefix_refl s : String.prefix s s = true.
Proof.
  induction s as [|c s IH]; simpl; [reflexivity|].
  destruct (Ascii.ascii_dec c c); [assumption | congruence].
Qed.

Lemma includes_refl s : includes s s = true.
Proof.
  destruct s as [|c s]; [reflexivity|].
  cbn [includes]. now rewrite prefix_refl.
Qed.

(* ------------------------------------------------------------------ *)
(** *** The ANN index *)

Section ANNFacts.
Context {N : Type} `{JsNumber N}.
Implicit Types (ix : ANNIndex N) (ops : list (IndexOp (N:=N))).

Lemma run_snoc ops op ix : run (ops ++ [op]) ix = applyOp (run ops ix) op.
Proof. unfold run. now rewrite fold_left_app. Qed.

Lemma addedIds_app ops ops' :
  addedIds (ops ++ ops') = addedIds ops ++ addedIds ops'.
Proof.
  induction ops as [|[nodeId v|nodeId|] ops IH]; simpl; now rewrite ?IH.
Qed.

Lemma bucketsTracked_backed seen ix : bucketsTracked seen ix -> bucketsBacked ix.
Proof. intros T h b nodeId Hb Hin. now destruct (T h b nodeId Hb Hin) as (_ & ? & _). Qed.

Lemma bucketsTracked_new random : bucketsTracked [] (ANNIndex_new random).
Proof. intros h b nodeId Hb. discriminate. Qed.

Lemma bucketsTracked_clear seen ix : bucketsTracked seen (clear ix).
Proof. intros h b nodeId Hb. discriminate. Qed.

Lemma bucketsTracked_add seen ix nodeId vector :
  bucketsTracked seen ix -> ~ In nodeId seen ->
  bucketsTracked (seen ++ [nodeId]) (add nodeId vector ix).
Proof.
  intros T Hfresh h b x Hb Hin. unfold add in *. cbn [buckets hashes vectors] in *.
  set (hash := computeHash (projectionMatrix ix) vector) in *.
  set (bs1 := if map_has hash (buckets ix) then buckets ix
              else map_set hash [] (buckets ix)) in *.
  assert (Hold : forall h' b' y, map_get h' bs1 = Some b' -> In y b' ->
                   map_get y (hashes ix) = Some h'
                   /\ (exists v, map_get y (vectors ix) = Some v) /\ In y seen).
  { intros h' b' y Hb' Hy. unfold bs1 in Hb'.
    destruct (map_has hash (buckets ix)); [now apply (T h' b')|].
    destruct (Z.eq_dec h' hash) as [->|Hne].
    - rewrite map_get_set_eq in Hb'. injection Hb' as <-. destruct Hy.
    - rewrite map_get_set_neq in Hb' by assumption. now apply (T h' b'). }
  destruct (Z.eq_dec h hash) as [->|Hne].
  - rewrite map_get_set_eq in Hb. injection Hb as <-.
    apply in_app_iff in Hin. destruct Hin as [Hin|[<-|[]]].
    + unfold bucket_of in Hin. destruct (map_get hash bs1) as [b0|] eqn:E0;
        [|destruct Hin].
      destruct (Hold hash b0 x E0 Hin) as (Hh & [v Hv] & Hs).
      assert (x <> nodeId) by (intros ->; contradiction).
      rewrite !map_get_set_neq by assumption.
      repeat split; eauto. apply in_app_iff; auto.
    + rewrite !map_get_set_eq. repeat split; eauto.
      apply in_app_iff; simpl; auto.
  - rewrite map_get_set_neq in Hb by assumption.
    destruct (Hold h b x Hb Hin) as (Hh & [v Hv] & Hs).
    assert (x <> nodeId) by (intros ->; contradiction).
    rewrite !map_get_set_neq by assumption.
    repeat split; eauto. apply in_app_iff; auto.
Qed.

Lemma bucketsTracked_remove seen ix nodeId :
  bucketsTracked seen ix -> bucketsTracked seen (remove nodeId ix).
Proof.
  intros T h b x Hb Hin. unfold remove in *. cbn [buckets hashes vectors] in *.
  assert (Hcase : exists b0, map_get h (buckets ix) = Some b0 /\ In x b0
                             /\ x <> nodeId).
  { destruct (map_get nodeId (hashes ix)) as [hash|] eqn:Eh.
    - destruct (map_get hash (buckets ix)) as [b1|] eqn:Eb.
      + destruct (Z.eq_dec h hash) as [->|Hne].
        * rewrite map_get_set_eq in Hb. injection Hb as <-.
          apply filter_In in Hin. destruct Hin as [Hin Hx].
          exists b1. repeat split; auto.
          intros ->. now rewrite String.eqb_refl in Hx.
        * rewrite map_get_set_neq in Hb by assumption.
          exists b. repeat split; auto. intros ->.
          destruct (T h b nodeId Hb Hin) as (Hh & _). congruence.
      + exists b. repeat split; auto. intros ->.
        destruct (T h b nodeId Hb Hin) as (Hh & _). congruence.
    - exists b. repeat split; auto. intros ->.
      destruct (T h b nodeId Hb Hin) as (Hh & _). congruence. }
  destruct Hcase as (b0 & Hb0 & Hin0 & Hne).
  destruct (T h b0 x Hb0 Hin0) as (Hh & [v Hv] & Hs).
  rewrite !map_get_delete_neq by assumption. repeat split; eauto.
Qed.

Lemma bucketsTracked_run random ops :
  NoDup (addedIds ops) ->
  bucketsTracked (addedIds ops) (run ops (ANNIndex_new random)).
Proof.
  induction ops as [|op ops IH] using rev_ind; intros Hnd.
  - apply bucketsTracked_new.
  - rewrite run_snoc. rewrite addedIds_app in *.
    destruct op as [nodeId v|nodeId|]; simpl in *; rewrite ?app_nil_r in *.
    + apply NoDup_remove in Hnd. rewrite app_nil_r in Hnd.
      destruct Hnd as [Hnd Hfresh].
      apply bucketsTracked_add; auto.
    + apply bucketsTracked_remove; auto.
    + apply bucketsTracked_clear.
Qed.

(** Where candidates come from. *)
Lemma gather_In bs hs x :
  In x (gather bs hs) ->
  exists h bucket, In h hs /\ map_get h bs = Some bucket /\ In x bucket.
Proof.
  unfold gather.
  assert (G : forall c,
    In x (fold_left
            (fun candidates h =>
               match map_get h bs with
               | Some bucket => fold_left (fun c id => set_add id c) bucket candidates
               | None => candidates
               end) hs c) ->
    In x c \/ exists h bucket, In h hs /\ map_get h bs = Some bucket /\ In x bucket).
  { induction hs as [|h hs IH]; intros c; simpl; [auto|].
    intros Hin. apply IH in Hin. destruct Hin as [Hin|(h' & b & ? & ? & ?)].
    - destruct (map_get h bs) as [b|] eqn:E; [|auto].
      apply fold_set_add_In in Hin. destruct Hin; [right|left]; eauto 6.
    - right. eauto 6. }
  intros Hin. apply G in Hin. destruct Hin as [[]|?]. assumption.
Qed.

Lemma fallback_In keys c x : In x (fallback keys c) -> In x keys \/ In x c.
Proof.
  revert c; induction keys as [|k keys IH]; intros c; simpl; [auto|].
  destruct (100 <? length (set_add k c))%nat.
  - rewrite set_add_In. intuition.
  - intros Hin. apply IH in Hin. rewrite set_add_In in Hin. intuition.
Qed.

Lemma candidatesFor_In q k ix x :
  In x (candidatesFor q k ix) ->
  In x (map_keys (vectors ix))
  \/ exists h bucket, map_get h (buckets ix) = Some bucket /\ In x bucket.
Proof.
  unfold candidatesFor.
  destruct (length _ <? k)%nat; intros Hin.
  - apply fallback_In in Hin. destruct Hin as [|Hin]; [auto|].
    apply gather_In in Hin. destruct Hin as (h & b & _ & ? & ?). eauto.
  - apply gather_In in Hin. destruct Hin as (h & b & _ & ? & ?). eauto.
Qed.

Lemma candidatesFor_backed q k ix x :
  bucketsBacked ix -> In x (candidatesFor q k ix) ->
  exists v, map_get x (vectors ix) = Some v.
Proof.
  intros B Hin. apply candidatesFor_In in Hin.
  destruct Hin as [Hin|(h & b & Hb & Hx)].
  - now apply map_keys_get.
  - eapply B; eauto.
Qed.

(** The scoring loop: it throws exactly when a candidate has no vector,
    and what it returns are candidates that have one. *)
Lemma scoreCandidates_ok vs q th cands :
  (forall x, In x cands -> exists v, map_get x vs = Some v) ->
  exists r, scoreCandidates vs q th cands = Ok r.
Proof.
  induction cands as [|c cands IH]; intros Hall; simpl; [eauto|].
  destruct (Hall c (or_introl eq_refl)) as [v ->].
  destruct IH as [r ->]; [intros; apply Hall; now right|].
  simpl. eauto.
Qed.

Lemma scoreCandidates_missing vs q th cands x :
  In x cands -> map_get x vs = None ->
  scoreCandidates vs q th cands = Err TypeError.
Proof.
  induction cands as [|c cands IH]; simpl; [tauto|].
  intros [->|Hin] Hx.
  - now rewrite Hx.
  - destruct (map_get c vs); [|reflexivity]. now rewrite IH.
Qed.

Lemma scoreCandidates_In vs q th cands r x s :
  scoreCandidates vs q th cands = Ok r -> In (x, s) r ->
  In x cands /\ exists v, map_get x vs = Some v.
Proof.
  revert r; induction cands as [|c cands IH]; intros r; simpl.
  - intros [= <-] [].
  - destruct (map_get c vs) as [v|] eqn:Ev; [|discriminate].
    destruct (scoreCandidates vs q th cands) as [r'|] eqn:Er; [|discriminate].
    simpl. intros [= <-] Hin.
    destruct (jleb th (cosineSimilarity q v)).
    + destruct Hin as [[= <- <-]|Hin]; [eauto|].
      destruct (IH r' eq_refl Hin); auto.
    + destruct (IH r' eq_refl Hin); auto.
Qed.

Lemma search_In q k th ix r x s :
  search q k th ix = Ok r -> In (x, s) r ->
  exists v, map_get x (vectors ix) = Some v.
Proof.
  unfold search. destruct (scoreCandidates _ _ _ _) as [r'|] eqn:E;
    [|discriminate].
  simpl. intros [= <-] Hin. apply slice0_In, js_sort_In in Hin.
  eapply scoreCandidates_In in E; [|exact Hin]. tauto.
Qed.

Lemma search_backed q k th ix :
  bucketsBacked ix -> exists r, search q k th ix = Ok r.
Proof.
  intros B. unfold search.
  destruct (scoreCandidates_ok (vectors ix) q th (candidatesFor q k ix))
    as [r ->]; [intros x; now apply candidatesFor_backed|].
  simpl. eauto.
Qed.

(** An id that is not added again stays without vector. *)
Lemma run_keeps_absent ops ix x :
  ~ In x (addedIds ops) -> map_get x (vectors ix) = None ->
  map_get x (vectors (run ops ix)) = None.
Proof.
  revert ix; induction ops as [|op ops IH]; intros ix Hx Hv; simpl; [assumption|].
  apply IH.
  - destruct op; simpl in *; tauto.
  - destruct op as [nodeId v|nodeId|]; simpl in *.
    + rewrite map_get_set_neq; [assumption | intros ->; tauto].
    + destruct (string_dec x nodeId) as [->|Hne].
      * apply map_get_delete_eq.
      * now rewrite map_get_delete_neq.
    + reflexivity.
Qed.
End ANNFacts.

Section ANNClaims.
Context {N : Type} `{JsNumber N}.
Implicit Types (ix : ANNIndex N) (ops : list (IndexOp (N:=N))).

Lemma gather_has bs hs h bucket x :
  In h hs -> map_get h bs = Some bucket -> In x bucket -> In x (gather bs hs).
Proof.
  unfold gather. intros Hh Hb Hx.
  assert (G : forall c,
    In x c \/ In h hs ->
    In x (fold_left
            (fun candidates h' =>
               match map_get h' bs with
               | Some b => fold_left (fun c id => set_add id c) b candidates
               | None => candidates
               end) hs c)).
  { clear Hh. induction hs as [|h' hs IH]; intros c; simpl.
    - intros [|[]]; assumption.
    - intros [Hc|[->|Hin]]; apply IH.
      + left. destruct (map_get h' bs); [|assumption].
        apply fold_set_add_In; auto.
      + left. rewrite Hb. apply fold_set_add_In; auto.
      + now right. }
  apply G; now right.
Qed.

Lemma fallback_keeps keys c x : In x c -> In x (fallback keys c).
Proof.
  revert c; induction keys as [|k keys IH]; intros c Hin; simpl; [assumption|].
  assert (In x (set_add k c)) by (apply set_add_In; auto).
  destruct (100 <? length (set_add k c))%nat; auto.
Qed.

Lemma search_stale q k th ix bucket x :
  map_get (computeHash (projectionMatrix ix) q) (buckets ix) = Some bucket ->
  In x bucket -> map_get x (vectors ix) = None ->
  search q k th ix = Err TypeError.
Proof.
  intros Hb Hx Hv. unfold search.
  rewrite (@scoreCandidates_missing _ _ (vectors ix) q th (candidatesFor q k ix) x);
    [reflexivity | | assumption].
  unfold candidatesFor.
  assert (In x (gather (buckets ix)
                  (searchHashes (computeHash (projectionMatrix ix) q)))).
  { eapply gather_has; eauto. now left. }
  destruct (_ <? k)%nat; [now apply fallback_keeps | assumption].
Qed.

(** The index after [add id v1; add id v2; remove id] when the two vectors
    hash differently. *)
Lemma readd_then_remove random nodeId v1 v2 :
  let M := projectionMatrix (ANNIndex_new random) in
  computeHash M v1 <> computeHash M v2 ->
  let ix := run [OpAdd nodeId v1; OpAdd nodeId v2; OpRemove nodeId]
                (ANNIndex_new random) in
  projectionMatrix ix = M
  /\ map_get (computeHash M v1) (buckets ix) = Some [nodeId]
  /\ vectors ix = [].
Proof.
  intros M Hne ix. subst ix. unfold run. simpl fold_left.
  unfold applyOp, remove, add.
  cbn [vectors hashes buckets projectionMatrix]. fold M.
  set (h1 := computeHash M v1) in *. set (h2 := computeHash M v2) in *.
  replace (vectors (ANNIndex_new random)) with (@nil (string * list N)) by reflexivity.
  replace (hashes (ANNIndex_new random)) with (@nil (string * Z)) by reflexivity.
  replace (buckets (ANNIndex_new random)) with (@nil (Z * list string)) by reflexivity.
  assert (E21 : Z.eqb h2 h1 = false) by (apply Z.eqb_neq; congruence).
  assert (E12 : Z.eqb h1 h2 = false) by (apply Z.eqb_neq; congruence).
  clearbody h1 h2. clearbody M.
  unfold map_has, bucket_of, map_delete.
  repeat (simpl; rewrite ?E21, ?E12, ?Z.eqb_refl, ?String.eqb_refl).
  repeat split; reflexivity.
Qed.

(** Adding an id again is harmless as long as its hash stays the same. *)
Lemma bucketsRecorded_add ix nodeId vector :
  bucketsRecorded ix ->
  match map_get nodeId (hashes ix) with
  | Some h => h = computeHash (projectionMatrix ix) vector
  | None => True
  end ->
  bucketsRecorded (add nodeId vector ix).
Proof.
  intros J Hst h b x Hb Hin. unfold add in *. cbn [buckets hashes vectors] in *.
  set (hash := computeHash (projectionMatrix ix) vector) in *.
  set (bs1 := if map_has hash (buckets ix) then buckets ix
              else map_set hash [] (buckets ix)) in *.
  assert (Hold : forall h' b' y, map_get h' bs1 = Some b' -> In y b' ->
                   map_get y (hashes ix) = Some h'
                   /\ exists v, map_get y (vectors ix) = Some v).
  { intros h' b' y Hb' Hy. unfold bs1 in Hb'.
    destruct (map_has hash (buckets ix)); [now apply (J h' b')|].
    destruct (Z.eq_dec h' hash) as [->|Hne].
    - rewrite map_get_set_eq in Hb'. injection Hb' as <-. destruct Hy.
    - rewrite map_get_set_neq in Hb' by assumption. now apply (J h' b'). }
  assert (Hx : x = nodeId /\ h = hash
               \/ x <> nodeId /\ map_get x (hashes ix) = Some h
                  /\ exists v, map_get x (vectors ix) = Some v).
  { assert (Hsrc : (h = hash /\ x = nodeId)
                   \/ exists b0, map_get h bs1 = Some b0 /\ In x b0).
    { destruct (Z.eq_dec h hash) as [->|Hne].
      - rewrite map_get_set_eq in Hb. injection Hb as <-.
        apply in_app_iff in Hin. destruct Hin as [Hin|[<-|[]]]; [|auto].
        right. unfold bucket_of in Hin.
        destruct (map_get hash bs1) as [b0|]; [eauto | destruct Hin].
      - rewrite map_get_set_neq in Hb by assumption. eauto. }
    destruct Hsrc as [[-> ->]|(b0 & Hb0 & Hin0)]; [auto|].
    destruct (Hold h b0 x Hb0 Hin0) as (Hh & Hv).
    destruct (string_dec x nodeId) as [->|Hne]; [|auto].
    left. split; [reflexivity|]. rewrite Hh in Hst. exact Hst. }
  destruct Hx as [[-> ->]|(Hne & Hh & [v Hv])].
  - rewrite !map_get_set_eq. eauto.
  - rewrite !map_get_set_neq by assumption. eauto.
Qed.

Lemma bucketsRecorded_remove ix nodeId :
  bucketsRecorded ix -> bucketsRecorded (remove nodeId ix).
Proof.
  intros J h b x Hb Hin. unfold remove in *. cbn [buckets hashes vectors] in *.
  assert (Hcase : exists b0, map_get h (buckets ix) = Some b0 /\ In x b0
                             /\ x <> nodeId).
  { destruct (map_get nodeId (hashes ix)) as [hash|] eqn:Eh.
    - destruct (map_get hash (buckets ix)) as [b1|] eqn:Eb.
      + destruct (Z.eq_dec h hash) as [->|Hne].
        * rewrite map_get_set_eq in Hb. injection Hb as <-.
          apply filter_In in Hin. destruct Hin as [Hin Hx].
          exists b1. repeat split; auto.
          intros ->. now rewrite String.eqb_refl in Hx.
        * rewrite map_get_set_neq in Hb by assumption.
          exists b. repeat split; auto. intros ->.
          destruct (J h b nodeId Hb Hin) as (Hh & _). congruence.
      + exists b. repeat split; auto. intros ->.
        destruct (J h b nodeId Hb Hin) as (Hh & _). congruence.
    - exists b. repeat split; auto. intros ->.
      destruct (J h b nodeId Hb Hin) as (Hh & _). congruence. }
  destruct Hcase as (b0 & Hb0 & Hin0 & Hne).
  destruct (J h b0 x Hb0 Hin0) as (Hh & [v Hv]).
  rewrite !map_get_delete_neq by assumption. eauto.
Qed.

Lemma bucketsRecorded_run ops : forall ix,
  bucketsRecorded ix -> hashStable ix ops -> bucketsBacked (run ops ix).
Proof.
  induction ops as [|op ops IH]; intros ix J Hst; simpl.
  - intros h b x Hb Hin. now destruct (J h b x Hb Hin).
  - destruct Hst as [Hop Hst]. apply IH; [|exact Hst].
    destruct op as [nodeId v|nodeId|]; simpl.
    + now apply bucketsRecorded_add.
    + now apply bucketsRecorded_remove.
    + intros h b x Hb. discriminate.
Qed.

(** C10.  Starting from a new index, after any sequence of [add],
    [remove] and [clear] in which no id is added twice, every id of a bucket
    has a vector, and [search] never reads a missing vector (it returns).
    Adding an id a second time with a vector of another hash and removing
    it leaves the id in its first bucket without a vector, and a search
    that reaches that bucket throws. *)
Theorem buckets_backed_without_readd (random : nat -> nat -> N) :
  (forall ops, NoDup (addedIds ops) ->
     let ix := run ops (ANNIndex_new random) in
     bucketsBacked ix /\ forall q k th, exists r, search q k th ix = Ok r)
  /\
  (forall nodeId v1 v2 k th,
     let M := projectionMatrix (ANNIndex_new random) in
     computeHash M v1 <> computeHash M v2 ->
     let ix := run [OpAdd nodeId v1; OpAdd nodeId v2; OpRemove nodeId]
                   (ANNIndex_new random) in
     ~ bucketsBacked ix /\ search v1 k th ix = Err TypeError).
Proof.
  split.
  - intros ops Hnd ix.
    assert (B : bucketsBacked ix).
    { eapply bucketsTracked_backed. now apply bucketsTracked_run. }
    split; [exact B|]. intros q k th. now apply search_backed.
  - intros nodeId v1 v2 k th M Hne ix.
    destruct (readd_then_remove random nodeId v1 v2 Hne) as (HM & Hb & Hv).
    fold ix in HM, Hb, Hv. split.
    + intros B. destruct (B _ _ nodeId Hb (or_introl eq_refl)) as [v Hget].
      rewrite Hv in Hget. discriminate.
    + eapply search_stale with (x := nodeId).
      * rewrite HM. exact Hb.
      * now left.
      * now rewrite Hv.
Qed.
End ANNClaims.

Lemma buckets_backed_without_readd_witness :
  (exists r,
     search (axisVector 1) 10 (ofZ 0)
       (run [OpAdd (nid 0) (axisVector 1); OpRemove (nid 0);
             OpAdd (nid 1) (axisVector 1)] fixIndex) = Ok r)
  /\ search (axisVector 1) 10 (ofZ 0)
       (run [OpAdd (nid 0) (axisVector 1); OpAdd (nid 0) (axisVector (-1));
             OpRemove (nid 0)] fixIndex) = Err TypeError.
Proof.
  destruct (buckets_backed_without_readd fixRandom) as [Hsafe Hstale]. split.
  - apply (Hsafe [OpAdd (nid 0) (axisVector 1); OpRemove (nid 0);
                  OpAdd (nid 1) (axisVector 1)]).
    simpl. repeat constructor; simpl; intuition discriminate.
  - apply (Hstale (nid 0) (axisVector 1) (axisVector (-1)) 10 (ofZ 0)).
    vm_compute. discriminate.
Defined.

Section SearchShape.
Context {N : Type} `{JsNumber N}.
Implicit Types (ix : ANNIndex N).

(** The candidates taken from the buckets are the ids of the bucket of the
    query hash and of the sixteen hashes one bit away. *)
Lemma gather_iff bs hs x :
  In x (gather bs hs) <->
  exists h bucket, In h hs /\ map_get h bs = Some bucket /\ In x bucket.
Proof.
  split; [apply gather_In|].
  intros (h & b & ? & ? & ?). eapply gather_has; eauto.
Qed.

Lemma set_add_length (x : string) s :
  length (set_add x s) <= S (length s).
Proof.
  unfold set_add. destruct (set_has x s); [lia|].
  rewrite length_app. simpl. lia.
Qed.

(** The fallback stops as soon as the set has more than 100 ids: starting
    from at most 100 it ends with at most 101. *)
Lemma fallback_length keys c :
  length c <= 100 -> length (fallback keys c) <= 101.
Proof.
  revert c; induction keys as [|k keys IH]; intros c Hc; simpl; [lia|].
  pose proof (set_add_length k c).
  destruct (100 <? length (set_add k c))%nat eqn:E.
  - lia.
  - apply IH. apply Nat.ltb_ge in E. lia.
Qed.

(** On an index whose buckets are backed, the scoring loop keeps the
    candidates whose similarity reaches the threshold, in candidate order. *)
Lemma scoreCandidates_filter vs q th cands :
  (forall x, In x cands -> exists v, map_get x vs = Some v) ->
  scoreCandidates vs q th cands
  = Ok (filter (fun p => jleb th (snd p))
          (map (fun x =>
                  (x, cosineSimilarity q
                        match map_get x vs with Some v => v | None => [] end))
               cands)).
Proof.
  induction cands as [|c cands IH]; intros Hall; simpl; [reflexivity|].
  destruct (Hall c (or_introl eq_refl)) as [v ->].
  rewrite IH by (intros; apply Hall; now right). simpl.
  now destruct (jleb th (cosineSimilarity q v)).
Qed.

Lemma search_shape q k th ix :
  bucketsBacked ix ->
  search q k th ix
  = Ok (slice0 k
          (js_sort bySimilarityDesc
             (filter (fun p => jleb th (snd p))
                (map (fun x =>
                        (x, cosineSimilarity q
                              match map_get x (vectors ix) with
                              | Some v => v
                              | None => []
                              end))
                     (candidatesFor q k ix))))).
Proof.
  intros B. unfold search.
  rewrite scoreCandidates_filter; [reflexivity|].
  intros x. now apply candidatesFor_backed.
Qed.
End SearchShape.

(** C1 (the fallback bound).  101 pages with embedding (1, 0, ..., 0) are
    indexed and the query is (-1, 0, ..., 0) with k = 200 and threshold -1.
    The seventeen buckets of the query are empty, the fallback loop runs
    and stops only once the candidate set has 101 ids, and [search]
    returns 101 results. *)
Theorem search_fallback_reaches_101 :
  let ix := run (addMany 101) fixIndex in
  let q := axisVector (-1) in
  gather (buckets ix) (searchHashes (computeHash (projectionMatrix ix) q)) = []
  /\ length (candidatesFor q 200 ix) = 101
  /\ exists r, search q 200 (ofZ (-1)) ix = Ok r /\ length r = 101.
Proof.
  vm_compute. repeat split. eexists. split; reflexivity.
Qed.

(* ------------------------------------------------------------------ *)
(** *** The persistent store *)

Section StorageClaims.
Context {N : Type} `{JsNumber N}.
Implicit Types (st : CortexStorage N).

Lemma remove_evicts nodeId (ix : ANNIndex N) :
  map_get nodeId (vectors (remove nodeId ix)) = None
  /\ map_get nodeId (hashes (remove nodeId ix)) = None.
Proof. unfold remove; cbn [vectors hashes]. split; apply map_get_delete_eq. Qed.

Lemma vectorSearch_In q limit th io st res m :
  vectorSearch q limit th io st = Ok res -> In m res ->
  exists v, map_get (nodeId m) (vectors (annIndex st)) = Some v.
Proof.
  unfold vectorSearch. destruct (ready st); [|discriminate]. simpl.
  destruct (search q (limit * 2) th (annIndex st)) as [cm|] eqn:Es;
    [|discriminate].
  simpl. destruct (mapM _ cm) as [nodes|]; [|discriminate]. simpl.
  intros [= <-] Hin. apply slice0_In, js_sort_In in Hin.
  apply in_flat_map in Hin. destruct Hin as ([[x s] on] & Hc & Hm).
  apply in_combine_l in Hc. simpl in Hm.
  destruct on as [nd|]; [|destruct Hm]. destruct Hm as [<-|[]]. simpl.
  eapply search_In; eauto.
Qed.

(** What a delete does to the two collections, and to the index when no
    hydration is in flight: on success the page and the embedding of [nid]
    are gone; without a hydration in flight the index has no vector and no
    hash for [nid] and no search returns [nid] afterwards.  When the
    transaction fails, both collections are as they were. *)
Lemma deleteMemoryNode_records nid io hydrating st st' r :
  deleteMemoryNode nid io hydrating st = (st', r) ->
  (r = Ok tt ->
     map_get nid (pages st') = None
     /\ map_get nid (embeddings st') = None
     /\ (hydrating = false ->
         map_get nid (vectors (annIndex st')) = None
         /\ map_get nid (hashes (annIndex st')) = None
         /\ (forall ops q k th res,
               ~ In nid (addedIds ops) ->
               search q k th (run ops (annIndex st')) = Ok res ->
               ~ In nid (map fst res))
         /\ (forall q limit th iop res,
               vectorSearch q limit th iop st' = Ok res ->
               ~ In nid (map (@nodeId N) res))))
  /\ (forall e, r = Err e ->
        pages st' = pages st /\ embeddings st' = embeddings st).
Proof.
  unfold deleteMemoryNode. destruct (ready st) as [[]|e0] eqn:Er.
  - destruct io; intros [= <- <-]; cbn [pages embeddings annIndex].
    + split; [|discriminate]. intros _.
      split; [apply map_get_delete_eq|]. split; [apply map_get_delete_eq|].
      intros ->.
      destruct (remove_evicts nid (annIndex st)) as [Hv Hh].
      repeat split; try assumption.
      * intros ops q k th res Hfresh Hs Hin.
        apply in_map_iff in Hin. destruct Hin as ([x s] & Hx & Hin).
        simpl in Hx; subst x.
        eapply search_In in Hs; [|exact Hin]. destruct Hs as [v Hget].
        rewrite run_keeps_absent in Hget by assumption. discriminate.
      * intros q limit th iop res Hs Hin.
        apply in_map_iff in Hin. destruct Hin as (m & Hx & Hin).
        eapply vectorSearch_In in Hs; [|exact Hin]. destruct Hs as [v Hget].
        cbn [annIndex] in Hget. rewrite Hx, Hv in Hget. discriminate.
    + split; [discriminate|]. intros e _. split; reflexivity.
  - intros [= <- <-]. split; [discriminate|]. intros e _. split; reflexivity.
Qed.

(** C7.  After a successful [storeEmbedding nid e], [getEmbedding nid]
    returns [e]: the same vector, model tag and timestamp. *)
Theorem storeEmbedding_getEmbedding nid (e : Embedding N) io st st' :
  storeEmbedding nid e io st = (st', Ok tt) ->
  getEmbedding nid true st' = Ok (Some e).
Proof.
  unfold storeEmbedding, getEmbedding.
  destruct (ready st) as [[]|e0] eqn:Er; [|discriminate].
  destruct io; [|discriminate]. intros [= <-].
  unfold ready in *. cbn [opened embeddings]. destruct (opened st); [|discriminate].
  simpl. rewrite map_get_set_eq. cbn. now destruct e.
Qed.
End StorageClaims.

(** C3.  Two stores on which a successful [deleteMemoryNode "a"] leaves
    ["a"] in the index.  On the store where ["a"] was captured twice with
    embeddings of different hash, the records are gone but ["a"] still
    sits in its first bucket, without a vector: a search that reaches that
    bucket throws, and so does [vectorSearch].  On the store of a restart,
    with the hydration of the index still in flight, the records are gone
    but the index ends up holding the vector of ["a"], and its search
    returns ["a"]. *)
Theorem deleteMemoryNode_leaves_index_entry :
  (let out := deleteMemoryNode "a" true false recapturedStore in
   snd out = Ok tt
   /\ map_get "a"%string (pages (fst out)) = None
   /\ map_get "a"%string (embeddings (fst out)) = None
   /\ bucket_of 65535 (buckets (annIndex (fst out))) = ["a"%string]
   /\ map_get "a"%string (vectors (annIndex (fst out))) = None
   /\ search (axisVector 1) 5 (ofZ 0) (annIndex (fst out)) = Err TypeError
   /\ vectorSearch (axisVector 1) 5 (ofZ 0) (fun _ => true) (fst out)
      = Err TypeError)
  /\ (let out := deleteMemoryNode "a" true true coldStore in
      snd out = Ok tt
      /\ map_get "a"%string (pages (fst out)) = None
      /\ map_get "a"%string (embeddings (fst out)) = None
      /\ map_get "a"%string (vectors (annIndex (fst out)))
         = Some (axisVector 1)
      /\ search (axisVector 1) 5 (ofZ 0) (annIndex (fst out))
         = Ok [("a"%string, ofZ 1)]).
Proof. vm_compute. repeat split. Qed.

Lemma storeEmbedding_getEmbedding_witness :
  getEmbedding "a"%string true storeWithA = Ok (Some sampleEmbedding).
Proof.
  apply (@storeEmbedding_getEmbedding _ _ "a"%string sampleEmbedding true
           (fst (addMemoryNode
                   (page "a" "https://a.example/" "A" 1 "a.example")
                   true emptyStore))).
  vm_compute. reflexivity.
Defined.

(* ------------------------------------------------------------------ *)
(** *** Listing pages by timestamp *)

Section SortedFacts.
Context {A : Type} (gt : A -> A -> bool).
Hypothesis gt_asym : forall x y, gt x y = true -> gt y x = false.

Lemma sort_insert_sorted x l :
  Sorted (fun a b => gt a b = false) l ->
  Sorted (fun a b => gt a b = false) (sort_insert gt x l).
Proof.
  induction l as [|y l IH]; intros Hs; simpl.
  - repeat constructor.
  - destruct (gt x y) eqn:E.
    + inversion Hs as [|? ? Hs' Hhd]; subst. constructor; [auto|].
      destruct l as [|z l]; simpl.
      * constructor. now apply gt_asym.
      * destruct (gt x z); constructor.
        -- now inversion Hhd.
        -- now apply gt_asym.
    + constructor; [assumption | now constructor].
Qed.

Lemma js_sort_sorted l : Sorted (fun a b => gt a b = false) (js_sort gt l).
Proof.
  induction l as [|x l IH]; simpl; [constructor|].
  now apply sort_insert_sorted.
Qed.
End SortedFacts.

Section OrderFacts.
Context {A : Type}.

Lemma Sorted_weaken (R R' : A -> A -> Prop) l :
  (forall a b, R a b -> R' a b) -> Sorted R l -> Sorted R' l.
Proof.
  intros HR. induction 1 as [|x l Hs IH Hhd]; constructor; [assumption|].
  destruct Hhd; constructor; auto.
Qed.

Lemma StronglySorted_snoc (R : A -> A -> Prop) l x :
  StronglySorted R l -> Forall (fun y => R y x) l ->
  StronglySorted R (l ++ [x]).
Proof.
  induction 1 as [|y l Hs IH Hall]; intros Hx; simpl.
  - repeat constructor.
  - inversion Hx; subst. constructor; [auto|].
    apply Forall_app. split; [assumption | now repeat constructor].
Qed.

Lemma StronglySorted_rev (R : A -> A -> Prop) l :
  StronglySorted R l -> StronglySorted (fun a b => R b a) (rev l).
Proof.
  induction 1 as [|x l Hs IH Hall]; simpl; [constructor|].
  apply StronglySorted_snoc; [assumption|].
  apply Forall_forall. intros y Hy. apply in_rev in Hy.
  rewrite Forall_forall in Hall. auto.
Qed.

Lemma StronglySorted_firstn (R : A -> A -> Prop) k l :
  StronglySorted R l -> StronglySorted R (firstn k l).
Proof.
  intros Hs. revert k. induction Hs as [|x l Hs IH Hall]; intros [|k]; simpl;
    try constructor; auto.
  rewrite Forall_forall in *. intros y Hy. apply Hall.
  revert Hy. apply (slice0_In k).
Qed.
End OrderFacts.

Section ListingFacts.
Context {N : Type} `{JsNumber N}.

Lemma indexAfter_asym (a b : MemoryNode N) :
  indexAfter a b = true -> indexAfter b a = false.
Proof.
  unfold indexAfter. intros Hab.
  apply orb_true_iff in Hab. apply orb_false_iff.
  destruct Hab as [Hlt|Heq].
  - apply Z.ltb_lt in Hlt. split.
    + apply Z.ltb_ge. lia.
    + apply andb_false_iff. left. apply Z.eqb_neq. lia.
  - apply andb_true_iff in Heq. destruct Heq as [Heq Hid].
    apply Z.eqb_eq in Heq. split.
    + apply Z.ltb_ge. lia.
    + apply andb_false_iff. right. unfold String.ltb in *.
      rewrite String.compare_antisym.
      destruct (String.compare (id b) (id a)); simpl; congruence.
Qed.

Lemma timestampIndex_ascending (ps : JsMap string (MemoryNode N)) :
  StronglySorted (fun a b => (timestamp a <= timestamp b)%Z)
                 (timestampIndex ps).
Proof.
  apply Sorted_StronglySorted.
  - intros a b c. lia.
  - eapply Sorted_weaken; [|apply js_sort_sorted, indexAfter_asym].
    intros a b Hab. unfold indexAfter in Hab.
    apply orb_false_iff in Hab. destruct Hab as [Hlt _].
    apply Z.ltb_ge in Hlt. lia.
Qed.

(** With a limit of at least 1 the answer is newest first and has at most
    [limit] nodes. *)
Lemma getAllMemoryNodes_limited_descending n io (st : CortexStorage N) res :
  getAllMemoryNodes (Some (S n)) io st = Ok res ->
  length res <= S n
  /\ StronglySorted (fun a b => (timestamp b <= timestamp a)%Z) res.
Proof.
  unfold getAllMemoryNodes. destruct (ready st); [|discriminate]. cbn [bind].
  destruct io; [|discriminate]. intros [= <-]. split.
  - apply (firstn_le_length (S n) (rev (timestampIndex (pages st)))).
  - apply (@StronglySorted_firstn _ _ (S n) (rev (timestampIndex (pages st)))).
    apply StronglySorted_rev, timestampIndex_ascending.
Qed.

(** Without a limit (or with the limit 0) the answer is oldest first. *)
Lemma getAllMemoryNodes_unlimited_order io (st : CortexStorage N) res :
  getAllMemoryNodes None io st = Ok res ->
  StronglySorted (fun a b => (timestamp a <= timestamp b)%Z) res.
Proof.
  unfold getAllMemoryNodes. destruct (ready st); [|discriminate]. simpl.
  destruct io; [|discriminate]. intros [= <-].
  apply timestampIndex_ascending.
Qed.
End ListingFacts.

(** C6 (the form without limit).  With two pages stored,
    [getAllMemoryNodes()] answers oldest first, [getAllMemoryNodes(0)] does
    the same, and [getAllMemoryNodes(2)] answers newest first. *)
Theorem getAllMemoryNodes_unlimited_ascending :
  getAllMemoryNodes None true twoPages = Ok [pageOld; pageNew]
  /\ getAllMemoryNodes (Some 0) true twoPages = Ok [pageOld; pageNew]
  /\ getAllMemoryNodes (Some 2) true twoPages = Ok [pageNew; pageOld]
  /\ (timestamp pageOld < timestamp pageNew)%Z.
Proof. vm_compute. repeat split. Qed.

(* ------------------------------------------------------------------ *)
(** *** The recall engine *)

Section RecallClaims.
Context {N : Type} `{JsNumber N}.
Variable generateEmbedding :
  string -> string -> list string -> result (Embedding N).
Variable now : Z.

(** C5.  [RecallService.search] always returns; when the embedding
    generation, the vector search or the keyword scan fails, what it
    returns has no matches and [totalResults = 0]. *)
Theorem search_absorbs_failures query limit th io_page io_scan
                                (st : CortexStorage N) :
  (exists r,
     RecallService_search generateEmbedding now query limit th
       io_page io_scan st = Ok r)
  /\
  ((exists e, generateEmbedding query query [] = Err e)
   \/ (exists emb e,
         generateEmbedding query query [] = Ok emb
         /\ vectorSearch (vector emb) (limit * 2) th io_page st = Err e)
   \/ (exists e, searchMemoryNodes query limit io_scan st = Err e) ->
   exists r,
     RecallService_search generateEmbedding now query limit th
       io_page io_scan st = Ok r
     /\ matches r = [] /\ totalResults r = 0).
Proof.
  unfold RecallService_search. split.
  - destruct (searchBody _ _ _ _ _ _ _ _); eauto.
  - intros Hfail.
    assert (E : exists e,
      searchBody generateEmbedding now query limit th io_page io_scan st = Err e).
    { unfold searchBody.
      destruct Hfail as [[e He]|[(emb & e & Hemb & Hv)|[e Hk]]].
      - rewrite He. simpl. eauto.
      - rewrite Hemb. simpl. rewrite Hv. simpl. eauto.
      - destruct (generateEmbedding query query []) as [emb|e1]; simpl; [|eauto].
        destruct (vectorSearch _ _ _ _ _) as [ms|e2]; simpl; [|eauto].
        rewrite Hk. simpl. eauto. }
    destruct E as [e ->]. eexists. repeat split.
Qed.
End RecallClaims.

Lemma search_absorbs_failures_witness :
  exists r,
    RecallService_search fixEmbedding 0 "a" 10 (dec 3 10)
      (fun _ => true) true staleStore = Ok r
    /\ matches r = [] /\ totalResults r = 0.
Proof.
  apply (@search_absorbs_failures _ _ fixEmbedding 0%Z "a"%string 10
           (dec 3 10) (fun _ => true) true staleStore).
  right. left. exists sampleEmbedding, TypeError. split.
  - reflexivity.
  - vm_compute. reflexivity.
Defined.

(* ------------------------------------------------------------------ *)
(** *** The hybrid score *)

(** Case analysis on every test of a cascade. *)
Ltac bonus_cases :=
  repeat match goal with
         | |- context [if ?b then _ else _] => destruct b
         end.

Section HybridFacts.
Local Open Scope R_scope.

Lemma Rmin_clamp_twice x d : 0 <= d -> Rmin 1 (Rmin 1 x + d) = Rmin 1 (x + d).
Proof.
  intros Hd. unfold Rmin.
  destruct (Rle_dec 1 x); destruct (Rle_dec 1 (x + d));
    destruct (Rle_dec 1 (1 + d)); try lra.
Qed.

Lemma Rmin_id s : s <= 1 -> Rmin 1 s = s.
Proof. intros. unfold Rmin. destruct (Rle_dec 1 s); lra. Qed.

(** The score the code computes, on the reals. *)
Lemma calculateHybridScore_R (s : R) (nd : MemoryNode R) (query : string) :
  calculateHybridScore s nd query
  = if anyBonus nd query then claimedHybridScore s nd query else s.
Proof.
  unfold calculateHybridScore, claimedHybridScore, anyBonus, titleBonus,
    domainBonus, dec.
  cbn [jmin jadd jdiv ofZ JsR].
  set (ql := toLowerCase query). set (tl := toLowerCase (title nd)).
  set (dl := toLowerCase (domain nd)). set (qw := queryWordsOf ql).
  destruct (String.eqb tl ql); [|destruct (includes tl ql);
    [|destruct (forallb _ qw); [|destruct (existsb (fun w => includes tl w) qw)]]];
  (destruct (includes dl ql); [|destruct (existsb (fun w => includes dl w) qw)]);
  cbn [orb];
  rewrite ?Rmin_clamp_twice by lra;
  try reflexivity; f_equal; lra.
Qed.

(** With a similarity of at most 1 the clamp of the specification and the
    clamps of the code agree. *)
Lemma calculateHybridScore_le1 (s : R) (nd : MemoryNode R) (query : string) :
  s <= 1 -> calculateHybridScore s nd query = claimedHybridScore s nd query.
Proof.
  intros Hs. rewrite calculateHybridScore_R.
  destruct (anyBonus nd query) eqn:E; [reflexivity|].
  unfold claimedHybridScore, titleBonus, domainBonus, anyBonus in *.
  cbn [jmin jadd jdiv ofZ JsR] in *.
  repeat (apply orb_false_elim in E; destruct E as [E ?]).
  repeat match goal with Hb : _ = false |- _ => rewrite Hb; clear Hb end.
  rewrite !Rplus_0_r. symmetry. now apply Rmin_id.
Qed.

(** What the code computes: to [s] it adds one title bonus (0.4 for an
    equal title, else 0.25 for a title containing the query, else 0.2 when
    every kept query word is in the title, else 0.1 when some is, else 0)
    and one domain bonus (0.15, else 0.08, else 0) and clamps the sum to at
    most 1 whenever a bonus applies or [s <= 1]; without any bonus it
    returns [s] as it is. *)
Theorem calculateHybridScore_bonuses (s : R) (nd : MemoryNode R) (query : string) :
  (anyBonus nd query = true \/ s <= 1 ->
     calculateHybridScore s nd query = claimedHybridScore s nd query)
  /\ (anyBonus nd query = false -> calculateHybridScore s nd query = s).
Proof.
  split.
  - intros [Hb|Hs].
    + now rewrite calculateHybridScore_R, Hb.
    + now apply calculateHybridScore_le1.
  - intros Hb. now rewrite calculateHybridScore_R, Hb.
Qed.

Lemma calculateHybridScore_bonuses_witness :
  calculateHybridScore (1 / 2) (pageR "React Hooks Guide" "react.dev") "React"
  = Rmin 1 (1 / 2 + 25 / 100 + 15 / 100)
  /\ calculateHybridScore 2 (pageR "Cooking Pasta" "food.example") "React" = 2.
Proof.
  split.
  - apply (calculateHybridScore_bonuses (1 / 2)
             (pageR "React Hooks Guide" "react.dev") "React").
    right. lra.
  - apply (calculateHybridScore_bonuses 2
             (pageR "Cooking Pasta" "food.example") "React").
    reflexivity.
Defined.
End HybridFacts.

(** A score above 1 passes through when no bonus applies. *)
Lemma calculateHybridScore_unclamped :
  let nd := page "p" "https://food.example/" "Cooking Pasta" 0 "food.example" in
  calculateHybridScore (dec 15 10) nd "React" = dec 15 10
  /\ claimedHybridScore (dec 15 10) nd "React" = ofZ 1
  /\ jleb (calculateHybridScore (dec 15 10) nd "React") (ofZ 1) = false.
Proof. vm_compute. repeat split. Qed.

(** C2.  Two inputs on which the code departs from the stated score.
    The similarity that [cosineSimilarity] computes for [(1, 1, 1)] with
    itself is above 1; for a page that earns no bonus the code returns it
    as it is, where the stated score is clamped to 1: the clamp of the
    bonus branches is missing on the path without bonus.  And for the
    query "AI" and a page titled "Cooking Pasta", whose title does not
    contain the query's word, the code adds the all-words bonus 0.2 to the
    similarity 0.5, where the stated score adds nothing. *)
Theorem calculateHybridScore_departs :
  let plain :=
    page "p" "https://food.example/" "Cooking Pasta" 0 "food.example" in
  let s : F64 := cosineSimilarity [ofZ 1; ofZ 1; ofZ 1] [ofZ 1; ofZ 1; ofZ 1] in
  (anyBonus plain "React" = false
   /\ calculateHybridScore s plain "React" = s
   /\ jleb (calculateHybridScore s plain "React") (ofZ 1) = false
   /\ statedHybridScore s plain "React" = ofZ 1)
  /\ (split_ws (toLowerCase "AI") = ["ai"%string]
      /\ includes (toLowerCase (title plain)) "ai" = false
      /\ queryWordsOf (toLowerCase "AI") = []
      /\ calculateHybridScore (dec 5 10) plain "AI" = dec 7 10
      /\ statedHybridScore (dec 5 10) plain "AI" = dec 5 10).
Proof. vm_compute. repeat split. Qed.

Section HybridOrder.
Local Open Scope R_scope.

Lemma titleBonus_range tl ql : 0 <= @titleBonus R _ tl ql <= 4 / 10.
Proof.
  unfold titleBonus, dec. cbn [jdiv ofZ JsR]. bonus_cases; lra.
Qed.

Lemma domainBonus_range dl ql : 0 <= @domainBonus R _ dl ql <= 15 / 100.
Proof.
  unfold domainBonus, dec. cbn [jdiv ofZ JsR]. bonus_cases; lra.
Qed.

(** Where the ordering of the boosts does hold: a similarity of at most 1
    and a query with at least one word longer than two characters. *)
Lemma hybrid_order_holds (s : R) (n1 n2 n3 : MemoryNode R) (query : string) :
  s <= 1 ->
  queryWordsOf (toLowerCase query) <> [] ->
  toLowerCase (title n1) = toLowerCase query ->
  toLowerCase (title n2) <> toLowerCase query ->
  includes (toLowerCase (title n2)) (toLowerCase query) = true ->
  noTitleOverlap n3 query = true ->
  calculateHybridScore s n2 query <= calculateHybridScore s n1 query
  /\ calculateHybridScore s n3 query <= calculateHybridScore s n2 query.
Proof.
  intros Hs Hw H1 H2 H2c H3. rewrite !calculateHybridScore_le1 by assumption.
  unfold claimedHybridScore. cbn [jmin jadd ofZ JsR].
  set (ql := toLowerCase query) in *.
  assert (T1 : titleBonus (toLowerCase (title n1)) ql = 4 / 10).
  { unfold titleBonus. rewrite H1, String.eqb_refl. reflexivity. }
  assert (T2 : titleBonus (toLowerCase (title n2)) ql = 25 / 100).
  { unfold titleBonus. apply String.eqb_neq in H2. rewrite H2, H2c. reflexivity. }
  assert (T3 : titleBonus (toLowerCase (title n3)) ql = 0).
  { unfold noTitleOverlap in H3. fold ql in H3.
    apply andb_true_iff in H3. destruct H3 as [Hc He].
    apply negb_true_iff in Hc, He.
    assert (Hnone : forall w, In w (queryWordsOf ql) ->
                      includes (toLowerCase (title n3)) w = false).
    { intros w Hin. unfold queryWordsOf in Hin. apply filter_In in Hin.
      destruct Hin as [Hin _].
      destruct (includes (toLowerCase (title n3)) w) eqn:E; [|reflexivity].
      assert (existsb (fun w => includes (toLowerCase (title n3)) w)
                      (split_ws ql) = true)
        by (apply existsb_exists; eauto).
      congruence. }
    unfold titleBonus.
    destruct (String.eqb (toLowerCase (title n3)) ql) eqn:Eq.
    { apply String.eqb_eq in Eq. rewrite Eq in Hnone.
      destruct (queryWordsOf ql) as [|w ws] eqn:Ew; [contradiction|].
      (* every query word occurs in the query: impossible here *)
      exfalso. rewrite Eq in Hc.
      rewrite includes_refl in Hc.
      congruence. }
    rewrite Hc.
    destruct (queryWordsOf ql) as [|w ws] eqn:Ew; [contradiction|].
    simpl. rewrite (Hnone w) by now left. simpl.
    replace (existsb (fun w0 => includes (toLowerCase (title n3)) w0) ws)
      with false; [reflexivity|].
    symmetry. apply not_true_is_false. intros Hex.
    apply existsb_exists in Hex. destruct Hex as (w' & Hin & Hw').
    rewrite Hnone in Hw' by now right. discriminate. }
  rewrite T1, T2, T3.
  pose proof (domainBonus_range (toLowerCase (domain n1)) ql).
  pose proof (domainBonus_range (toLowerCase (domain n2)) ql).
  pose proof (domainBonus_range (toLowerCase (domain n3)) ql).
  split; apply Rle_min_compat_l; lra.
Qed.
End HybridOrder.

(** C9 (a query of short words).  For the query "AI", whose only word is
    dropped by the length filter, and similarity 0.5: the page titled
    "AI Tools" contains the query and scores 0.75; the page titled
    "Cooking Pasta" shares nothing with the query, still takes the
    all-words boost, and with the domain "openai.com" scores above it. *)
Theorem hybrid_order_fails_short_query :
  let q := "AI"%string in
  let s : F64 := dec 5 10 in
  let n2 := page "p2" "https://tools.example/" "AI Tools" 0 "tools.example" in
  let n3 := page "p3" "https://openai.com/" "Cooking Pasta" 0 "openai.com" in
  includes (toLowerCase (title n2)) (toLowerCase q) = true
  /\ String.eqb (toLowerCase (title n2)) (toLowerCase q) = false
  /\ noTitleOverlap n3 q = true
  /\ queryWordsOf (toLowerCase q) = []
  /\ calculateHybridScore s n2 q = dec 75 100
  /\ jltb (calculateHybridScore s n2 q) (calculateHybridScore s n3 q) = true.
Proof. vm_compute. repeat split. Qed.

(* ------------------------------------------------------------------ *)
(** *** Analytics *)

Section CountFacts.
Context {V : Type}.

Lemma map_keys_set (k : string) (v : V) (m : JsMap string V) :
  map_keys (map_set k v m)
  = if map_has k m then map_keys m else map_keys m ++ [k].
Proof.
  unfold map_has. induction m as [|[k' v'] m IH]; simpl; [reflexivity|].
  destruct (String.eqb k k') eqn:E; simpl.
  - apply String.eqb_eq in E. now subst.
  - rewrite IH. now destruct (map_get k m).
Qed.

Lemma map_has_keys (k : string) (m : JsMap string V) :
  map_has k m = true <-> In k (map_keys m).
Proof.
  rewrite map_has_true. split.
  - intros [v Hv]. apply map_get_In in Hv.
    apply in_map_iff. exists (k, v). auto.
  - apply map_keys_get.
Qed.

Lemma map_keys_set_NoDup (k : string) (v : V) (m : JsMap string V) :
  NoDup (map_keys m) -> NoDup (map_keys (map_set k v m)).
Proof.
  intros Hnd. rewrite map_keys_set. destruct (map_has k m) eqn:E; [assumption|].
  apply NoDup_app; [assumption | repeat constructor; simpl; tauto |].
  intros y Hy [<-|[]]. apply map_has_keys in Hy. congruence.
Qed.

Lemma map_keys_set_In (k k' : string) (v : V) (m : JsMap string V) :
  In k' (map_keys (map_set k v m)) -> k' = k \/ In k' (map_keys m).
Proof.
  rewrite map_keys_set. destruct (map_has k m); [auto|].
  rewrite in_app_iff. simpl. intuition.
Qed.
End CountFacts.

Lemma bump_sum m key :
  list_sum (map snd (bump m key)) = S (list_sum (map snd m)).
Proof.
  unfold bump. induction m as [|[k c] m IH]; simpl; [reflexivity|].
  destruct (String.eqb key k) eqn:E; simpl.
  - lia.
  - rewrite IH. lia.
Qed.

Section CountBy.
Context {N : Type}.
Variable key : MemoryNode N -> string.

Lemma countBy_gen (nodes : list (MemoryNode N)) : forall m,
  NoDup (map_keys m) ->
  let m' := fold_left (fun m nd => bump m (key nd)) nodes m in
  list_sum (map snd m') = length nodes + list_sum (map snd m)
  /\ NoDup (map_keys m')
  /\ (forall k, In k (map_keys m') -> In k (map_keys m) \/ In k (map key nodes)).
Proof.
  induction nodes as [|nd nodes IH]; intros m Hnd; simpl.
  - auto.
  - destruct (IH (bump m (key nd))) as (Hs & Hn & Hk).
    { now apply map_keys_set_NoDup. }
    repeat split.
    + rewrite Hs, bump_sum. lia.
    + assumption.
    + intros k Hin. apply Hk in Hin. destruct Hin as [Hin|Hin]; [|auto].
      apply map_keys_set_In in Hin. destruct Hin as [->|]; auto.
Qed.

Lemma countBy_sum nodes : list_sum (map snd (countBy key nodes)) = length nodes.
Proof.
  destruct (@countBy_gen nodes [] (NoDup_nil _)) as (Hs & _).
  unfold countBy. rewrite Hs. simpl. lia.
Qed.

End CountBy.

Lemma list_sum_perm l l' : Permutation l l' -> list_sum l = list_sum l'.
Proof. induction 1; simpl; lia. Qed.



Section SiteFacts.
Context {N : Type}.

Lemma siteStep_sum m (nd : MemoryNode N) :
  list_sum (map siteCount (siteStep m nd)) = S (list_sum (map siteCount m)).
Proof.
  unfold siteStep. induction m as [|[k [c lv]] m IH]; simpl; [reflexivity|].
  destruct (String.eqb (domain nd) k) eqn:E; simpl.
  - unfold siteCount; simpl. lia.
  - rewrite IH. unfold siteCount; simpl. lia.
Qed.

Lemma sites_gen (nodes : list (MemoryNode N)) : forall m,
  NoDup (map_keys m) ->
  let m' := fold_left siteStep nodes m in
  list_sum (map siteCount m') = length nodes + list_sum (map siteCount m)
  /\ NoDup (map_keys m')
  /\ (forall k, In k (map_keys m') ->
        In k (map_keys m) \/ In k (map (@domain N) nodes)).
Proof.
  induction nodes as [|nd nodes IH]; intros m Hnd; simpl.
  - auto.
  - destruct (IH (siteStep m nd)) as (Hs & Hn & Hk).
    { now apply map_keys_set_NoDup. }
    repeat split.
    + rewrite Hs, siteStep_sum. lia.
    + assumption.
    + intros k Hin. apply Hk in Hin. destruct Hin as [Hin|Hin]; [|auto].
      apply map_keys_set_In in Hin. destruct Hin as [->|]; auto.
Qed.
End SiteFacts.


Section AnalyticsClaims.
Variable getFullYear getMonth getDate : Z -> Z.
Variable localeAfter : string -> string -> bool.
Variable URL_hostname : string -> option string.
Variable now : Z.



End AnalyticsClaims.



(* ------------------------------------------------------------------ *)
(** *** More on the indexes *)

Section MapFacts2.
Context {V : Type}.
Implicit Types (m : JsMap string V).

Lemma map_fst_filter (f : string -> bool) m :
  map fst (filter (fun kv => f (fst kv)) m) = filter f (map fst m).
Proof.
  induction m as [|[k' v] m IH]; simpl; [reflexivity|].
  destruct (f k'); simpl; now rewrite IH.
Qed.

Lemma map_keys_delete (k : string) m :
  map_keys (map_delete k m)
  = filter (fun k' => negb (String.eqb k k')) (map_keys m).
Proof.
  exact (map_fst_filter (fun k' => negb (String.eqb k k')) m).
Qed.

Lemma map_keys_delete_NoDup (k : string) m :
  NoDup (map_keys m) -> NoDup (map_keys (map_delete k m)).
Proof. intros Hnd. rewrite map_keys_delete. now apply NoDup_filter. Qed.

Lemma map_delete_absent (k : string) m :
  map_get k m = None -> map_delete k m = m.
Proof.
  unfold map_delete. induction m as [|[k' v] m IH]; [reflexivity|].
  cbn [map_get filter fst].
  destruct (key_eqb k k') eqn:E; [discriminate|].
  intros Hget. cbn [negb]. now rewrite IH.
Qed.

Lemma map_In_get (k : string) (v : V) m :
  NoDup (map_keys m) -> In (k, v) m -> map_get k m = Some v.
Proof.
  induction m as [|[k' v'] m IH]; simpl; [tauto|].
  change (key_eqb k k') with (String.eqb k k').
  intros Hnd [Heq|Hin].
  - injection Heq as -> ->. now rewrite String.eqb_refl.
  - inversion Hnd as [|? ? Hnot Hnd']; subst.
    destruct (String.eqb k k') eqn:E.
    + apply String.eqb_eq in E. subst k'. exfalso. apply Hnot.
      apply in_map_iff. exists (k, v). auto.
    + auto.
Qed.

Lemma map_keys_length m : length (map_keys m) = length m.
Proof. apply length_map. Qed.
End MapFacts2.

Section MatchFacts.
Context {N : Type} `{JsNumber N}.
Implicit Types (vs : JsMap string (list N)) (ix : ANNIndex N).

Lemma scored_In vs q th cands p :
  (forall x, In x cands -> exists v, map_get x vs = Some v) ->
  (In p (scored vs q th cands) <-> In (fst p) cands /\ isMatch vs q th p).
Proof.
  intros Hall. unfold scored. rewrite filter_In, in_map_iff. split.
  - intros [(x & Hp & Hx) Hth]. subst p. cbn [fst snd] in *.
    split; [assumption|].
    destruct (Hall x Hx) as [v Hv]. exists v. cbn [fst snd].
    rewrite Hv in *. auto.
  - intros [Hin (v & Hv & Hs & Hth)]. split; [|assumption].
    exists (fst p). split; [|assumption].
    rewrite Hv. destruct p; simpl in *. now subst.
Qed.

Lemma scored_fst_NoDup vs q th cands :
  NoDup cands -> NoDup (map fst (scored vs q th cands)).
Proof.
  unfold scored. induction 1 as [|x l Hx Hnd IH]; simpl; [constructor|].
  destruct (jleb th _); simpl; [|assumption].
  constructor; [|assumption].
  intros Hin. apply in_map_iff in Hin. destruct Hin as ([y s] & Hy & Hin).
  simpl in Hy; subst y. apply filter_In in Hin. destruct Hin as [Hin _].
  apply in_map_iff in Hin. destruct Hin as (z & [= <- _] & Hz). contradiction.
Qed.

Lemma scored_length vs q th cands :
  length (scored vs q th cands) <= length cands.
Proof.
  unfold scored. etransitivity; [apply filter_length_le|].
  now rewrite length_map.
Qed.

Lemma scoreCandidates_scored vs q th cands r :
  scoreCandidates vs q th cands = Ok r ->
  r = scored vs q th cands
  /\ forall x, In x cands -> exists v, map_get x vs = Some v.
Proof.
  revert r; induction cands as [|c cands IH]; intros r; simpl.
  - intros [= <-]. split; [reflexivity | intros x []].
  - destruct (map_get c vs) as [v|] eqn:Ev; [|discriminate].
    destruct (scoreCandidates vs q th cands) as [r'|] eqn:Er; [|discriminate].
    simpl. intros [= <-]. destruct (IH r' eq_refl) as [-> Hall]. split.
    + unfold scored. simpl. rewrite Ev. reflexivity.
    + intros x [<-|Hx]; eauto.
Qed.

Lemma gather_NoDup bs hs : NoDup (gather bs hs).
Proof.
  unfold gather.
  assert (G : forall c, NoDup c ->
    NoDup (fold_left
             (fun candidates h =>
                match map_get h bs with
                | Some bucket =>
                    fold_left (fun c id => set_add id c) bucket candidates
                | None => candidates
                end) hs c)).
  { induction hs as [|h hs IH]; intros c Hc; simpl; [assumption|].
    apply IH. destruct (map_get h bs) as [b|]; [|assumption].
    clear IH. revert c Hc. induction b as [|x b IHb]; intros c Hc; simpl;
      [assumption|].
    apply IHb. now apply set_add_NoDup. }
  apply G. constructor.
Qed.

Lemma fallback_NoDup keys c : NoDup c -> NoDup (fallback keys c).
Proof.
  revert c; induction keys as [|k keys IH]; intros c Hc; simpl; [assumption|].
  pose proof (set_add_NoDup k Hc).
  destruct (100 <? length (set_add k c))%nat; auto.
Qed.

Lemma candidatesFor_NoDup q k ix : NoDup (candidatesFor q k ix).
Proof.
  unfold candidatesFor. destruct (_ <? k)%nat.
  - apply fallback_NoDup, gather_NoDup.
  - apply gather_NoDup.
Qed.

Lemma slice0_length {A} k (l : list A) : length (slice0 k l) <= k.
Proof. apply firstn_le_length. Qed.

Lemma slice0_map {A B} (f : A -> B) k l :
  map f (slice0 k l) = slice0 k (map f l).
Proof. unfold slice0. symmetry. apply firstn_map. Qed.

Lemma NoDup_firstn {A} k (l : list A) : NoDup l -> NoDup (firstn k l).
Proof.
  intros Hnd. revert k. induction Hnd as [|x l Hx Hnd IH]; intros [|k]; simpl;
    try constructor; auto.
  intros Hin. apply Hx. revert Hin. apply (slice0_In k).
Qed.

Lemma sorted_fst_NoDup (gt : string * N -> string * N -> bool) k l :
  NoDup (map fst l) -> NoDup (map fst (slice0 k (js_sort gt l))).
Proof.
  intros Hnd. rewrite slice0_map. apply NoDup_firstn.
  eapply Permutation_NoDup; [|exact Hnd].
  symmetry. apply Permutation_map, js_sort_perm.
Qed.
End MatchFacts.

Section IndexExtras.
Context {N : Type} `{JsNumber N}.
Implicit Types (ix : ANNIndex N) (ops : list (IndexOp (N:=N))).

Lemma bruteforce_scored q th (vs : JsMap string (list N)) :
  NoDup (map_keys vs) ->
  filter (fun r => jleb th (snd r))
         (map (fun e => (fst e, cosineSimilarity q (snd e))) vs)
  = scored vs q th (map_keys vs).
Proof.
  intros Hnd. unfold scored, map_keys. rewrite map_map. f_equal.
  apply map_ext_in. intros [x v] Hin. cbn [fst snd].
  now rewrite (@map_In_get _ x v vs Hnd Hin).
Qed.

Lemma bruteforce_search_shape q k th (ix : BruteForceIndex.t) :
  NoDup (map_keys ix) ->
  (forall p, In p (BruteForceIndex.search q k th ix) -> isMatch ix q th p)
  /\ (length ix <= k ->
      forall p, isMatch ix q th p -> In p (BruteForceIndex.search q k th ix)).
Proof.
  intros Hnd. unfold BruteForceIndex.search.
  rewrite bruteforce_scored by assumption.
  assert (Hall : forall x, In x (map_keys ix) -> exists v, map_get x ix = Some v)
    by (intros x; apply map_keys_get).
  split.
  - intros p Hin. apply slice0_In, js_sort_In in Hin.
    apply scored_In in Hin; [tauto | exact Hall].
  - intros Hk p Hm. rewrite slice0_all.
    + apply js_sort_In. apply scored_In; [exact Hall|]. split; [|assumption].
      destruct Hm as (v & Hv & _). apply map_get_In in Hv.
      apply in_map_iff. exists (fst p, v). auto.
    + rewrite js_sort_length. etransitivity; [apply scored_length|].
      now rewrite map_keys_length.
Qed.

(** X1.  On a brute-force index, [search] returns at most [k] results with
    distinct ids, each an indexed id with the cosine of its vector, which
    reaches the threshold; when the index holds at most [k] vectors, every
    such match is returned. *)
Theorem bruteforce_search_matches q k th (ix : BruteForceIndex.t) :
  NoDup (map_keys ix) ->
  let r := BruteForceIndex.search q k th ix in
  length r <= k
  /\ NoDup (map fst r)
  /\ (forall p, In p r -> isMatch ix q th p)
  /\ (length ix <= k -> forall p, isMatch ix q th p -> In p r).
Proof.
  intros Hnd r. subst r.
  destruct (@bruteforce_search_shape q k th ix Hnd) as [Hs Hc].
  repeat split; auto.
  - apply slice0_length.
  - unfold BruteForceIndex.search. rewrite bruteforce_scored by assumption.
    apply sorted_fst_NoDup, scored_fst_NoDup, Hnd.
Qed.

(** X2.  Whatever [ANNIndex.search] returns has at most [k] entries with
    distinct ids, and each entry is an indexed id paired with the cosine of
    its vector, which reaches the threshold. *)
Theorem ann_search_sound q k th ix r :
  search q k th ix = Ok r ->
  length r <= k
  /\ NoDup (map fst r)
  /\ forall p, In p r -> isMatch (vectors ix) q th p.
Proof.
  unfold search.
  destruct (scoreCandidates _ _ _ _) as [r'|] eqn:E; [|discriminate].
  cbn [bind]. intros [= <-].
  apply scoreCandidates_scored in E. destruct E as [-> Hall].
  repeat split.
  - apply slice0_length.
  - apply sorted_fst_NoDup, scored_fst_NoDup, candidatesFor_NoDup.
  - intros p Hin. apply slice0_In, js_sort_In in Hin.
    apply scored_In in Hin; [tauto | exact Hall].
Qed.

(** Invariants of every reachable index. *)
Lemma run_projectionMatrix ops ix :
  projectionMatrix (run ops ix) = projectionMatrix ix.
Proof.
  revert ix; induction ops as [|op ops IH]; intros ix; simpl; [reflexivity|].
  rewrite IH. now destruct op.
Qed.

Lemma run_vectors_NoDup ops ix :
  NoDup (map_keys (vectors ix)) -> NoDup (map_keys (vectors (run ops ix))).
Proof.
  revert ix; induction ops as [|op ops IH]; intros ix Hnd; simpl; [assumption|].
  apply IH. destruct op as [x v|x|]; simpl.
  - now apply map_keys_set_NoDup.
  - now apply map_keys_delete_NoDup.
  - constructor.
Qed.

Lemma vectorsBucketed_add ix x v :
  vectorsBucketed ix -> vectorsBucketed (add x v ix).
Proof.
  intros B y w Hy. unfold add in *. cbn [vectors buckets projectionMatrix] in *.
  set (M := projectionMatrix ix) in *.
  set (bs1 := if map_has (computeHash M v) (buckets ix) then buckets ix
              else map_set (computeHash M v) [] (buckets ix)) in *.
  assert (Hkeep : forall h b, map_get h (buckets ix) = Some b ->
                    map_get h bs1 = Some b).
  { intros h b Hb. unfold bs1.
    destruct (map_has (computeHash M v) (buckets ix)) eqn:Eh; [assumption|].
    rewrite map_get_set_neq; [assumption|].
    intros ->. unfold map_has in Eh. now rewrite Hb in Eh. }
  destruct (string_dec y x) as [->|Hne].
  - rewrite map_get_set_eq in Hy. injection Hy as <-.
    rewrite map_get_set_eq. eexists. split; [reflexivity|].
    apply in_app_iff. right. now left.
  - rewrite map_get_set_neq in Hy by assumption.
    destruct (B y w Hy) as (b & Hb & Hin). fold M in Hb.
    destruct (Z.eq_dec (computeHash M w) (computeHash M v)) as [E|E].
    + rewrite E, map_get_set_eq. eexists. split; [reflexivity|].
      apply in_app_iff. left. unfold bucket_of.
      rewrite E in Hb. now rewrite (Hkeep _ _ Hb).
    + rewrite map_get_set_neq by assumption. eauto.
Qed.

Lemma vectorsBucketed_remove ix x :
  vectorsBucketed ix -> vectorsBucketed (remove x ix).
Proof.
  intros B y w Hy. unfold remove in *. cbn [vectors buckets projectionMatrix] in *.
  destruct (string_dec y x) as [->|Hne].
  { now rewrite map_get_delete_eq in Hy. }
  rewrite map_get_delete_neq in Hy by assumption.
  destruct (B y w Hy) as (b & Hb & Hin).
  destruct (map_get x (hashes ix)) as [h|]; [|eauto].
  destruct (map_get h (buckets ix)) as [b1|] eqn:Eb; [|eauto].
  destruct (Z.eq_dec (computeHash (projectionMatrix ix) w) h) as [E|E].
  - rewrite E in *. rewrite map_get_set_eq. eexists. split; [reflexivity|].
    apply filter_In. split.
    + congruence.
    + apply negb_true_iff. now apply String.eqb_neq.
  - rewrite map_get_set_neq by assumption. eauto.
Qed.

Lemma vectorsBucketed_run ops ix :
  vectorsBucketed ix -> vectorsBucketed (run ops ix).
Proof.
  revert ix; induction ops as [|op ops IH]; intros ix B; simpl; [assumption|].
  apply IH. destruct op as [x v|x|]; simpl.
  - now apply vectorsBucketed_add.
  - now apply vectorsBucketed_remove.
  - intros y w Hy. discriminate.
Qed.

(** With at most 100 keys the fallback takes all of them. *)
Lemma fallback_all (U : list string) : forall keys c,
  length U <= 100 -> NoDup c -> incl c U -> incl keys U ->
  forall x, In x keys -> In x (fallback keys c).
Proof.
  induction keys as [|k keys IH]; intros c HU Hc Hinc Hkeys x Hx;
    [destruct Hx|].
  simpl.
  assert (Hc' : NoDup (set_add k c)) by now apply set_add_NoDup.
  assert (Hinc' : incl (set_add k c) U).
  { intros y Hy. apply set_add_In in Hy. destruct Hy as [->|Hy]; auto.
    apply Hkeys. now left. }
  pose proof (NoDup_incl_length Hc' Hinc') as Hlen.
  destruct (100 <? length (set_add k c))%nat eqn:E.
  { apply Nat.ltb_lt in E. lia. }
  destruct Hx as [<-|Hx].
  - apply fallback_keeps. apply set_add_In. now left.
  - apply IH; auto. intros y Hy. apply Hkeys. now right.
Qed.

(** X3.  On an index built without adding an id twice that holds fewer
    than [k] and at most 100 vectors, the approximate search loses
    nothing: its answer is a permutation of the answer of the brute-force
    search over the same vectors, with the same entries and the same
    length.  The order can differ among entries of equal similarity. *)
Theorem ann_exact_on_small_index (random : nat -> nat -> N) ops q k th :
  NoDup (addedIds ops) ->
  let ix := run ops (ANNIndex_new random) in
  length (vectors ix) < k ->
  length (vectors ix) <= 100 ->
  exists r,
    search q k th ix = Ok r
    /\ (forall p, In p r <-> In p (BruteForceIndex.search q k th (vectors ix)))
    /\ Permutation r (BruteForceIndex.search q k th (vectors ix)).
Proof.
  intros Hadd ix Hk H100.
  assert (B : bucketsBacked ix).
  { eapply bucketsTracked_backed. now apply bucketsTracked_run. }
  assert (Hnd : NoDup (map_keys (vectors ix))).
  { apply run_vectors_NoDup. constructor. }
  rewrite (search_shape q k th B). eexists. split; [reflexivity|].
  fold (scored (vectors ix) q th (candidatesFor q k ix)).
  assert (Hall : forall x, In x (candidatesFor q k ix) ->
                   exists v, map_get x (vectors ix) = Some v)
    by (intros x; now apply candidatesFor_backed).
  assert (Hinc : incl (candidatesFor q k ix) (map_keys (vectors ix))).
  { intros x Hx. destruct (Hall x Hx) as [v Hv]. apply map_get_In in Hv.
    apply in_map_iff. exists (x, v). auto. }
  assert (Hlen : length (candidatesFor q k ix) <= length (vectors ix)).
  { rewrite <- (map_keys_length (vectors ix)).
    apply NoDup_incl_length; [apply candidatesFor_NoDup | exact Hinc]. }
  assert (Hcover : forall x, In x (map_keys (vectors ix)) ->
                     In x (candidatesFor q k ix)).
  { intros x Hx. unfold candidatesFor.
    set (g := gather (buckets ix)
                (searchHashes (computeHash (projectionMatrix ix) q))).
    assert (Hg : incl g (map_keys (vectors ix))).
    { intros y Hy. apply gather_In in Hy. destruct Hy as (h & b & _ & Hb & Hin).
      destruct (B h b y Hb Hin) as [v Hv]. apply map_get_In in Hv.
      apply in_map_iff. exists (y, v). auto. }
    assert (Hgl : length g <= length (vectors ix)).
    { rewrite <- (map_keys_length (vectors ix)).
      apply NoDup_incl_length; [apply gather_NoDup | exact Hg]. }
    replace (length g <? k)%nat with true
      by (symmetry; apply Nat.ltb_lt; lia).
    apply (@fallback_all (map_keys (vectors ix))); auto.
    - now rewrite map_keys_length.
    - apply gather_NoDup.
    - apply incl_refl. }
  destruct (@bruteforce_search_shape q k th (vectors ix) Hnd) as [Hbf1 Hbf2].
  assert (Hsame : forall p,
            In p (slice0 k (js_sort bySimilarityDesc
                              (scored (vectors ix) q th (candidatesFor q k ix))))
            <-> In p (BruteForceIndex.search q k th (vectors ix))).
  { intros p. rewrite slice0_all
      by (rewrite js_sort_length; etransitivity; [apply scored_length|]; lia).
    split.
    - intros Hin. apply js_sort_In in Hin.
      apply scored_In in Hin; [|exact Hall].
      apply Hbf2; [lia | tauto].
    - intros Hin. apply Hbf1 in Hin. apply js_sort_In.
      apply scored_In; [exact Hall|]. split; [|assumption].
      destruct Hin as (v & Hv & _). apply Hcover. apply map_get_In in Hv.
      apply in_map_iff. exists (fst p, v). auto. }
  split; [exact Hsame|].
  apply NoDup_Permutation; [| |exact Hsame].
  - eapply NoDup_map_inv.
    apply sorted_fst_NoDup, scored_fst_NoDup, candidatesFor_NoDup.
  - eapply NoDup_map_inv. unfold BruteForceIndex.search.
    rewrite bruteforce_scored by assumption.
    apply sorted_fst_NoDup, scored_fst_NoDup, Hnd.
Qed.

(** Where the order differs: two vectors of equal similarity to the query
    in different buckets.  The approximate search meets the one in the
    query's bucket first, the brute-force search the one added first. *)
Lemma ann_tie_order_differs :
  search (planeVector 0 1) 10 (ofZ 0) tieIndex
  = Ok [("a"%string, cosineSimilarity (planeVector 0 1) (planeVector (-1) 1));
        ("b"%string, cosineSimilarity (planeVector 0 1) (planeVector 1 1))]
  /\ map fst (BruteForceIndex.search (planeVector 0 1) 10 (ofZ 0)
                (vectors tieIndex))
     = ["b"%string; "a"%string]
  /\ cosineSimilarity (planeVector 0 1) (planeVector (-1) 1)
     = cosineSimilarity (planeVector 0 1) (planeVector 1 1).
Proof. vm_compute. repeat split. Qed.
End IndexExtras.

Section IndexExtrasR.
Local Open Scope R_scope.

Lemma cosineSimilarity_R_cases (a b : list R) :
  cosineSimilarity a b
  = if negb (Nat.eqb (length a) (length b)) then 0
    else if Reqb (sumsq a) 0 || Reqb (sumsq b) 0 then 0
    else dotR a b / (sqrt (sumsq a) * sqrt (sumsq b)).
Proof.
  unfold cosineSimilarity.
  destruct (Nat.eqb (length a) (length b)) eqn:El; [|reflexivity].
  apply Nat.eqb_eq in El. cbn [negb ofZ JsR].
  rewrite cos_loop_R by exact El. cbn [jeqb jdiv jmul jsqrt JsR].
  now rewrite !Rplus_0_l.
Qed.

Lemma cosineSimilarity_le_one (a b : list R) : cosineSimilarity a b <= 1.
Proof.
  rewrite cosineSimilarity_R_cases.
  destruct (Nat.eqb (length a) (length b)) eqn:El; cbn [negb]; [|lra].
  apply Nat.eqb_eq in El.
  destruct (Reqb (sumsq a) 0) eqn:Ea; cbn [orb]; [lra|].
  destruct (Reqb (sumsq b) 0) eqn:Eb; [lra|].
  apply Reqb_false in Ea, Eb. now apply cosine_ratio_bounds.
Qed.

Lemma cosineSimilarity_self (v : list R) :
  sumsq v <> 0 -> cosineSimilarity v v = 1.
Proof.
  intros Hv. rewrite cosineSimilarity_R_eq by auto.
  rewrite sqrt_sqrt by apply sumsq_nonneg.
  rewrite dotR_self. now apply Rdiv_diag.
Qed.

Lemma bySimilarityDesc_asym (a b : string * R) :
  bySimilarityDesc a b = true -> bySimilarityDesc b a = false.
Proof.
  unfold bySimilarityDesc. cbn [jltb jsub ofZ JsR].
  intros Hab. apply Rltb_true in Hab. apply Rltb_false. lra.
Qed.

Lemma search_results_descending (l : list (string * R)) :
  StronglySorted (fun a b => snd b <= snd a) (js_sort bySimilarityDesc l).
Proof.
  apply Sorted_StronglySorted.
  - intros a b c. lra.
  - eapply Sorted_weaken; [|apply js_sort_sorted, bySimilarityDesc_asym].
    intros a b Hab. unfold bySimilarityDesc in Hab.
    cbn [jltb jsub ofZ JsR] in Hab. apply Rltb_false in Hab. lra.
Qed.

(** X4.  On an index built without adding an id twice, a query with the
    vector of an indexed id (non-zero norm), a threshold of at most 1 and
    [k >= 1] returns a non-empty list whose best match has similarity 1;
    the id itself is in the list when the index holds at most [k]
    vectors (exact arithmetic). *)
Theorem ann_self_match (random : nat -> nat -> R) ops nodeId v k th :
  NoDup (addedIds ops) ->
  let ix := run ops (ANNIndex_new random) in
  map_get nodeId (vectors ix) = Some v ->
  sumsq v <> 0 -> th <= 1 -> (0 < k)%nat ->
  exists top rest,
    search v k th ix = Ok (top :: rest)
    /\ snd top = 1
    /\ ((length (vectors ix) <= k)%nat -> In (nodeId, 1) (top :: rest)).
Proof.
  intros Hadd ix Hv Hnz Hth Hk.
  assert (B : bucketsBacked ix).
  { eapply bucketsTracked_backed. now apply bucketsTracked_run. }
  assert (VB : vectorsBucketed ix).
  { apply vectorsBucketed_run. intros y w Hy. discriminate. }
  assert (Hnd : NoDup (map_keys (vectors ix))).
  { apply run_vectors_NoDup. constructor. }
  rewrite (search_shape v k th B).
  fold (scored (vectors ix) v th (candidatesFor v k ix)).
  set (L := scored (vectors ix) v th (candidatesFor v k ix)).
  assert (Hall : forall x, In x (candidatesFor v k ix) ->
                   exists w, map_get x (vectors ix) = Some w)
    by (intros x; now apply candidatesFor_backed).
  assert (Hcand : In nodeId (candidatesFor v k ix)).
  { destruct (VB nodeId v Hv) as (b & Hb & Hin).
    unfold candidatesFor.
    assert (In nodeId (gather (buckets ix)
                         (searchHashes (computeHash (projectionMatrix ix) v)))).
    { eapply gather_has; eauto. now left. }
    destruct (_ <? k)%nat; [now apply fallback_keeps | assumption]. }
  assert (HinL : In (nodeId, 1) L).
  { unfold L. apply scored_In; [exact Hall|]. split; [exact Hcand|].
    exists v. cbn [fst snd]. repeat split; auto.
    - symmetry. now apply cosineSimilarity_self.
    - cbn [jleb JsR]. now apply Rleb_true. }
  assert (HinS : In (nodeId, 1) (js_sort bySimilarityDesc L))
    by now apply js_sort_In.
  pose proof (search_results_descending L) as Hsorted.
  destruct (js_sort bySimilarityDesc L) as [|top tl] eqn:ES; [destruct HinS|].
  destruct k as [|k']; [lia|].
  exists top, (firstn k' tl). cbn [slice0 firstn]. split; [reflexivity|]. split.
  - assert (Htop : In top L) by (apply (js_sort_In bySimilarityDesc); rewrite ES; now left).
    unfold L in Htop. apply scored_In in Htop; [|exact Hall].
    destruct Htop as [_ (w & _ & Hs & _)].
    pose proof (cosineSimilarity_le_one v w) as Hle. rewrite <- Hs in Hle.
    inversion Hsorted as [|? ? _ Hforall]; subst.
    destruct HinS as [->|Hin]; [reflexivity|].
    rewrite Forall_forall in Hforall. specialize (Hforall _ Hin).
    cbn [snd] in Hforall. lra.
  - intros Hsmall.
    assert (Hlen : (length (top :: tl) <= S k')%nat).
    { rewrite <- ES, js_sort_length. unfold L.
      etransitivity; [apply scored_length|].
      etransitivity; [|exact Hsmall].
      rewrite <- (map_keys_length (vectors ix)).
      apply NoDup_incl_length; [apply candidatesFor_NoDup|].
      intros x Hx. destruct (Hall x Hx) as [w Hw]. apply map_get_In in Hw.
      apply in_map_iff. exists (x, w). auto. }
    change (top :: firstn k' tl) with (firstn (S k') (top :: tl)).
    rewrite firstn_all2 by exact Hlen. exact HinS.
Qed.

Lemma fold_sumsq (v : list R) : forall acc,
  fold_left (fun sum val => sum + val * val) v acc = acc + sumsq v.
Proof.
  induction v as [|x v IH]; intros acc; simpl; [lra|].
  rewrite IH. lra.
Qed.

Lemma sumsq_scale (v : list R) n :
  sumsq (map (fun val => val / n) v) = sumsq v / (n * n).
Proof.
  induction v as [|x v IH]; simpl.
  - unfold Rdiv. ring.
  - rewrite IH. destruct (Req_dec n 0) as [->|Hn].
    + unfold Rdiv. rewrite Rmult_0_l, Rinv_0. ring.
    + field. assumption.
Qed.

Lemma dotR_scale (a b : list R) n :
  dotR (map (fun val => val / n) a) b = dotR a b / n.
Proof.
  revert b; induction a as [|x a IH]; intros [|y b]; simpl;
    try (unfold Rdiv; ring).
  rewrite IH. unfold Rdiv. ring.
Qed.

(** X5.  [normalizeVector] keeps the length; it returns a vector of zero
    norm as it is and scales any other vector to norm 1, and it never
    changes a cosine similarity (exact arithmetic). *)
Theorem normalizeVector_unit (v : list R) :
  length (normalizeVector v) = length v
  /\ (sumsq v = 0 -> normalizeVector v = v)
  /\ (sumsq v <> 0 -> sumsq (normalizeVector v) = 1)
  /\ forall w, cosineSimilarity (normalizeVector v) w = cosineSimilarity v w.
Proof.
  pose proof (sumsq_nonneg v) as Hpos.
  unfold normalizeVector. cbn [jsqrt jeqb jdiv jadd jmul ofZ JsR].
  rewrite fold_sumsq, Rplus_0_l.
  destruct (Reqb (sqrt (sumsq v)) 0) eqn:E.
  - apply Reqb_true in E. apply sqrt_eq_0 in E; [|assumption].
    repeat split; auto. intros Hnz. contradiction.
  - apply Reqb_false in E.
    assert (Hnz : sumsq v <> 0) by (intros Hz; apply E; rewrite Hz; apply sqrt_0).
    assert (Hsq : sqrt (sumsq v) * sqrt (sumsq v) = sumsq v)
      by now apply sqrt_sqrt.
    assert (Hone : sumsq (map (fun val => val / sqrt (sumsq v)) v) = 1).
    { rewrite sumsq_scale, Hsq. now apply Rdiv_diag. }
    repeat split.
    + apply length_map.
    + intros Hz. contradiction.
    + intros _. exact Hone.
    + intros w. rewrite !cosineSimilarity_R_cases, length_map, Hone.
      destruct (Nat.eqb (length v) (length w)); cbn [negb]; [|reflexivity].
      replace (Reqb 1 0) with false by (symmetry; apply Reqb_false; lra).
      replace (Reqb (sumsq v) 0) with false by (symmetry; now apply Reqb_false).
      cbn [orb]. destruct (Reqb (sumsq w) 0) eqn:Ew; [reflexivity|].
      apply Reqb_false in Ew.
      rewrite dotR_scale, sqrt_1. field. split; [|exact E].
      intros Hw. apply sqrt_eq_0 in Hw; [|apply sumsq_nonneg].
      contradiction.
Qed.
End IndexExtrasR.

(** X6.  [remove] of an id the index does not hold changes nothing. *)
Theorem remove_absent_noop {N} `{JsNumber N} nodeId (ix : ANNIndex N) :
  map_get nodeId (vectors ix) = None ->
  map_get nodeId (hashes ix) = None ->
  remove nodeId ix = ix.
Proof.
  intros Hv Hh. unfold remove. rewrite Hh.
  rewrite (map_delete_absent _ _ Hv), (map_delete_absent _ _ Hh).
  now destruct ix.
Qed.

Lemma bruteforce_search_matches_witness :
  length (BruteForceIndex.search (axisVector 1) 10 (ofZ 0) (vectors threeIndex))
  <= 10.
Proof.
  apply (@bruteforce_search_matches _ _ (axisVector 1) 10 (ofZ 0)
           (vectors threeIndex)).
  vm_compute. repeat constructor; simpl; intuition discriminate.
Defined.

Lemma ann_search_sound_witness :
  exists r, search (axisVector 1) 10 (ofZ 0) threeIndex = Ok r
            /\ length r <= 10 /\ NoDup (map fst r).
Proof.
  eexists. split; [vm_compute; reflexivity|].
  edestruct (@ann_search_sound _ _ (axisVector 1) 10 (ofZ 0) threeIndex)
    as (Hl & Hn & _); [vm_compute; reflexivity|].
  split; [exact Hl | exact Hn].
Defined.

Lemma ann_exact_on_small_index_witness :
  exists r,
    search (axisVector 1) 10 (ofZ 0) threeIndex = Ok r
    /\ (forall p, In p r <->
          In p (BruteForceIndex.search (axisVector 1) 10 (ofZ 0)
                  (vectors threeIndex)))
    /\ Permutation r (BruteForceIndex.search (axisVector 1) 10 (ofZ 0)
                        (vectors threeIndex)).
Proof.
  apply (@ann_exact_on_small_index _ _ fixRandom (addMany 3)
           (axisVector 1) 10 (ofZ 0)).
  - vm_compute. repeat constructor; simpl; intuition discriminate.
  - vm_compute. lia.
  - vm_compute. lia.
Defined.

Lemma ann_self_match_witness :
  exists top rest,
    search [1%R] 5 0%R oneIndexR = Ok (top :: rest) /\ snd top = 1%R.
Proof.
  destruct (@ann_self_match (fun _ _ => (1 / 2)%R) [OpAdd "a"%string [1%R]]
              "a"%string [1%R] 5 0%R) as (top & rest & Hs & Ht & _).
  - simpl. repeat constructor. simpl. tauto.
  - reflexivity.
  - simpl. lra.
  - lra.
  - lia.
  - exists top, rest. auto.
Defined.

Lemma normalizeVector_unit_witness :
  sumsq (normalizeVector [3%R; 4%R]) = 1%R.
Proof.
  apply (normalizeVector_unit [3%R; 4%R]). simpl. lra.
Defined.

Lemma remove_absent_noop_witness :
  remove "zz"%string threeIndex = threeIndex.
Proof.
  apply remove_absent_noop; vm_compute; reflexivity.
Defined.

(* ------------------------------------------------------------------ *)
(** *** Cleanup operations of the store *)

Section DeleteFacts.
Context {N : Type} `{JsNumber N}.
Implicit Types (st : CortexStorage N) (ts : list (MemoryNode N)).

Lemma fold_delete_get {V} (k : string) ts : forall (m : JsMap string V),
  map_get k (fold_left (fun m nd => map_delete (id nd) m) ts m)
  = if existsb (fun nd : MemoryNode N => String.eqb k (id nd)) ts then None
    else map_get k m.
Proof.
  induction ts as [|t ts IH]; intros m; simpl; [reflexivity|].
  rewrite IH. destruct (String.eqb k (id t)) eqn:E; simpl.
  - apply String.eqb_eq in E. subst k.
    rewrite map_get_delete_eq. now destruct (existsb _ ts).
  - apply String.eqb_neq in E. rewrite map_get_delete_neq by assumption.
    reflexivity.
Qed.

Lemma fold_deleteStep ts : forall st,
  pages (fold_left deleteStep ts st)
  = fold_left (fun m nd => map_delete (id nd) m) ts (pages st)
  /\ embeddings (fold_left deleteStep ts st)
     = fold_left (fun m nd => map_delete (id nd) m) ts (embeddings st)
  /\ vectors (annIndex (fold_left deleteStep ts st))
     = fold_left (fun m nd => map_delete (id nd) m) ts
                 (vectors (annIndex st)).
Proof.
  induction ts as [|t ts IH]; intros st; simpl; [auto|].
  destruct (IH (deleteStep st t)) as (Hp & He & Hv).
  rewrite Hp, He, Hv. auto.
Qed.

Lemma values_In_get (ps : JsMap string (MemoryNode N)) nd :
  pagesKeyed ps ->
  (In nd (map_values ps) <-> map_get (id nd) ps = Some nd).
Proof.
  intros [Hnd Hkey]. split.
  - intros Hin. apply in_map_iff in Hin. destruct Hin as ([k nd'] & Heq & Hin).
    simpl in Heq. subst nd'. rewrite (Hkey _ _ Hin).
    now apply map_In_get.
  - intros Hget. apply map_get_In in Hget.
    apply in_map_iff. exists (id nd, nd). auto.
Qed.

(** What a delete cursor over the stored pages that satisfy [sel] leaves. *)
Lemma deleteCursor_spec (sel : MemoryNode N -> bool) ts fa msg st st' r :
  pagesKeyed (pages st) ->
  (forall nd, In nd ts <-> In nd (map_values (pages st)) /\ sel nd = true) ->
  deleteCursor ts fa msg st = (st', r) ->
  (forall n, r = Ok n ->
     n = length ts
     /\ (forall nd, In nd (map_values (pages st')) -> sel nd = false)
     /\ (forall k nd, map_get k (pages st) = Some nd -> sel nd = false ->
           map_get k (pages st') = Some nd
           /\ map_get k (embeddings st') = map_get k (embeddings st))
     /\ (forall k nd, map_get k (pages st) = Some nd -> sel nd = true ->
           map_get k (pages st') = None
           /\ map_get k (embeddings st') = None
           /\ map_get k (vectors (annIndex st')) = None))
  /\ (forall e, r = Err e ->
        pages st' = pages st /\ embeddings st' = embeddings st).
Proof.
  intros Hkeyed Hts Hrun.
  assert (Hdone : forall st1 n,
            (st1, Ok n) = (fold_left deleteStep ts st, Ok (length ts)) ->
            n = length ts
            /\ (forall nd, In nd (map_values (pages st1)) -> sel nd = false)
            /\ (forall k nd, map_get k (pages st) = Some nd -> sel nd = false ->
                  map_get k (pages st1) = Some nd
                  /\ map_get k (embeddings st1) = map_get k (embeddings st))
            /\ (forall k nd, map_get k (pages st) = Some nd -> sel nd = true ->
                  map_get k (pages st1) = None
                  /\ map_get k (embeddings st1) = None
                  /\ map_get k (vectors (annIndex st1)) = None)).
  { intros st1 n [= -> ->].
    destruct (fold_deleteStep ts st) as (Hp & He & Hv).
    assert (Hstored : forall k nd, map_get k (pages st) = Some nd -> id nd = k).
    { intros k nd Hget. apply map_get_In in Hget. now apply (proj2 Hkeyed). }
    assert (Hhit : forall k nd, map_get k (pages st) = Some nd ->
              existsb (fun t : MemoryNode N => String.eqb k (id t)) ts = sel nd).
    { intros k nd Hget. pose proof (Hstored _ _ Hget) as Hid.
      destruct (sel nd) eqn:Es.
      - apply existsb_exists. exists nd. split.
        + apply Hts. split; [|assumption].
          apply values_In_get; [assumption|]. now rewrite Hid.
        + rewrite Hid. apply String.eqb_refl.
      - apply not_true_is_false. intros Hex.
        apply existsb_exists in Hex. destruct Hex as (t & Ht & Eq).
        apply String.eqb_eq in Eq. apply Hts in Ht. destruct Ht as [Hin Hsel].
        apply values_In_get in Hin; [|assumption].
        rewrite <- Eq, Hget in Hin. congruence. }
    split; [reflexivity|]. rewrite Hp, He, Hv. repeat split.
    - intros nd Hin. apply in_map_iff in Hin.
      destruct Hin as ([k nd'] & Heq & Hin). simpl in Heq; subst nd'.
      assert (Hget : exists nd0,
                map_get k (fold_left (fun m t => map_delete (id t) m) ts
                             (pages st)) = Some nd0).
      { apply map_keys_get. apply in_map_iff. exists (k, nd). auto. }
      destruct Hget as [nd0 Hget]. rewrite fold_delete_get in Hget.
      destruct (existsb _ ts) eqn:Ex; [discriminate|].
      assert (Hsub : forall (m : JsMap string (MemoryNode N)) p,
                In p (fold_left (fun m t => map_delete (id t) m) ts m) -> In p m).
      { clear. induction ts as [|t ts IH]; intros m p; simpl; [auto|].
        intros Hin. apply IH in Hin. unfold map_delete in Hin.
        now apply filter_In in Hin. }
      apply Hsub in Hin.
      assert (Hg : map_get k (pages st) = Some nd)
        by (apply map_In_get; [apply Hkeyed | assumption]).
      rewrite <- (Hhit _ _ Hg). exact Ex.
    - rewrite fold_delete_get, (Hhit _ _ H0), H1. assumption.
    - rewrite fold_delete_get, (Hhit _ _ H0), H1. reflexivity.
    - rewrite fold_delete_get, (Hhit _ _ H0), H1. reflexivity.
    - rewrite fold_delete_get, (Hhit _ _ H0), H1. reflexivity.
    - rewrite fold_delete_get, (Hhit _ _ H0), H1. reflexivity. }
  unfold deleteCursor in Hrun. split.
  - intros n ->. destruct fa as [m|].
    + destruct (m <=? length ts)%nat; [discriminate|]. now apply Hdone.
    + now apply Hdone.
  - intros e ->. destruct fa as [m|].
    + destruct (m <=? length ts)%nat; [|discriminate].
      injection Hrun as <-. split; reflexivity.
    + discriminate.
Qed.

Lemma domainRange_In d (ps : JsMap string (MemoryNode N)) nd :
  In nd (domainRange d ps)
  <-> In nd (map_values ps) /\ String.eqb (domain nd) d = true.
Proof. unfold domainRange. now rewrite js_sort_In, filter_In. Qed.

Lemma dateRangeOf_In a b (ps : JsMap string (MemoryNode N)) nd :
  In nd (dateRangeOf a b ps)
  <-> In nd (map_values ps)
      /\ ((a <=? timestamp nd)%Z && (timestamp nd <=? b)%Z) = true.
Proof.
  unfold dateRangeOf, timestampIndex. now rewrite filter_In, js_sort_In.
Qed.
End DeleteFacts.

Section StoreInvariant.
Context {N : Type} `{JsNumber N}.
Implicit Types (st : CortexStorage N) (ps : JsMap string (MemoryNode N)).

Lemma map_set_In {V} (k k' : string) (v v' : V) (m : JsMap string V) :
  In (k', v') (map_set k v m) -> (k', v') = (k, v) \/ In (k', v') m.
Proof.
  induction m as [|[k0 v0] m IH]; simpl.
  - intros [E|[]]; auto.
  - destruct (String.eqb k k0); simpl; intros [E|Hin]; auto.
    destruct (IH Hin); auto.
Qed.

Lemma map_set_length {V} (k : string) (v : V) (m : JsMap string V) :
  length (map_set k v m) = if map_has k m then length m else S (length m).
Proof.
  rewrite <- !(map_keys_length (map_set k v m)), map_keys_set.
  destruct (map_has k m); rewrite ?length_app, !map_keys_length; simpl; lia.
Qed.

Lemma pagesKeyed_nil : pagesKeyed (@nil (string * MemoryNode N)).
Proof. split; [constructor | intros k nd []]. Qed.

Lemma pagesKeyed_set ps nd :
  pagesKeyed ps -> pagesKeyed (map_set (id nd) nd ps).
Proof.
  intros [Hnd Hkey]. split; [now apply map_keys_set_NoDup|].
  intros k nd' Hin. apply map_set_In in Hin. destruct Hin as [[= -> ->]|Hin]; auto.
Qed.

Lemma filter_length_perm {A} (f : A -> bool) l l' :
  Permutation l l' -> length (filter f l) = length (filter f l').
Proof.
  induction 1; simpl; auto.
  - destruct (f x); simpl; auto.
  - destruct (f x), (f y); simpl; auto.
  - congruence.
Qed.
End StoreInvariant.

Section Cleanup.
Context {N : Type} `{JsNumber N}.
Implicit Types (st : CortexStorage N).

(** X7.  On a store keyed by page id, a successful [deleteByDomain d]
    returns the number of stored pages whose domain is [d]; afterwards no
    stored page has that domain, every page of another domain and its
    embedding are as before, and a page of domain [d] has lost its record,
    its embedding and its vector in the index.  When it fails, pages and
    embeddings are as they were. *)
Theorem deleteByDomain_removes_domain d fa st st' r :
  pagesKeyed (pages st) ->
  deleteByDomain d fa st = (st', r) ->
  (forall n, r = Ok n ->
     n = length (filter (fun nd => String.eqb (domain nd) d)
                        (map_values (pages st)))
     /\ (forall nd, In nd (map_values (pages st')) -> domain nd <> d)
     /\ (forall k nd, map_get k (pages st) = Some nd -> domain nd <> d ->
           map_get k (pages st') = Some nd
           /\ map_get k (embeddings st') = map_get k (embeddings st))
     /\ (forall k nd, map_get k (pages st) = Some nd -> domain nd = d ->
           map_get k (pages st') = None
           /\ map_get k (embeddings st') = None
           /\ map_get k (vectors (annIndex st')) = None))
  /\ (forall e, r = Err e ->
        pages st' = pages st /\ embeddings st' = embeddings st).
Proof.
  intros Hkeyed. unfold deleteByDomain.
  destruct (ready st) as [[]|e0].
  - intros Hrun.
    destruct (deleteCursor_spec (fun nd => String.eqb (domain nd) d) _ _ _ _
                Hkeyed (domainRange_In d (pages st)) Hrun) as [Hok Herr].
    split; [|exact Herr].
    intros n Hn. destruct (Hok n Hn) as (Hc & Hnone & Hkeep & Hdel).
    split; [|split; [|split]].
    + rewrite Hc. unfold domainRange. apply js_sort_length.
    + intros nd Hin Hd. apply Hnone in Hin. apply String.eqb_neq in Hin.
      contradiction.
    + intros k nd Hget Hd. apply (Hkeep k nd Hget).
      now apply String.eqb_neq.
    + intros k nd Hget Hd. apply (Hdel k nd Hget). now apply String.eqb_eq.
  - intros [= <- <-]. split; [discriminate|]. intros e _. split; reflexivity.
Qed.

(** X8.  [deleteByDateRange a b] with [a <= b] deletes exactly the stored
    pages whose timestamp lies in the closed interval from [a] to [b]: it
    returns their number, no stored page is left in the interval, pages
    outside it keep their record and embedding, and pages inside it lose
    record, embedding and index vector.  With [b < a] the call rejects and
    the store is untouched; whenever it fails, pages and embeddings are as
    they were. *)
Theorem deleteByDateRange_inclusive a b fa st st' r :
  pagesKeyed (pages st) ->
  opened st = true ->
  deleteByDateRange a b fa st = (st', r) ->
  (forall n, r = Ok n ->
     (a <= b)%Z
     /\ n = length (filter (fun nd => (a <=? timestamp nd)%Z
                                      && (timestamp nd <=? b)%Z)
                           (map_values (pages st)))
     /\ (forall nd, In nd (map_values (pages st')) ->
           (timestamp nd < a \/ b < timestamp nd)%Z)
     /\ (forall k nd, map_get k (pages st) = Some nd ->
           (timestamp nd < a \/ b < timestamp nd)%Z ->
           map_get k (pages st') = Some nd
           /\ map_get k (embeddings st') = map_get k (embeddings st))
     /\ (forall k nd, map_get k (pages st) = Some nd ->
           (a <= timestamp nd <= b)%Z ->
           map_get k (pages st') = None
           /\ map_get k (embeddings st') = None
           /\ map_get k (vectors (annIndex st')) = None))
  /\ ((b < a)%Z -> r = Err (DbError "DataError") /\ st' = st)
  /\ (forall e, r = Err e ->
        pages st' = pages st /\ embeddings st' = embeddings st).
Proof.
  intros Hkeyed Hopen. unfold deleteByDateRange, ready. rewrite Hopen.
  destruct (b <? a)%Z eqn:Eba.
  - intros [= <- <-]. apply Z.ltb_lt in Eba.
    split; [discriminate|]. split; [auto|]. intros e _. split; reflexivity.
  - apply Z.ltb_ge in Eba. intros Hrun.
    destruct (deleteCursor_spec
                (fun nd => (a <=? timestamp nd)%Z && (timestamp nd <=? b)%Z)
                _ _ _ _ Hkeyed (dateRangeOf_In a b (pages st)) Hrun)
      as [Hok Herr].
    split; [|split; [lia | exact Herr]].
    intros n Hn. destruct (Hok n Hn) as (Hc & Hnone & Hkeep & Hdel).
    split; [assumption|]. split; [|split; [|split]].
    + rewrite Hc. unfold dateRangeOf, timestampIndex.
      apply filter_length_perm, js_sort_perm.
    + intros nd Hin. apply Hnone in Hin.
      apply andb_false_iff in Hin. rewrite Z.leb_gt, Z.leb_gt in Hin. lia.
    + intros k nd Hget Hout. apply (Hkeep k nd Hget).
      apply andb_false_iff. rewrite Z.leb_gt, Z.leb_gt. lia.
    + intros k nd Hget Hin. apply (Hdel k nd Hget).
      apply andb_true_iff. rewrite Z.leb_le, Z.leb_le. lia.
Qed.
End Cleanup.

Lemma twoPages_keyed : pagesKeyed (pages twoPages).
Proof.
  unfold twoPages, addMemoryNode. cbn [ready emptyStore opened fst pages].
  apply (pagesKeyed_set pageNew), (pagesKeyed_set pageOld), pagesKeyed_nil.
Qed.

Lemma deleteByDomain_removes_domain_witness :
  pagesKeyed (pages twoPages)
  /\ snd (deleteByDomain "a.example" None twoPages) = Ok 1
  /\ map_get "b"%string
       (pages (fst (deleteByDomain "a.example" None twoPages)))
     = Some pageNew
  /\ map_get "a"%string
       (pages (fst (deleteByDomain "a.example" None twoPages)))
     = None.
Proof.
  split; [exact twoPages_keyed|].
  destruct (deleteByDomain "a.example" None twoPages) as [st' r] eqn:E.
  destruct (deleteByDomain_removes_domain "a.example" None twoPages
              twoPages_keyed E) as [Hok _].
  assert (Hr : r = Ok 1)
    by (change r with (snd (st', r)); rewrite <- E; vm_compute; reflexivity).
  destruct (Hok 1 Hr) as (_ & _ & Hkeep & Hdel).
  split; [exact Hr|]. cbn [fst]. split.
  - apply (Hkeep "b"%string pageNew); [vm_compute; reflexivity|].
    vm_compute. discriminate.
  - apply (Hdel "a"%string pageOld); vm_compute; reflexivity.
Defined.

Lemma deleteByDateRange_inclusive_witness :
  pagesKeyed (pages twoPages)
  /\ snd (deleteByDateRange 1700000000000 1700000000999 None twoPages) = Ok 1
  /\ map_get "b"%string
       (pages (fst (deleteByDateRange 1700000000000 1700000000999 None
                      twoPages)))
     = Some pageNew.
Proof.
  split; [exact twoPages_keyed|].
  destruct (deleteByDateRange 1700000000000 1700000000999 None twoPages)
    as [st' r] eqn:E.
  destruct (deleteByDateRange_inclusive 1700000000000 1700000000999 None
              twoPages twoPages_keyed eq_refl E) as [Hok _].
  assert (Hr : r = Ok 1)
    by (change r with (snd (st', r)); rewrite <- E; vm_compute; reflexivity).
  destruct (Hok 1 Hr) as (_ & _ & _ & Hkeep & _).
  split; [exact Hr|]. cbn [fst].
  apply (Hkeep "b"%string pageNew); [vm_compute; reflexivity|].
  right. vm_compute. reflexivity.
Defined.

(* ------------------------------------------------------------------ *)
(** *** Wiping, upserting and listing *)

Section StoreMore.
Context {N : Type} `{JsNumber N}.
Implicit Types (st : CortexStorage N) (db : Database N).

Lemma gather_nil hs : gather (@nil (Z * list string)) hs = [].
Proof.
  unfold gather.
  assert (G : forall c : JsSet string,
            fold_left
              (fun candidates h =>
                 match map_get h (@nil (Z * list string)) with
                 | Some bucket =>
                     fold_left (fun c id => set_add id c) bucket candidates
                 | None => candidates
                 end) hs c = c).
  { induction hs as [|h hs IH]; intros c; simpl; [reflexivity|]. apply IH. }
  apply G.
Qed.

Lemma search_empty q k th (ix : ANNIndex N) :
  vectors ix = [] -> buckets ix = [] -> search q k th ix = Ok [].
Proof.
  intros Hv Hb. unfold search, candidatesFor. rewrite Hv, Hb, gather_nil.
  simpl. destruct (0 <? k)%nat; simpl; now destruct k.
Qed.

Lemma vectorSearch_empty q limit th iop st :
  opened st = true -> vectors (annIndex st) = [] -> buckets (annIndex st) = [] ->
  vectorSearch q limit th iop st = Ok [].
Proof.
  intros Ho Hv Hb. unfold vectorSearch, ready. rewrite Ho. cbn [bind].
  rewrite (search_empty q (limit * 2) th (annIndex st) Hv Hb). simpl.
  now destruct limit.
Qed.

(** X10.  [addMemoryNode] is an upsert on the page id: on a store keyed by
    page id a successful call keeps the store keyed, makes
    [getMemoryNode (id nd)] answer [nd], leaves every other id as it was,
    and raises the number of stored pages by one exactly when the id was
    new. *)
Theorem addMemoryNode_upsert (nd : MemoryNode N) st st' :
  pagesKeyed (pages st) ->
  addMemoryNode nd true st = (st', Ok tt) ->
  pagesKeyed (pages st')
  /\ getMemoryNode (id nd) true st' = Ok (Some nd)
  /\ (forall k, k <> id nd ->
        getMemoryNode k true st' = getMemoryNode k true st)
  /\ length (pages st')
     = (if map_has (id nd) (pages st) then length (pages st)
        else S (length (pages st)))
  /\ embeddings st' = embeddings st
  /\ annIndex st' = annIndex st.
Proof.
  intros Hkeyed. unfold addMemoryNode, getMemoryNode, ready.
  destruct (opened st) eqn:Ho; [|discriminate]. intros [= <-].
  cbn [opened pages embeddings annIndex bind].
  split; [now apply pagesKeyed_set|].
  split; [now rewrite map_get_set_eq|].
  split; [|split; [apply map_set_length | split; reflexivity]].
  intros k Hk. now rewrite map_get_set_neq.
Qed.

Lemma StronglySorted_app_inv {A} (R : A -> A -> Prop) l1 l2 :
  StronglySorted R (l1 ++ l2) ->
  forall a b, In a l1 -> In b l2 -> R a b.
Proof.
  induction l1 as [|x l1 IH]; simpl; intros Hs a b Ha Hb; [destruct Ha|].
  inversion Hs as [|? ? Hs' Hall]; subst.
  destruct Ha as [<-|Ha]; [|eauto].
  rewrite Forall_forall in Hall. apply Hall, in_or_app. now right.
Qed.

(** X11.  [getAllMemoryNodes] with a limit of at least 1 answers with the
    most recent pages: as many as the limit allows, newest first, all of
    them stored, and every stored page left out is at most as recent as
    each page of the answer. *)
Theorem getAllMemoryNodes_most_recent n st res :
  getAllMemoryNodes (Some (S n)) true st = Ok res ->
  length res = Nat.min (S n) (length (pages st))
  /\ StronglySorted (fun a b => (timestamp b <= timestamp a)%Z) res
  /\ (forall nd, In nd res -> In nd (map_values (pages st)))
  /\ (forall nd, In nd (map_values (pages st)) ->
        In nd res
        \/ forall a, In a res -> (timestamp nd <= timestamp a)%Z).
Proof.
  intros Hres.
  destruct (getAllMemoryNodes_limited_descending _ _ _ Hres) as [_ Hsorted].
  revert Hres. unfold getAllMemoryNodes. destruct (ready st); [|discriminate].
  cbn [bind]. intros Hres.
  set (l := rev (timestampIndex (pages st))) in *.
  assert (Er : res = firstn (S n) l) by (injection Hres as <-; reflexivity).
  clear Hres. subst res.
  assert (Hin : forall nd, In nd l <-> In nd (map_values (pages st))).
  { intros nd. unfold l, timestampIndex. now rewrite <- in_rev, js_sort_In. }
  assert (Hlen : length l = length (pages st)).
  { unfold l, timestampIndex, map_values.
    now rewrite length_rev, js_sort_length, length_map. }
  split; [now rewrite length_firstn, Hlen|].
  split; [exact Hsorted|]. split.
  - intros nd Hnd. apply Hin. revert Hnd. apply (slice0_In (S n)).
  - intros nd Hnd. apply Hin in Hnd.
    rewrite <- (firstn_skipn (S n) l) in Hnd.
    apply in_app_or in Hnd. destruct Hnd as [Hnd|Hnd]; [now left|]. right.
    intros x Hx.
    assert (Hs : StronglySorted (fun a b => (timestamp b <= timestamp a)%Z)
                   (firstn (S n) l ++ skipn (S n) l)).
    { rewrite firstn_skipn. apply StronglySorted_rev, timestampIndex_ascending. }
    eapply StronglySorted_app_inv in Hs; [exact Hs | exact Hx | exact Hnd].
Qed.
End StoreMore.

(* ------------------------------------------------------------------ *)
(** *** Keyword search and vector search of the store *)

Section SearchFacts.
Context {N : Type} `{JsNumber N}.
Implicit Types (st : CortexStorage N).

Lemma StronglySorted_map_in {A B} (R : A -> A -> Prop) (R' : B -> B -> Prop)
      (f : A -> B) l :
  (forall a b, In a l -> In b l -> R a b -> R' (f a) (f b)) ->
  StronglySorted R l -> StronglySorted R' (map f l).
Proof.
  intros HR Hs. induction Hs as [|x l Hs IH Hall]; simpl; constructor.
  - apply IH. intros a b Ha Hb. apply HR; now right.
  - rewrite Forall_forall in *. intros y Hy. apply in_map_iff in Hy.
    destruct Hy as (z & <- & Hz). apply HR; simpl; auto.
Qed.

Lemma includes_empty s : includes s EmptyString = true.
Proof. destruct s; reflexivity. Qed.

Lemma filter_length_pos {A} (f : A -> bool) l x :
  In x l -> f x = true -> 0 < length (filter f l).
Proof.
  intros Hin Hf. assert (Hx : In x (filter f l)) by (apply filter_In; auto).
  destruct (filter f l); [destruct Hx | simpl; lia].
Qed.

Lemma termScore_pos terms (nd : MemoryNode N) :
  0 < termScore terms nd <->
  exists term, In term terms
               /\ includes (toLowerCase (searchText nd)) term = true.
Proof.
  unfold termScore. split.
  - intros Hpos.
    destruct (filter _ terms) as [|t l] eqn:E; [simpl in Hpos; lia|].
    assert (Ht : In t (filter
                         (fun term => includes (toLowerCase (searchText nd)) term)
                         terms)) by (rewrite E; now left).
    apply filter_In in Ht. exists t. exact Ht.
  - intros (t & Hin & Ht). eapply filter_length_pos; eauto.
Qed.

(** X12.  Whatever [searchMemoryNodes] returns has at most [limit] pages,
    each a stored page whose lowercased title, text and keywords contain
    one of the whitespace-separated terms of the lowercased query, in
    descending order of the number of terms they contain. *)
Theorem searchMemoryNodes_sound query limit io st res :
  searchMemoryNodes query limit io st = Ok res ->
  let terms := split_ws (toLowerCase query) in
  length res <= limit
  /\ (forall nd, In nd res ->
        In nd (map_values (pages st))
        /\ exists term, In term terms
             /\ includes (toLowerCase (searchText nd)) term = true)
  /\ StronglySorted (fun a b => termScore terms b <= termScore terms a) res.
Proof.
  unfold searchMemoryNodes, getAllMemoryNodes.
  destruct (ready st); [|discriminate]. cbn [bind].
  destruct io; [|discriminate]. cbn [bind]. intros Hres.
  injection Hres as <-. set (terms := split_ws (toLowerCase query)).
  set (l := filter (fun r : MemoryNode N * nat => (0 <? snd r)%nat)
              (map (fun nd => (nd, termScore terms nd))
                   (timestampIndex (pages st)))).
  assert (Hl : forall p, In p l ->
             snd p = termScore terms (fst p)
             /\ 0 < snd p /\ In (fst p) (map_values (pages st))).
  { intros p Hp. unfold l in Hp. apply filter_In in Hp.
    destruct Hp as [Hp Hpos]. apply in_map_iff in Hp.
    destruct Hp as (nd & <- & Hnd). cbn [fst snd] in *.
    apply Nat.ltb_lt in Hpos. unfold timestampIndex in Hnd.
    apply js_sort_In in Hnd. auto. }
  set (gt := fun a b : MemoryNode N * nat => (snd a <? snd b)%nat).
  assert (Hsl : forall p, In p (slice0 limit (js_sort gt l)) -> In p l).
  { intros p Hp. apply slice0_In, js_sort_In in Hp. exact Hp. }
  split; [|split].
  - rewrite length_map. apply slice0_length.
  - intros nd Hnd. apply in_map_iff in Hnd. destruct Hnd as (p & <- & Hp).
    apply Hsl, Hl in Hp. destruct Hp as (Hs & Hpos & Hin).
    split; [assumption|]. apply termScore_pos. now rewrite <- Hs.
  - apply (@StronglySorted_map_in _ _
             (fun a b : MemoryNode N * nat => snd b <= snd a)).
    + intros x y Hx Hy Hxy. apply Hsl, Hl in Hx. apply Hsl, Hl in Hy.
      destruct Hx as [<- _], Hy as [<- _]. exact Hxy.
    + apply (@StronglySorted_firstn _ _ limit (js_sort gt l)).
      apply Sorted_StronglySorted; [intros x y z; lia|].
      eapply Sorted_weaken; [|apply js_sort_sorted].
      * intros x y Hxy. unfold gt in Hxy. apply Nat.ltb_ge in Hxy. exact Hxy.
      * intros x y Hxy. unfold gt in *. apply Nat.ltb_lt in Hxy.
        apply Nat.ltb_ge. lia.
Qed.

(** X13.  A query that is empty, or begins or ends with white space, has
    the empty string among its terms, and every text contains the empty
    string: [searchMemoryNodes] then returns stored pages whether or not
    they have anything to do with the query, as many as the limit
    allows. *)
Theorem searchMemoryNodes_blank_term query limit st :
  opened st = true ->
  In EmptyString (split_ws (toLowerCase query)) ->
  exists res,
    searchMemoryNodes query limit true st = Ok res
    /\ length res = Nat.min limit (length (pages st)).
Proof.
  intros Ho Hblank. unfold searchMemoryNodes, getAllMemoryNodes, ready.
  rewrite Ho. cbn [bind]. eexists. split; [reflexivity|].
  rewrite length_map. unfold slice0. rewrite length_firstn, js_sort_length.
  f_equal.
  rewrite forallb_filter_id.
  - unfold timestampIndex, map_values.
    now rewrite length_map, js_sort_length, length_map.
  - apply forallb_forall. intros p Hp. apply in_map_iff in Hp.
    destruct Hp as (nd & <- & _). cbn [snd]. apply Nat.ltb_lt.
    apply termScore_pos. exists EmptyString. split; [assumption|].
    apply includes_empty.
Qed.
End SearchFacts.

Section VectorSearchFacts.
Context {N : Type} `{JsNumber N}.
Implicit Types (st : CortexStorage N).

Lemma search_spec q k th (ix : ANNIndex N) r :
  search q k th ix = Ok r ->
  NoDup (map fst r)
  /\ forall p, In p r -> isMatch (vectors ix) q th p.
Proof.
  unfold search.
  destruct (scoreCandidates _ _ _ _) as [r'|] eqn:E; [|discriminate].
  cbn [bind]. intros [= <-].
  apply scoreCandidates_scored in E. destruct E as [-> Hall]. split.
  - apply sorted_fst_NoDup, scored_fst_NoDup, candidatesFor_NoDup.
  - intros p Hin. apply slice0_In, js_sort_In in Hin.
    apply scored_In in Hin; [tauto | exact Hall].
Qed.

Lemma mapM_combine {A B} (f : A -> result B) l : forall bs,
  mapM f l = Ok bs ->
  forall a b, In (a, b) (combine l bs) -> f a = Ok b.
Proof.
  induction l as [|x l IH]; intros bs; simpl.
  - intros _ a b [].
  - destruct (f x) as [y|] eqn:Ex; [|discriminate]. cbn [bind].
    destruct (mapM f l) as [ys|]; [|discriminate]. cbn [bind].
    intros [= <-] a b [[= <- <-]|Hin]; [assumption|]. eapply IH; eauto.
Qed.

Lemma matchesOf_ids cm : forall nodes x,
  In x (map (@nodeId N) (matchesOf (combine cm nodes))) -> In x (map fst cm).
Proof.
  induction cm as [|c cm IH]; intros [|o nodes] x; simpl; try tauto.
  rewrite map_app, in_app_iff. intros [Hx|Hx]; [|right; eapply IH; eauto].
  destruct o; simpl in Hx; [|tauto]. destruct Hx as [<-|[]]. now left.
Qed.

Lemma matchesOf_NoDup cm : forall nodes,
  NoDup (map fst cm) ->
  NoDup (map (@nodeId N) (matchesOf (combine cm nodes))).
Proof.
  induction cm as [|c cm IH]; intros [|o nodes] Hnd; simpl; try constructor.
  inversion Hnd as [|? ? Hc Hnd']; subst. rewrite map_app.
  destruct o; simpl; [|now apply IH].
  constructor; [|now apply IH].
  intros Hin. apply matchesOf_ids in Hin. contradiction.
Qed.
End VectorSearchFacts.

Section VectorSearchSound.
Context {N : Type} `{JsNumber N}.
Implicit Types (st : CortexStorage N).

Lemma vectorSearch_spec q limit th iop st res :
  vectorSearch q limit th iop st = Ok res ->
  length res <= limit
  /\ NoDup (map (@nodeId N) res)
  /\ forall m, In m res ->
       map_get (nodeId m) (pages st) = Some (node m)
       /\ isMatch (vectors (annIndex st)) q th (nodeId m, similarity m)
       /\ semanticSimilarity (reason m) = similarity m.
Proof.
  unfold vectorSearch. destruct (ready st); [|discriminate]. cbn [bind].
  destruct (search q (limit * 2) th (annIndex st)) as [cm|] eqn:Es;
    [|discriminate].
  cbn [bind]. destruct (mapM _ cm) as [nodes|] eqn:Em; [|discriminate].
  cbn [bind]. intros [= <-]. fold (matchesOf (combine cm nodes)).
  destruct (search_spec _ _ _ _ Es) as [Hnd Hmatch].
  split; [apply slice0_length|]. split.
  - rewrite slice0_map. apply NoDup_firstn.
    eapply Permutation_NoDup; [|apply (matchesOf_NoDup cm nodes Hnd)].
    symmetry. apply Permutation_map, js_sort_perm.
  - intros m Hin. apply slice0_In, js_sort_In in Hin.
    unfold matchesOf in Hin. apply in_flat_map in Hin.
    destruct Hin as ([c o] & Hc & Hm). cbn [fst snd] in Hm.
    destruct o as [nd|]; [|destruct Hm]. destruct Hm as [<-|[]].
    cbn [nodeId similarity node reason semanticSimilarity].
    pose proof (mapM_combine _ _ Em _ _ Hc) as Hget. cbn beta in Hget.
    unfold getMemoryNode in Hget. destruct (ready st); [|discriminate].
    cbn [bind] in Hget. destruct (iop (fst c)); [|discriminate].
    injection Hget as Hget. split; [assumption|]. split; [|reflexivity].
    apply in_combine_l in Hc. rewrite <- surjective_pairing. now apply Hmatch.
Qed.

(** X14.  Whatever [vectorSearch] returns has at most [limit] matches with
    distinct node ids; the node of each match is the page stored under its
    id, its similarity is the cosine of the query with the vector the index
    holds for that id and reaches the threshold, and the reason repeats
    that similarity. *)
Theorem vectorSearch_sound q limit th iop st res :
  vectorSearch q limit th iop st = Ok res ->
  length res <= limit
  /\ NoDup (map (@nodeId N) res)
  /\ forall m, In m res ->
       map_get (nodeId m) (pages st) = Some (node m)
       /\ isMatch (vectors (annIndex st)) q th (nodeId m, similarity m)
       /\ semanticSimilarity (reason m) = similarity m.
Proof. apply vectorSearch_spec. Qed.

Lemma searchMemoryNodes_stored query limit io st res nd :
  searchMemoryNodes query limit io st = Ok res -> In nd res ->
  In nd (map_values (pages st)).
Proof.
  unfold searchMemoryNodes, getAllMemoryNodes.
  destruct (ready st); [|discriminate]. cbn [bind].
  destruct io; [|discriminate]. cbn [bind]. intros Hres. injection Hres as <-.
  intros Hin. apply in_map_iff in Hin. destruct Hin as (p & <- & Hp).
  apply slice0_In, js_sort_In, filter_In in Hp. destruct Hp as [Hp _].
  apply in_map_iff in Hp. destruct Hp as (x & <- & Hx). cbn [fst].
  unfold timestampIndex in Hx. now apply js_sort_In in Hx.
Qed.
End VectorSearchSound.

(* ------------------------------------------------------------------ *)
(** *** Hydration, settings, privacy rules and the graph *)

Section Hydration.
Context {N : Type} `{JsNumber N}.
Implicit Types (db : Database N) (ix : ANNIndex N).

Lemma fold_add_other (l : list (string * Embedding N)) : forall ix k,
  ~ In k (map fst l) ->
  map_get k (vectors (fold_left (fun ix ne => add (fst ne) (vector (snd ne)) ix)
                                l ix))
  = map_get k (vectors ix).
Proof.
  induction l as [|[k0 e0] l IH]; intros ix k Hk; simpl; [reflexivity|].
  simpl in Hk. rewrite IH by tauto. unfold add. cbn [vectors].
  apply map_get_set_neq. intros ->. tauto.
Qed.

Lemma fold_add_loaded (l : list (string * Embedding N)) : forall ix k e,
  NoDup (map fst l) -> In (k, e) l ->
  map_get k (vectors (fold_left (fun ix ne => add (fst ne) (vector (snd ne)) ix)
                                l ix))
  = Some (vector e).
Proof.
  induction l as [|[k0 e0] l IH]; intros ix k e Hnd Hin; simpl; [destruct Hin|].
  inversion Hnd as [|? ? Hk0 Hnd']; subst.
  destruct Hin as [[= -> ->]|Hin]; [|now apply IH].
  rewrite fold_add_other by assumption. unfold add. cbn [vectors].
  apply map_get_set_eq.
Qed.

Lemma byKey_perm {V} (m : JsMap string V) : Permutation (byKey m) (map_values m).
Proof. unfold byKey, map_values. apply Permutation_map, js_sort_perm. Qed.

(** X15.  The first [hydrateIndex] on a database whose embedding store is
    keyed by node id loads every stored embedding into the index (the index
    then answers with the stored vector for each of them), raises the flag
    and leaves pages and embeddings alone; a second call changes nothing;
    and when the embeddings cannot be read the call changes nothing and
    the flag stays down. *)
Theorem hydrateIndex_loads db :
  embeddingsKeyed (embeddings (core db)) ->
  opened (core db) = true ->
  isHydrated db = false ->
  isHydrated (hydrateIndex true db) = true
  /\ (forall k r, map_get k (embeddings (core db)) = Some r ->
        map_get k (vectors (annIndex (core (hydrateIndex true db))))
        = Some (er_vector r))
  /\ pages (core (hydrateIndex true db)) = pages (core db)
  /\ embeddings (core (hydrateIndex true db)) = embeddings (core db)
  /\ hydrateIndex true (hydrateIndex true db) = hydrateIndex true db
  /\ hydrateIndex false db = db.
Proof.
  intros [Hnd Hkey] Ho Hh. unfold hydrateIndex at 1 2 3 4.
  unfold hydrateIndex at 2 3. unfold hydrateIndex at 2.
  unfold internalGetAllEmbeddings. rewrite Hh, Ho.
  cbn [isHydrated core withIndex annIndex pages embeddings].
  split; [reflexivity|]. split; [|repeat split].
  - intros k r Hget.
    apply (fold_add_loaded _ _ k
             {| vector := er_vector r; model := er_model r;
                emb_timestamp := er_timestamp r |}).
    + rewrite map_map.
      eapply Permutation_NoDup; [|exact Hnd].
      transitivity (map (@er_nodeId N) (map_values (embeddings (core db)))).
      * unfold map_keys, map_values. rewrite map_map.
        erewrite map_ext_in; [reflexivity|].
        intros [k' r'] Hin. cbn [fst snd]. symmetry. now apply Hkey.
      * symmetry. apply Permutation_map, byKey_perm.
    + apply in_map_iff. exists r. split.
      * unfold embeddingOf. f_equal. apply Hkey. now apply map_get_In.
      * eapply Permutation_in; [symmetry; apply byKey_perm|].
        apply in_map_iff. exists (k, r). split; [reflexivity|].
        now apply map_get_In.
Qed.
End Hydration.

Section Wipe.
Context {N : Type} `{JsNumber N}.
Implicit Types (db : Database N).

(** What a hydration that completes puts into the index. *)
Lemma hydration_adds (es : JsMap string (EmbeddingRecord N)) ix k r :
  embeddingsKeyed es ->
  map_get k es = Some r ->
  map_get k
    (vectors (fold_left (fun ix ne => add (fst ne) (vector (snd ne)) ix)
                        (map (@embeddingOf N) (byKey es)) ix))
  = Some (er_vector r).
Proof.
  intros [Hnd Hkey] Hget.
  apply (fold_add_loaded _ _ k
           {| vector := er_vector r; model := er_model r;
              emb_timestamp := er_timestamp r |}).
  - rewrite map_map.
    eapply Permutation_NoDup; [|exact Hnd].
    transitivity (map (@er_nodeId N) (map_values es)).
    + unfold map_keys, map_values. rewrite map_map.
      erewrite map_ext_in; [reflexivity|].
      intros [k' r'] Hin. cbn [fst snd]. symmetry. now apply Hkey.
    + symmetry. apply Permutation_map, byKey_perm.
  - apply in_map_iff. exists r. split.
    + unfold embeddingOf. f_equal. apply Hkey. now apply map_get_In.
    + eapply Permutation_in; [symmetry; apply byKey_perm|].
      apply in_map_iff. exists (k, r). split; [reflexivity|].
      now apply map_get_In.
Qed.

(** X9.  [clearAllData] on an open database.  When the transaction
    succeeds, the statistics count zero pages, clusters and edges, the page
    listing is empty, the settings are back to the defaults and no privacy
    rule is left; when it fails, the call rejects and pages and embeddings
    are all still stored.  The index is emptied before the transaction
    runs: when no hydration is in flight it is empty afterwards in both
    cases and every [vectorSearch] answers with no match.  When the
    hydration started by [init] is still in flight, it refills the index
    after it was emptied: afterwards the index holds the vector of every
    embedding that was stored, also after a wipe that succeeded. *)
Theorem clearAllData_outcome io hydrating est db db' r :
  opened (core db) = true ->
  clearAllData io hydrating db = (db', r) ->
  (io = true ->
     r = Ok tt
     /\ pages (core db') = [] /\ embeddings (core db') = []
     /\ getStats true true true est db'
        = Ok {| pageCount := 0; clusterCount := 0; edgeCount := 0;
                storageSize := match est with
                               | Some (Ok (Some usage)) => usage
                               | _ => 0%Z
                               end |}
     /\ getAllMemoryNodes None true (core db') = Ok []
     /\ getSettings true db' = Ok defaultSettings
     /\ getPrivacyRules true db' = Ok [])
  /\ (io = false ->
      r = Err (DbError "Failed to clear all data")
      /\ pages (core db') = pages (core db)
      /\ embeddings (core db') = embeddings (core db))
  /\ (hydrating = false \/ isHydrated db = true ->
      vectors (annIndex (core db')) = []
      /\ buckets (annIndex (core db')) = []
      /\ forall q limit th iop,
           vectorSearch q limit th iop (core db') = Ok [])
  /\ (hydrating = true -> isHydrated db = false ->
      embeddingsKeyed (embeddings (core db)) ->
      isHydrated db' = true
      /\ forall k e, map_get k (embeddings (core db)) = Some e ->
           map_get k (vectors (annIndex (core db'))) = Some (er_vector e)).
Proof.
  intros Ho. unfold clearAllData, ready. rewrite Ho.
  set (cleared := setCore db (withIndex (core db) (clear (annIndex (core db))))).
  set (db1 := if hydrating then hydrateIndex true cleared else cleared).
  assert (Hopen : opened (core db1) = true).
  { unfold db1, cleared, hydrateIndex, internalGetAllEmbeddings, setCore.
    cbn [core isHydrated withIndex opened]. rewrite Ho.
    destruct hydrating, (isHydrated db); exact Ho || reflexivity. }
  assert (Hstores : pages (core db1) = pages (core db)
                    /\ embeddings (core db1) = embeddings (core db)).
  { unfold db1, cleared, hydrateIndex, internalGetAllEmbeddings, setCore.
    cbn [core isHydrated withIndex opened]. rewrite Ho.
    destruct hydrating, (isHydrated db); split; reflexivity. }
  assert (Hplain : hydrating = false \/ isHydrated db = true ->
            vectors (annIndex (core db1)) = []
            /\ buckets (annIndex (core db1)) = []).
  { intros Hc. unfold db1, cleared, hydrateIndex, setCore.
    cbn [core isHydrated withIndex annIndex].
    destruct Hc as [-> | ->]; [split; reflexivity|].
    destruct hydrating; split; reflexivity. }
  assert (Hfill : hydrating = true -> isHydrated db = false ->
            embeddingsKeyed (embeddings (core db)) ->
            isHydrated db1 = true
            /\ forall k e, map_get k (embeddings (core db)) = Some e ->
                 map_get k (vectors (annIndex (core db1)))
                 = Some (er_vector e)).
  { intros -> Hh Hkeyed. unfold db1, cleared, hydrateIndex,
      internalGetAllEmbeddings, setCore.
    cbn [core isHydrated withIndex opened embeddings annIndex].
    rewrite Hh, Ho. cbn [isHydrated core withIndex annIndex].
    split; [reflexivity|]. intros k e Hget. now apply hydration_adds. }
  destruct Hstores as [Hp He].
  destruct io; intros [= <- <-]; cbn [core pages embeddings annIndex isHydrated].
  - split; [|split; [discriminate|split]].
    + intros _. unfold getStats, getAllMemoryNodes, getSettings,
        getPrivacyRules, ready.
      cbn [core opened pages clusters graph_edges settings rules].
      rewrite Hopen. repeat split.
    + intros Hc. destruct (Hplain Hc) as [Hv Hb].
      split; [assumption|]. split; [assumption|].
      intros. apply vectorSearch_empty; assumption.
    + exact Hfill.
  - split; [discriminate|]. split; [|split].
    + intros _. split; [reflexivity|]. split; assumption.
    + intros Hc. destruct (Hplain Hc) as [Hv Hb].
      split; [assumption|]. split; [assumption|].
      intros. apply vectorSearch_empty; assumption.
    + exact Hfill.
Qed.
End Wipe.

Section SettingsFacts.
Context {N : Type} `{JsNumber N}.
Implicit Types (db : Database N).

(** X16.  On an open database [getSettings] answers with the stored
    settings, or with the defaults (capture enabled, nothing excluded,
    500 MiB) when none were stored.  A successful [updateSettings p] stores
    the current settings overridden by the fields present in [p], so that
    [getSettings] then answers with exactly that, and touches nothing else.
    When the read of the current settings fails, the promise of
    [updateSettings] is never settled and nothing is written. *)
Theorem updateSettings_merges p db :
  opened (core db) = true ->
  let current := match settings db with
                 | Some s => s
                 | None => defaultSettings
                 end in
  getSettings true db = Ok current
  /\ snd (updateSettings p true true db) = Settled (Ok tt)
  /\ getSettings true (fst (updateSettings p true true db))
     = Ok (mergeSettings current p)
  /\ core (fst (updateSettings p true true db)) = core db
  /\ rules (fst (updateSettings p true true db)) = rules db
  /\ (forall io_put, updateSettings p false io_put db = (db, Pending)).
Proof.
  intros Ho current. unfold updateSettings, getSettings, ready.
  rewrite Ho. cbn [bind fst snd core settings rules]. rewrite Ho.
  repeat split.
Qed.

(** X17.  On a rule store keyed by rule id, a successful [addPrivacyRule r]
    makes [r] the one rule listed under its id (an older rule with that id
    is replaced) and keeps every rule with another id; a successful
    [deletePrivacyRule] of that id then leaves no rule with it and keeps
    the others. *)
Theorem privacy_rules_upsert_delete (r : PrivacyRule) db :
  opened (core db) = true ->
  rulesKeyed (rules db) ->
  let db1 := fst (addPrivacyRule r true db) in
  let db2 := fst (deletePrivacyRule (rule_id r) true db1) in
  (exists rs, getPrivacyRules true db1 = Ok rs
     /\ In r rs
     /\ (forall r', In r' rs -> rule_id r' = rule_id r -> r' = r)
     /\ (forall r', rule_id r' <> rule_id r ->
           (In r' rs <-> In r' (map_values (rules db)))))
  /\ (exists rs, getPrivacyRules true db2 = Ok rs
     /\ (forall r', In r' rs <->
           In r' (map_values (rules db)) /\ rule_id r' <> rule_id r)).
Proof.
  intros Ho [Hnd Hkey] db1 db2. subst db1 db2.
  unfold addPrivacyRule, deletePrivacyRule, getPrivacyRules, ready.
  rewrite Ho. cbn [fst core setRules rules bind]. rewrite Ho. cbn [fst bind].
  cbn [core setRules rules]. rewrite Ho. cbn [bind].
  set (rs1 := map_set (rule_id r) r (rules db)).
  assert (Hnd1 : NoDup (map_keys rs1)) by now apply map_keys_set_NoDup.
  assert (Hkey1 : forall k r', In (k, r') rs1 -> rule_id r' = k).
  { intros k r' Hin. apply map_set_In in Hin.
    destruct Hin as [[= -> ->]|Hin]; auto. }
  assert (Hval : forall (m : JsMap string PrivacyRule) r',
             NoDup (map_keys m) ->
             (forall k x, In (k, x) m -> rule_id x = k) ->
             (In r' (map_values m) <-> map_get (rule_id r') m = Some r')).
  { intros m r' Hn Hk. split.
    - intros Hin. apply in_map_iff in Hin.
      destruct Hin as ([k x] & Hx & Hin). simpl in Hx; subst x.
      rewrite (Hk _ _ Hin). now apply map_In_get.
    - intros Hget. apply map_get_In in Hget. apply in_map_iff.
      exists (rule_id r', r'). auto. }
  assert (Hby : forall (m : JsMap string PrivacyRule) r',
             In r' (byKey m) <-> In r' (map_values m)).
  { intros m r'. split; apply Permutation_in;
      [|symmetry]; apply byKey_perm. }
  split.
  - eexists. split; [reflexivity|]. split; [|split].
    + apply Hby, Hval; auto. unfold rs1. apply map_get_set_eq.
    + intros r' Hin Hid. apply (proj1 (Hby _ _)) in Hin.
      apply (proj1 (Hval _ _ Hnd1 Hkey1)) in Hin.
      rewrite Hid in Hin. unfold rs1 in Hin. rewrite map_get_set_eq in Hin.
      congruence.
    + intros r' Hid. rewrite Hby, !Hval by auto. unfold rs1.
      now rewrite map_get_set_neq.
  - eexists. split; [reflexivity|]. intros r'. rewrite Hby.
    unfold map_values, map_delete. rewrite in_map_iff. split.
    + intros ([k x] & Hx & Hin). simpl in Hx; subst x.
      apply filter_In in Hin. destruct Hin as [Hin Hne]. cbn [fst] in Hne.
      pose proof (Hkey1 _ _ Hin) as Hk. subst k.
      apply negb_true_iff, String.eqb_neq in Hne.
      split; [|congruence].
      apply (proj2 (Hval _ _ Hnd Hkey)). apply map_In_get in Hin; auto.
      unfold rs1 in Hin. rewrite map_get_set_neq in Hin; congruence.
    + intros [Hin Hid]. apply (proj1 (Hval _ _ Hnd Hkey)) in Hin.
      exists (rule_id r', r'). split; [reflexivity|].
      apply filter_In. split.
      * apply map_get_In. unfold rs1. rewrite map_get_set_neq; auto.
      * cbn [fst]. apply negb_true_iff, String.eqb_neq. congruence.
Qed.
End SettingsFacts.

Section GraphFacts.
Context {N : Type} `{JsNumber N}.
Implicit Types (db : Database N).

Lemma mapM_length {A B} (f : A -> result B) l : forall bs,
  mapM f l = Ok bs -> length bs = length l.
Proof.
  induction l as [|x l IH]; intros bs; simpl.
  - now intros [= <-].
  - destruct (f x); [|discriminate]. cbn [bind].
    destruct (mapM f l) as [ys|]; [|discriminate]. cbn [bind].
    intros [= <-]. simpl. f_equal. now apply IH.
Qed.

Lemma mapM_In {A B} (f : A -> result B) l : forall bs b,
  mapM f l = Ok bs -> In b bs -> exists a, In a l /\ f a = Ok b.
Proof.
  induction l as [|x l IH]; intros bs b; simpl.
  - intros [= <-] [].
  - destruct (f x) as [y|] eqn:Ex; [|discriminate]. cbn [bind].
    destruct (mapM f l) as [ys|]; [|discriminate]. cbn [bind].
    intros [= <-] [<-|Hin]; [eauto|].
    destruct (IH ys b eq_refl Hin) as (a & Ha & Hf). eauto.
Qed.

Lemma mapM_fails {A B} (f : A -> result B) l a e :
  In a l -> f a = Err e -> exists e', mapM f l = Err e'.
Proof.
  induction l as [|x l IH]; simpl; intros Hin Hf; [destruct Hin|].
  destruct Hin as [->|Hin].
  - rewrite Hf. simpl. eauto.
  - destruct (f x); simpl; [|eauto].
    destruct (IH Hin Hf) as [e' ->]. simpl. eauto.
Qed.

Lemma flat_map_some_length {A} (l : list (option A)) :
  length (flat_map (fun o => match o with Some x => [x] | None => [] end) l)
  <= length l.
Proof. induction l as [|[x|] l IH]; simpl; lia. Qed.

Lemma edgesFrom_In nid (es : JsMap string (GraphEdgeRecord N)) e :
  In e (edgesFrom nid es) <-> In e (map_values es) /\ fromNode e = nid.
Proof.
  unfold edgesFrom. rewrite filter_In, String.eqb_eq.
  split; intros [Hin Hf]; (split; [|assumption]); revert Hin;
    apply Permutation_in; [|symmetry]; apply byKey_perm.
Qed.

Lemma mapM_all_ok {A B} (f : A -> result B) (g : A -> B) l :
  (forall a, In a l -> f a = Ok (g a)) -> mapM f l = Ok (map g l).
Proof.
  induction l as [|x l IH]; simpl; intros Hall; [reflexivity|].
  rewrite (Hall x) by now left. cbn [bind].
  rewrite IH by (intros a Ha; apply Hall; now right). reflexivity.
Qed.

Lemma followedEdges_In nid limit db e :
  In e (followedEdges nid limit db) ->
  In e (map_values (graph_edges db)) /\ fromNode e = nid.
Proof.
  unfold followedEdges. intros Hin. apply slice0_In, js_sort_In in Hin.
  now apply edgesFrom_In.
Qed.

(** X18.  [getRelatedNodes nid limit] follows at most [limit] stored edges
    that start at [nid] (all of them when there are at most [limit]).
    When it resolves, it answers with at most [limit] pages, each the
    stored page at the far end of such an edge.  When the page lookup of
    one of the followed edges fails, the promise is never settled; when
    all of them succeed, it resolves with exactly the stored pages found
    at the far ends of the followed edges. *)
Theorem getRelatedNodes_sound nid limit iop db :
  opened (core db) = true ->
  (forall res, getRelatedNodes nid limit true iop db = Settled (Ok res) ->
     length res <= limit
     /\ forall nd, In nd res ->
          exists e, In e (map_values (graph_edges db))
                    /\ fromNode e = nid
                    /\ map_get (toNode e) (pages (core db)) = Some nd)
  /\ length (followedEdges nid limit db) <= limit
  /\ (forall e, In e (followedEdges nid limit db) ->
        In e (map_values (graph_edges db)) /\ fromNode e = nid)
  /\ (length (edgesFrom nid (graph_edges db)) <= limit ->
      forall e, In e (map_values (graph_edges db)) -> fromNode e = nid ->
      In e (followedEdges nid limit db))
  /\ ((exists e, In e (followedEdges nid limit db) /\ iop (toNode e) = false) ->
      getRelatedNodes nid limit true iop db = Pending)
  /\ ((forall e, In e (followedEdges nid limit db) -> iop (toNode e) = true) ->
      exists res,
        getRelatedNodes nid limit true iop db = Settled (Ok res)
        /\ length res <= limit
        /\ forall nd, In nd res <->
             exists e, In e (followedEdges nid limit db)
                       /\ map_get (toNode e) (pages (core db)) = Some nd).
Proof.
  intros Ho.
  assert (Hshape : getRelatedNodes nid limit true iop db
            = match mapM (fun i => getMemoryNode i (iop i) (core db))
                         (map (@toNode N) (followedEdges nid limit db)) with
              | Ok nodes =>
                  Settled (Ok (flat_map (fun o => match o with
                                                  | Some nd => [nd]
                                                  | None => []
                                                  end) nodes))
              | Err _ => Pending
              end).
  { unfold getRelatedNodes, followedEdges, ready. now rewrite Ho. }
  rewrite Hshape.
  assert (Hlen : length (followedEdges nid limit db) <= limit)
    by apply slice0_length.
  split; [|split; [exact Hlen|split; [apply followedEdges_In|split; [|split]]]].
  - intros res. destruct (mapM _ _) as [nodes|] eqn:Em; [|discriminate].
    intros [= <-]. split.
    + etransitivity; [apply flat_map_some_length|].
      now rewrite (mapM_length _ _ Em), length_map.
    + intros nd Hnd. apply in_flat_map in Hnd.
      destruct Hnd as ([x|] & Hx & Hnd); [|destruct Hnd].
      destruct Hnd as [<-|[]].
      destruct (mapM_In _ _ _ Em Hx) as (i & Hi & Hget).
      apply in_map_iff in Hi. destruct Hi as (e & <- & He).
      apply followedEdges_In in He. destruct He as [He Hfrom].
      exists e. split; [assumption|]. split; [assumption|].
      unfold getMemoryNode, ready in Hget. rewrite Ho in Hget.
      cbn [bind] in Hget. destruct (iop (toNode e)); [|discriminate].
      now injection Hget.
  - intros Hall e He Hfrom. unfold followedEdges. rewrite slice0_all.
    + apply js_sort_In, edgesFrom_In. auto.
    + now rewrite js_sort_length.
  - intros (e & He & Hio).
    destruct (@mapM_fails _ _
                (fun i => getMemoryNode i (iop i) (core db))
                (map (@toNode N) (followedEdges nid limit db)) (toNode e)
                (DbError "Failed to get memory node")) as [e' ->];
      [now apply in_map | | reflexivity].
    unfold getMemoryNode, ready. rewrite Ho, Hio. reflexivity.
  - intros Hall.
    rewrite (@mapM_all_ok _ _ _ (fun i => map_get i (pages (core db)))).
    2:{ intros i Hi. apply in_map_iff in Hi. destruct Hi as (e & <- & He).
        unfold getMemoryNode, ready. rewrite Ho, (Hall e He). reflexivity. }
    eexists. split; [reflexivity|]. split.
    + etransitivity; [apply flat_map_some_length|].
      now rewrite !length_map.
    + intros nd. rewrite in_flat_map. split.
      * intros ([x|] & Hx & Hnd); [|destruct Hnd].
        destruct Hnd as [<-|[]].
        apply in_map_iff in Hx. destruct Hx as (i & Hget & Hi).
        apply in_map_iff in Hi. destruct Hi as (e & <- & He). eauto.
      * intros (e & He & Hget). exists (Some nd). split; [|now left].
        apply in_map_iff. exists (toNode e). split; [assumption|].
        now apply in_map.
Qed.

Lemma edgeId_inj a : forall a' b b',
  no_colon a = true -> no_colon a' = true ->
  edgeId a b = edgeId a' b' -> a = a' /\ b = b'.
Proof.
  unfold edgeId.
  induction a as [|c a IH]; intros [|c' a'] b b'; simpl; intros Ha Ha' E.
  - injection E as E. auto.
  - injection E as Ec E. subst c'. simpl in Ha'. discriminate.
  - injection E as Ec E. subst c. simpl in Ha. discriminate.
  - injection E as Ec E. subst c'.
    apply andb_true_iff in Ha, Ha'.
    destruct (IH a' b b' (proj2 Ha) (proj2 Ha') E) as [-> ->]. auto.
Qed.

(** X19.  The key of a graph edge is [fromNode + ":" + toNode].  Two
    edges between different pairs of ids are stored side by side when
    neither source id contains a colon.  Without that, keys collide: the
    edge from [x:y] to [z] and the edge from [x] to [y:z] have the same
    key, and adding the second replaces the first. *)
Theorem graph_edge_keys s s' t t' db :
  opened (core db) = true ->
  (forall a b a' b',
     no_colon a = true -> no_colon a' = true -> (a, b) <> (a', b') ->
     let db2 := fst (addGraphEdge a' b' s' t' true
                       (fst (addGraphEdge a b s t true db))) in
     map_get (edgeId a b) (graph_edges db2)
     = Some {| ge_id := edgeId a b; fromNode := a; toNode := b;
               strength := s; ge_timestamp := t |}
     /\ map_get (edgeId a' b') (graph_edges db2)
        = Some {| ge_id := edgeId a' b'; fromNode := a'; toNode := b';
                  strength := s'; ge_timestamp := t' |})
  /\ (forall x y z,
        let a := (x ++ ":" ++ y)%string in
        let b' := (y ++ ":" ++ z)%string in
        let db1 := fst (addGraphEdge a z s t true db) in
        let db2 := fst (addGraphEdge x b' s' t' true db1) in
        map_get (edgeId a z) (graph_edges db2)
        = Some {| ge_id := edgeId x b'; fromNode := x; toNode := b';
                  strength := s'; ge_timestamp := t' |}
        /\ length (graph_edges db2) = length (graph_edges db1)).
Proof.
  intros Ho. unfold addGraphEdge, ready. rewrite Ho.
  cbn [fst core graph_edges]. rewrite Ho. cbn [fst graph_edges]. split.
  - intros a b a' b' Ha Ha' Hne. cbn zeta. split.
    + rewrite map_get_set_neq; [apply map_get_set_eq|].
      intros E. apply edgeId_inj in E; auto. destruct E; congruence.
    + apply map_get_set_eq.
  - intros x y z. cbn zeta.
    assert (E : edgeId (x ++ ":" ++ y) z = edgeId x (y ++ ":" ++ z)).
    { unfold edgeId. induction x as [|c x IH]; [reflexivity|].
      cbn [append]. f_equal. exact IH. }
    rewrite E. split; [apply map_get_set_eq|].
    rewrite map_set_length. unfold map_has. now rewrite map_get_set_eq.
Qed.
End GraphFacts.

(* ------------------------------------------------------------------ *)
(** *** The theorems above on the fixtures *)

Lemma clearAllData_outcome_witness :
  let db' := fst (clearAllData false true fixDb) in
  pages (core db') = pages (core fixDb)
  /\ map_get "a"%string (vectors (annIndex (core db'))) = Some (axisVector 1)
  /\ exists m,
       vectorSearch (axisVector 1) 5 (ofZ 0) (fun _ => true) (core db')
       = Ok [m] /\ nodeId m = "a"%string.
Proof.
  intros db'.
  destruct (@clearAllData_outcome _ _ false true None fixDb db'
              (snd (clearAllData false true fixDb)) eq_refl)
    as (_ & Hf & _ & Hh); [vm_compute; reflexivity|].
  destruct (Hf eq_refl) as (_ & Hp & _).
  destruct (Hh eq_refl eq_refl) as [_ Hv].
  { split; [repeat constructor; simpl; tauto|].
    intros k e [[= <- <-]|[]]. reflexivity. }
  split; [exact Hp|]. split.
  - apply (Hv "a"%string
             {| er_nodeId := "a"; er_vector := axisVector 1;
                er_model := "fallback"; er_timestamp := 1700000000000 |}).
    reflexivity.
  - eexists. split; [vm_compute; reflexivity | reflexivity].
Defined.

Lemma addMemoryNode_upsert_witness :
  getMemoryNode "b"%string true twoPages = Ok (Some pageNew)
  /\ length (pages twoPages) = 2.
Proof.
  destruct (@addMemoryNode_upsert _ pageNew
              (fst (addMemoryNode pageOld true emptyStore)) twoPages)
    as (_ & Hg & _ & Hl & _).
  - apply (pagesKeyed_set pageOld), pagesKeyed_nil.
  - vm_compute. reflexivity.
  - split; [exact Hg | exact Hl].
Defined.

Lemma getAllMemoryNodes_most_recent_witness :
  getAllMemoryNodes (Some 1) true twoPages = Ok [pageNew]
  /\ forall nd, In nd (map_values (pages twoPages)) ->
       In nd [pageNew]
       \/ forall a, In a [pageNew] -> (timestamp nd <= timestamp a)%Z.
Proof.
  assert (E : getAllMemoryNodes (Some 1) true twoPages = Ok [pageNew])
    by (vm_compute; reflexivity).
  split; [exact E|].
  apply (@getAllMemoryNodes_most_recent _ 0 twoPages [pageNew] E).
Defined.

Lemma searchMemoryNodes_sound_witness :
  searchMemoryNodes "B" 5 true twoPages = Ok [pageNew]
  /\ length [pageNew] <= 5.
Proof.
  assert (E : searchMemoryNodes "B" 5 true twoPages = Ok [pageNew])
    by (vm_compute; reflexivity).
  split; [exact E|].
  apply (@searchMemoryNodes_sound _ "B"%string 5 true twoPages [pageNew] E).
Defined.

Lemma searchMemoryNodes_blank_term_witness :
  exists res,
    searchMemoryNodes "rust " 5 true twoPages = Ok res
    /\ length res = Nat.min 5 (length (pages twoPages)).
Proof.
  apply (@searchMemoryNodes_blank_term _ "rust "%string 5 twoPages).
  - reflexivity.
  - vm_compute. right. left. reflexivity.
Defined.

Lemma vectorSearch_sound_witness :
  exists res,
    vectorSearch (axisVector 1) 5 (ofZ 0) (fun _ => true) storeWithA = Ok res
    /\ length res <= 5
    /\ NoDup (map (@nodeId F64) res).
Proof.
  eexists. split; [vm_compute; reflexivity|].
  edestruct (@vectorSearch_sound _ _ (axisVector 1) 5 (ofZ 0) (fun _ => true)
               storeWithA) as (Hl & Hn & _); [vm_compute; reflexivity|].
  split; [exact Hl | exact Hn].
Defined.

Lemma hydrateIndex_loads_witness :
  isHydrated (hydrateIndex true fixDb) = true
  /\ map_get "a"%string (vectors (annIndex (core (hydrateIndex true fixDb))))
     = Some (axisVector 1).
Proof.
  destruct (@hydrateIndex_loads _ _ fixDb) as (Hf & Hv & _).
  - split; [repeat constructor; simpl; tauto|].
    intros k r [[= <- <-]|[]]. reflexivity.
  - reflexivity.
  - reflexivity.
  - split; [exact Hf|].
    apply (Hv "a"%string
             {| er_nodeId := "a"; er_vector := axisVector 1;
                er_model := "fallback"; er_timestamp := 1700000000000 |}).
    reflexivity.
Defined.

Lemma updateSettings_merges_witness :
  getSettings true
    (fst (updateSettings
            {| p_enabled := Some false; p_excludeDomains := None;
               p_excludeKeywords := None; p_maxStorageSize := None |}
            true true fixDb))
  = Ok {| enabled := false; excludeDomains := []; excludeKeywords := [];
          maxStorageSize := 500 * 1024 * 1024 |}.
Proof.
  destruct (@updateSettings_merges _
              {| p_enabled := Some false; p_excludeDomains := None;
                 p_excludeKeywords := None; p_maxStorageSize := None |}
              fixDb eq_refl) as (_ & _ & Hg & _).
  exact Hg.
Defined.

Lemma privacy_rules_upsert_delete_witness :
  exists rs,
    getPrivacyRules true (fst (addPrivacyRule fixRule true fixDb)) = Ok rs
    /\ In fixRule rs.
Proof.
  destruct (@privacy_rules_upsert_delete _ fixRule fixDb eq_refl)
    as [(rs & Hg & Hin & _) _].
  - split; [constructor | intros k r []].
  - exists rs. split; assumption.
Defined.

Lemma getRelatedNodes_sound_witness :
  let db := fst (addGraphEdge "a" "b" (dec 9 10) 1700000002000 true fixDb) in
  getRelatedNodes "a" 5 true (fun _ => true) db = Settled (Ok [pageNew])
  /\ length [pageNew] <= 5
  /\ getRelatedNodes "a" 0 true (fun _ => false) db = Settled (Ok [])
  /\ getRelatedNodes "a" 5 true (fun _ => false) db = Pending.
Proof.
  intros db.
  destruct (@getRelatedNodes_sound _ _ "a"%string 5 (fun _ => true) db eq_refl)
    as [Hok _].
  destruct (@getRelatedNodes_sound _ _ "a"%string 5 (fun _ => false) db eq_refl)
    as (_ & _ & _ & _ & Hpend & _).
  assert (E : getRelatedNodes "a" 5 true (fun _ => true) db
              = Settled (Ok [pageNew])) by (vm_compute; reflexivity).
  split; [exact E|]. split; [apply (Hok _ E)|].
  split; [vm_compute; reflexivity|].
  apply Hpend.
  exists {| ge_id := "a:b"; fromNode := "a"; toNode := "b";
            strength := dec 9 10; ge_timestamp := 1700000002000 |}.
  split; [left; vm_compute; reflexivity | reflexivity].
Defined.

Lemma graph_edge_keys_witness :
  let db1 := fst (addGraphEdge "x:y" "z" (dec 9 10) 1 true fixDb) in
  let db2 := fst (addGraphEdge "x" "y:z" (dec 1 10) 2 true db1) in
  map_get "x:y:z"%string (graph_edges db2)
  = Some {| ge_id := "x:y:z"; fromNode := "x"; toNode := "y:z";
            strength := dec 1 10; ge_timestamp := 2 |}
  /\ length (graph_edges db2) = 1.
Proof.
  destruct (@graph_edge_keys _ (dec 9 10) (dec 1 10) 1%Z 2%Z fixDb eq_refl)
    as [_ Hc].
  exact (Hc "x"%string "y"%string "z"%string).
Defined.

(* ------------------------------------------------------------------ *)
(** *** RecallService: recent pages, pages of a domain, search results *)

Section SortedInput.
Context {A : Type} (gt : A -> A -> bool).

(** Sorting an array that is already in order gives it back. *)
Lemma js_sort_sorted_id l :
  Sorted (fun a b => gt a b = false) l -> js_sort gt l = l.
Proof.
  induction 1 as [|x l Hs IH Hhd]; simpl; [reflexivity|].
  rewrite IH. destruct Hhd as [|y l' Hxy]; simpl; [reflexivity|].
  now rewrite Hxy.
Qed.

Lemma StronglySorted_filter (R : A -> A -> Prop) (f : A -> bool) l :
  StronglySorted R l -> StronglySorted R (filter f l).
Proof.
  induction 1 as [|x l Hs IH Hall]; simpl; [constructor|].
  destruct (f x); [|assumption]. constructor; [assumption|].
  rewrite Forall_forall in *. intros y Hy. apply filter_In in Hy.
  apply Hall, Hy.
Qed.
End SortedInput.

Section RecallQueries.
Context {N : Type} `{JsNumber N}.
Variable now : Z.
Implicit Types (st : CortexStorage N).

Lemma newestFirst_sorted st :
  StronglySorted (fun a b : MemoryNode N => (timestamp b <= timestamp a)%Z)
                 (rev (timestampIndex (pages st))).
Proof. apply StronglySorted_rev, timestampIndex_ascending. Qed.

Lemma newestFirst_In st nd :
  In nd (rev (timestampIndex (pages st))) <-> In nd (map_values (pages st)).
Proof. unfold timestampIndex. now rewrite <- in_rev, js_sort_In. Qed.

Lemma newestFirst_length st :
  length (rev (timestampIndex (pages st))) = length (pages st).
Proof.
  unfold timestampIndex, map_values.
  now rewrite length_rev, js_sort_length, length_map.
Qed.

(** X20.  [getRecentPages hours limit] returns the newest stored pages of
    the time window: at most [limit] of them, newest first, each stored and
    not older than the cutoff [now - hours * 3600000]; a stored page of the
    window that is left out is at most as recent as every returned page,
    and is left out only because [limit] pages were returned. *)
Theorem getRecentPages_newest_in_window hours limit st res :
  getRecentPages now hours limit true st = Ok res ->
  let cutoff := (now - hours * 60 * 60 * 1000)%Z in
  length res <= limit
  /\ StronglySorted (fun a b => (timestamp b <= timestamp a)%Z) res
  /\ (forall nd, In nd res ->
        In nd (map_values (pages st)) /\ (cutoff <= timestamp nd)%Z)
  /\ (forall nd, In nd (map_values (pages st)) -> (cutoff <= timestamp nd)%Z ->
        In nd res
        \/ (length res = limit
            /\ forall x, In x res -> (timestamp nd <= timestamp x)%Z)).
Proof.
  unfold getRecentPages. intros Hres. cbn zeta.
  set (cutoff := (now - hours * 60 * 60 * 1000)%Z) in *.
  set (inWindow := fun node : MemoryNode N => (timestamp node >=? cutoff)%Z)
    in *.
  destruct limit as [|L].
  { (* [limit = 0]: everything is scanned, nothing is returned *)
    destruct (getAllMemoryNodes _ true st); [|discriminate].
    cbn [bind slice0 firstn] in Hres. injection Hres as <-.
    split; [simpl; lia|]. split; [constructor|]. split; [intros nd []|].
    intros nd _ _. right. split; [reflexivity | intros x []]. }
  set (l := rev (timestampIndex (pages st))).
  assert (Hall : getAllMemoryNodes (Some (S L * 5)) true st
                 = Ok (firstn (S L * 5) l)
                 \/ getAllMemoryNodes (Some (S L * 5)) true st
                    = Err (DbError "Failed to open IndexedDB")).
  { unfold getAllMemoryNodes, ready. destruct (opened st); [left|right];
      reflexivity. }
  destruct Hall as [Hall|Hall]; rewrite Hall in Hres; [|discriminate].
  cbn [bind] in Hres.
  assert (Hl : StronglySorted
                 (fun a b : MemoryNode N => (timestamp b <= timestamp a)%Z) l)
    by apply newestFirst_sorted.
  set (scan := firstn (S L * 5) l) in *.
  assert (Hscan : StronglySorted
                    (fun a b : MemoryNode N => (timestamp b <= timestamp a)%Z)
                    (filter inWindow scan)).
  { apply StronglySorted_filter.
    apply (@StronglySorted_firstn _ _ (S L * 5) l Hl). }
  rewrite js_sort_sorted_id in Hres.
  2:{ eapply Sorted_weaken; [|apply StronglySorted_Sorted, Hscan].
      intros x y Hxy. cbn beta in *. apply not_true_is_false. intros Hgt.
      apply Z.gtb_lt in Hgt. lia. }
  assert (Er : res = firstn (S L) (filter inWindow scan))
    by (injection Hres as <-; reflexivity).
  clear Hres. subst res.
  assert (Hfil : forall nd, In nd (filter inWindow scan) ->
             In nd (map_values (pages st)) /\ (cutoff <= timestamp nd)%Z).
  { intros nd Hnd. apply filter_In in Hnd. destruct Hnd as [Hnd Hw].
    split.
    - apply newestFirst_In. revert Hnd. apply (slice0_In (S L * 5)).
    - unfold inWindow in Hw. apply Z.geb_le in Hw. exact Hw. }
  split; [apply (firstn_le_length (S L))|]. split.
  { apply (@StronglySorted_firstn _ _ (S L) (filter inWindow scan) Hscan). }
  split.
  { intros nd Hnd. apply Hfil. revert Hnd. apply (slice0_In (S L)). }
  intros nd Hstored Hcut.
  assert (Hsplit : StronglySorted
                     (fun a b : MemoryNode N => (timestamp b <= timestamp a)%Z)
                     (firstn (S L) (filter inWindow scan)
                      ++ skipn (S L) (filter inWindow scan)))
    by (rewrite firstn_skipn; exact Hscan).
  assert (Hfull : forall y, In y (skipn (S L) (filter inWindow scan)) ->
             length (firstn (S L) (filter inWindow scan)) = S L).
  { intros y Hy. rewrite length_firstn. apply Nat.min_l.
    destruct (Nat.le_gt_cases (S L) (length (filter inWindow scan)))
      as [Hle|Hgt]; [assumption|].
    rewrite skipn_all2 in Hy by lia. destruct Hy. }
  apply newestFirst_In in Hstored. fold l in Hstored.
  rewrite <- (firstn_skipn (S L * 5) l) in Hstored.
  apply in_app_or in Hstored. destruct Hstored as [Hin|Hout].
  - (* scanned *)
    assert (Hf : In nd (filter inWindow scan)).
    { apply filter_In. split; [exact Hin|]. unfold inWindow.
      apply Z.geb_le. exact Hcut. }
    rewrite <- (firstn_skipn (S L) (filter inWindow scan)) in Hf.
    apply in_app_or in Hf. destruct Hf as [Hf|Hf]; [now left|]. right.
    split; [exact (Hfull nd Hf)|].
    intros x Hx.
    eapply StronglySorted_app_inv in Hsplit; [exact Hsplit | exact Hx | exact Hf].
  - (* beyond the scan: the scan is full and entirely inside the window *)
    right.
    assert (Hl2 : StronglySorted
                    (fun a b : MemoryNode N => (timestamp b <= timestamp a)%Z)
                    (scan ++ skipn (S L * 5) l))
      by (unfold scan; rewrite firstn_skipn; exact Hl).
    assert (Hnewer : forall x, In x scan -> (timestamp nd <= timestamp x)%Z).
    { intros x Hx.
      eapply StronglySorted_app_inv in Hl2; [exact Hl2 | exact Hx | exact Hout]. }
    assert (Hid : filter inWindow scan = scan).
    { apply forallb_filter_id, forallb_forall. intros x Hx.
      unfold inWindow. apply Z.geb_le. specialize (Hnewer x Hx). lia. }
    rewrite Hid. split.
    + unfold scan. rewrite firstn_firstn, length_firstn.
      assert (S L * 5 < length l).
      { destruct (Nat.le_gt_cases (length l) (S L * 5)) as [Hle|Hgt];
          [|assumption].
        rewrite skipn_all2 in Hout by lia. destruct Hout. }
      lia.
    + intros x Hx. apply Hnewer. revert Hx. apply (slice0_In (S L)).
Qed.

(** X21.  [getPagesByDomain d] looks at the 500 newest pages only: it
    returns stored pages of domain [d], newest first; with at most 500
    pages stored it returns every stored page of that domain, and a stored
    page of the domain that is left out is at most as recent as each of
    the 500 pages scanned. *)
Theorem getPagesByDomain_scans_500 d st res :
  getPagesByDomain d true st = Ok res ->
  StronglySorted (fun a b => (timestamp b <= timestamp a)%Z) res
  /\ (forall nd, In nd res -> In nd (map_values (pages st)) /\ domain nd = d)
  /\ (length (pages st) <= 500 ->
      forall nd, In nd (map_values (pages st)) -> domain nd = d -> In nd res)
  /\ (forall nd, In nd (map_values (pages st)) -> domain nd = d ->
        In nd res
        \/ (500 < length (pages st)
            /\ forall x, In x res -> (timestamp nd <= timestamp x)%Z)).
Proof.
  unfold getPagesByDomain, getAllMemoryNodes.
  destruct (ready st); [|discriminate]. cbn [bind]. intros Hres.
  set (l := rev (timestampIndex (pages st))) in *.
  assert (Er : res = filter (fun node => String.eqb (domain node) d)
                            (firstn 500 l))
    by (injection Hres as <-; reflexivity).
  clear Hres. subst res.
  assert (Hcomplete : length (pages st) <= 500 ->
            forall nd, In nd (map_values (pages st)) -> domain nd = d ->
            In nd (filter (fun node => String.eqb (domain node) d)
                          (firstn 500 l))).
  { intros Hlen nd Hnd Hd. apply filter_In. split.
    - rewrite firstn_all2; [now apply newestFirst_In|].
      unfold l. now rewrite newestFirst_length.
    - now apply String.eqb_eq. }
  split; [|split; [|split]].
  - apply StronglySorted_filter.
    apply (@StronglySorted_firstn _ _ 500 l), newestFirst_sorted.
  - intros nd Hnd. apply filter_In in Hnd. destruct Hnd as [Hnd Hd].
    split; [|now apply String.eqb_eq].
    apply newestFirst_In. revert Hnd. apply (slice0_In 500).
  - exact Hcomplete.
  - intros nd Hnd Hd.
    destruct (Nat.le_gt_cases (length (pages st)) 500) as [Hle|Hgt];
      [left; now apply Hcomplete|].
    apply newestFirst_In in Hnd. fold l in Hnd.
    rewrite <- (firstn_skipn 500 l) in Hnd.
    apply in_app_or in Hnd. destruct Hnd as [Hin|Hout].
    + left. apply filter_In. split; [exact Hin | now apply String.eqb_eq].
    + right. split; [exact Hgt|]. intros x Hx. apply filter_In in Hx.
      destruct Hx as [Hx _].
      assert (Hl2 : StronglySorted
                      (fun a b : MemoryNode N => (timestamp b <= timestamp a)%Z)
                      (firstn 500 l ++ skipn 500 l))
        by (rewrite firstn_skipn; apply newestFirst_sorted).
      eapply StronglySorted_app_inv in Hl2; [exact Hl2 | exact Hx | exact Hout].
Qed.
End RecallQueries.

Section RecallShape.
Context {N : Type} `{JsNumber N}.
Variable generateEmbedding :
  string -> string -> list string -> result (Embedding N).
Variable now : Z.
Implicit Types (st : CortexStorage N).

(** What the merge loop keeps: one match per key, filed under its node id
    and taken from the matches it was given. *)
Lemma mergeStep_fold (all : list (SemanticMatch N)) :
  forall (seen : list (SemanticMatch N)) u,
  NoDup (map_keys u) ->
  (forall k m, In (k, m) u -> nodeId m = k /\ In m seen) ->
  NoDup (map_keys (fold_left mergeStep all u))
  /\ forall k m, In (k, m) (fold_left mergeStep all u) ->
       nodeId m = k /\ In m (seen ++ all).
Proof.
  induction all as [|a all IH]; intros seen u Hnd Hu; simpl.
  - split; [assumption|]. intros k m Hin. rewrite app_nil_r. auto.
  - assert (Hset : NoDup (map_keys (map_set (nodeId a) a u))
                   /\ forall k m, In (k, m) (map_set (nodeId a) a u) ->
                        nodeId m = k /\ In m (seen ++ [a])).
    { split; [now apply map_keys_set_NoDup|].
      intros k m Hin. apply map_set_In in Hin.
      destruct Hin as [[= -> ->]|Hin].
      - split; [reflexivity|]. apply in_or_app. right. now left.
      - destruct (Hu _ _ Hin). split; [assumption|]. apply in_or_app. now left. }
    assert (Hkeep : forall k m, In (k, m) u ->
                      nodeId m = k /\ In m (seen ++ [a])).
    { intros k m Hin. destruct (Hu _ _ Hin). split; [assumption|].
      apply in_or_app. now left. }
    replace (seen ++ a :: all) with ((seen ++ [a]) ++ all)
      by (rewrite <- app_assoc; reflexivity).
    assert (Hcase : mergeStep u a = map_set (nodeId a) a u \/ mergeStep u a = u).
    { unfold mergeStep. destruct (map_get (nodeId a) u) as [existing|]; auto.
      destruct (jltb _ _); auto. }
    destruct Hcase as [-> | ->].
    + apply IH; apply Hset.
    + apply IH; assumption.
Qed.

(** X22.  The answer of [RecallService.search] on a store keyed by page id
    has at most [limit] matches, [totalResults] is their number, the query
    is echoed, no node id occurs twice, and every match carries the page
    stored under its node id. *)
Theorem recall_search_shape query limit th io_page io_scan st r :
  pagesKeyed (pages st) ->
  RecallService_search generateEmbedding now query limit th io_page io_scan st
  = Ok r ->
  length (matches r) <= limit
  /\ totalResults r = length (matches r)
  /\ rr_query r = query
  /\ NoDup (map (@nodeId N) (matches r))
  /\ forall m, In m (matches r) ->
       map_get (nodeId m) (pages st) = Some (node m).
Proof.
  intros Hkeyed. unfold RecallService_search.
  destruct (searchBody _ _ _ _ _ _ _ _) as [r0|e] eqn:Eb.
  2:{ intros [= <-]. cbn [matches totalResults rr_query length map].
      split; [lia|]. split; [reflexivity|]. split; [reflexivity|].
      split; [constructor | intros m []]. }
  intros [= <-]. revert Eb. unfold searchBody.
  destruct (generateEmbedding query query []) as [qe|]; [|discriminate].
  cbn [bind].
  destruct (vectorSearch _ _ _ _ _) as [sem|] eqn:Ev; [|discriminate].
  cbn [bind].
  destruct (searchMemoryNodes _ _ _ _) as [kw|] eqn:Ek; [|discriminate].
  cbn [bind]. intros [= <-]. cbn [matches totalResults rr_query].
  set (all := _ ++ _).
  destruct (@mergeStep_fold all [] [] (NoDup_nil _)) as [Hnd Hu];
    [intros k m []|]. cbn [app] in Hu.
  set (u := fold_left mergeStep all []) in *.
  assert (Hall : forall m, In m all ->
                   map_get (nodeId m) (pages st) = Some (node m)).
  { intros m Hm. unfold all in Hm. apply in_app_or in Hm.
    destruct Hm as [Hm|Hm]; apply in_map_iff in Hm;
      destruct Hm as (x & <- & Hx); cbn [nodeId node createSemanticMatch].
    - destruct (vectorSearch_spec _ _ _ _ _ Ev) as (_ & _ & Hm).
      now apply Hm.
    - apply values_In_get; [assumption|].
      eapply searchMemoryNodes_stored; eauto. }
  split; [apply slice0_length|]. split; [reflexivity|].
  split; [reflexivity|]. split.
  - rewrite slice0_map. apply NoDup_firstn.
    eapply Permutation_NoDup;
      [symmetry; apply Permutation_map, js_sort_perm|].
    replace (map (@nodeId N) (map_values u)) with (map_keys u); [exact Hnd|].
    unfold map_keys, map_values. rewrite map_map. apply map_ext_in.
    intros [k m] Hin. cbn [fst snd]. symmetry. now apply Hu.
  - intros m Hm. apply slice0_In, js_sort_In in Hm.
    apply in_map_iff in Hm. destruct Hm as ([k m'] & Hk & Hin).
    simpl in Hk; subst m'. apply Hall. now apply (Hu k m).
Qed.
End RecallShape.

Lemma getRecentPages_newest_in_window_witness :
  getRecentPages 1700000002000 1 1 true twoPages = Ok [pageNew]
  /\ length [pageNew] <= 1.
Proof.
  assert (E : getRecentPages 1700000002000 1 1 true twoPages = Ok [pageNew])
    by (vm_compute; reflexivity).
  split; [exact E|].
  apply (@getRecentPages_newest_in_window _ 1700000002000 1 1 twoPages
           [pageNew] E).
Defined.

Lemma getPagesByDomain_scans_500_witness :
  getPagesByDomain "a.example" true twoPages = Ok [pageOld]
  /\ forall nd, In nd [pageOld] ->
       In nd (map_values (pages twoPages)) /\ domain nd = "a.example"%string.
Proof.
  assert (E : getPagesByDomain "a.example" true twoPages = Ok [pageOld])
    by (vm_compute; reflexivity).
  split; [exact E|].
  apply (@getPagesByDomain_scans_500 _ "a.example"%string twoPages [pageOld] E).
Defined.

Lemma recall_search_shape_witness :
  exists r,
    RecallService_search fixEmbedding 1700000002000 "B" 5 (dec 3 10)
      (fun _ => true) true twoPages = Ok r
    /\ NoDup (map (@nodeId F64) (matches r))
    /\ totalResults r = length (matches r).
Proof.
  eexists. split; [vm_compute; reflexivity|].
  edestruct (@recall_search_shape _ _ fixEmbedding 1700000002000 "B"%string 5
               (dec 3 10) (fun _ => true) true twoPages)
    as (_ & Ht & _ & Hn & _);
    [exact twoPages_keyed | vm_compute; reflexivity|].
  split; [exact Hn | exact Ht].
Defined.

(* ------------------------------------------------------------------ *)
(** *** The clustering worker *)

Section ClusterFacts.
Context {N : Type} `{JsNumber N}.
Implicit Types (embs : list (string * list N)).

Lemma set_add_fresh (x : string) (s : JsSet string) :
  set_has x s = false -> set_add x s = s ++ [x].
Proof. unfold set_add. now intros ->. Qed.

Lemma innerStep_fold th item (l : list (string * list N)) :
  forall pages assigned,
  exists added,
    fold_left (innerStep th item) l (pages, assigned)
    = (pages ++ added, assigned ++ added)
    /\ (NoDup assigned -> NoDup (assigned ++ added))
    /\ forall p, In p added ->
         exists other, In other l /\ fst other = p
                       /\ similarEnough th (snd item) (snd other) = true.
Proof.
  induction l as [|o l IH]; intros pages assigned; simpl.
  - exists []. rewrite !app_nil_r. split; [reflexivity|].
    split; [auto | intros p []].
  - unfold innerStep at 2. cbn [fst snd].
    destruct (set_has (fst o) assigned) eqn:Eh.
    { destruct (IH pages assigned) as (added & Hf & Hn & Hs).
      exists added. split; [assumption|]. split; [assumption|].
      intros p Hp. destruct (Hs p Hp) as (other & Ho & Hrest). eauto. }
    destruct (similarEnough th (snd item) (snd o)) eqn:Es.
    2:{ destruct (IH pages assigned) as (added & Hf & Hn & Hs).
        exists added. split; [assumption|]. split; [assumption|].
        intros p Hp. destruct (Hs p Hp) as (other & Ho & Hrest). eauto. }
    rewrite (set_add_fresh _ _ Eh).
    destruct (IH (pages ++ [fst o]) (assigned ++ [fst o]))
      as (added & Hf & Hn & Hs).
    exists (fst o :: added). rewrite Hf, <- !app_assoc. cbn [app].
    split; [reflexivity|]. split.
    + intros Hnd. replace (assigned ++ fst o :: added)
        with ((assigned ++ [fst o]) ++ added)
        by (rewrite <- app_assoc; reflexivity).
      apply Hn. rewrite <- (set_add_fresh _ _ Eh). now apply set_add_NoDup.
    + intros p [<-|Hp]; [exists o; auto|].
      destruct (Hs p Hp) as (other & Ho & Hrest). eauto.
Qed.

(** What holds of [clusters] and [assigned] between two turns of the outer
    loop. *)
Lemma outerStep_fold th embs (l : list (string * list N)) :
  forall clusters assigned,
  incl l embs ->
  concat (map snd clusters) = assigned ->
  NoDup assigned ->
  Forall (clusterBuilt th embs) clusters ->
  map fst clusters = map clusterName (seq 0 (length clusters)) ->
  (forall p, In p assigned -> In p (map fst embs)) ->
  exists clusters' assigned',
    fold_left (outerStep th embs) l (clusters, assigned)
    = (clusters', assigned')
    /\ concat (map snd clusters') = assigned'
    /\ NoDup assigned'
    /\ Forall (clusterBuilt th embs) clusters'
    /\ map fst clusters' = map clusterName (seq 0 (length clusters'))
    /\ (forall p, In p assigned' -> In p (map fst embs))
    /\ (forall p, In p assigned -> In p assigned')
    /\ (forall e, In e l -> In (fst e) assigned')
    /\ length clusters' <= length clusters + length l.
Proof.
  induction l as [|item l IH]; intros clusters assigned Hincl Hcat Hnd Hok
                                      Hnames Hids; simpl.
  - exists clusters, assigned. repeat split; auto. intros e []. lia.
  - assert (Hitem : In item embs) by (apply Hincl; now left).
    assert (Hl : incl l embs) by (intros x Hx; apply Hincl; now right).
    unfold outerStep at 2. cbn [fst snd].
    destruct (set_has (fst item) assigned) eqn:Eh.
    { destruct (IH clusters assigned Hl Hcat Hnd Hok Hnames Hids)
        as (c' & a' & Hf & Hc & Hn & Ho & Hna & Hi & Hmono & Hcov & Hlen).
      exists c', a'. repeat split; auto.
      - intros e [<-|He]; [|auto]. apply Hmono. now apply set_has_In.
      - lia. }
    rewrite (set_add_fresh _ _ Eh).
    destruct (innerStep_fold th item embs [fst item] (assigned ++ [fst item]))
      as (added & Hf & Hn & Hs).
    rewrite Hf. cbn [fst snd].
    assert (Hnd1 : NoDup (assigned ++ [fst item])).
    { rewrite <- (set_add_fresh _ _ Eh). now apply set_add_NoDup. }
    destruct (IH (clusters ++ [(clusterName (length clusters),
                                [fst item] ++ added)])
                 ((assigned ++ [fst item]) ++ added) Hl)
      as (c' & a' & Hf' & Hc & Hn' & Ho & Hna & Hi & Hmono & Hcov & Hlen).
    + rewrite map_app, concat_app, Hcat. cbn [map snd concat].
      now rewrite app_nil_r, <- !app_assoc.
    + now apply Hn.
    + apply Forall_app. split; [assumption|]. constructor; [|constructor].
      exists item, added. cbn [snd app]. auto.
    + rewrite map_app, length_app, Hnames. cbn [map fst length].
      rewrite Nat.add_1_r, seq_S, map_app. reflexivity.
    + intros p Hp. apply in_app_or in Hp. destruct Hp as [Hp|Hp].
      * apply in_app_or in Hp. destruct Hp as [Hp|[<-|[]]]; [auto|].
        now apply in_map.
      * destruct (Hs p Hp) as (other & Hin & <- & _). now apply in_map.
    + exists c', a'. split; [exact Hf'|]. repeat split; auto.
      * intros p Hp. apply Hmono. apply in_or_app. left.
        apply in_or_app. now left.
      * intros e [<-|He]; [|auto]. apply Hmono. apply in_or_app. left.
        apply in_or_app. right. now left.
      * rewrite length_app in Hlen. simpl in Hlen. lia.
Qed.

(** X23.  [clusterPages] partitions the ids it is given: no id is put in
    two clusters or twice in one, every input id is in some cluster and
    every clustered id is an input id.  The clusters are named
    [cluster_0], [cluster_1], ... in order, there are at most as many as
    inputs, and each one is a seed taken from the input followed by ids of
    inputs whose cosine similarity to the seed reaches the threshold (a
    similarity that is NaN never does). *)
Theorem clusterPages_partition embs th :
  let clusters := clusterPages embs th in
  NoDup (concat (map snd clusters))
  /\ (forall e, In e embs -> In (fst e) (concat (map snd clusters)))
  /\ (forall p, In p (concat (map snd clusters)) -> In p (map fst embs))
  /\ map fst clusters = map clusterName (seq 0 (length clusters))
  /\ length clusters <= length embs
  /\ Forall (clusterBuilt th embs) clusters.
Proof.
  unfold clusterPages.
  destruct (@outerStep_fold th embs embs [] [] (incl_refl _) eq_refl
              (NoDup_nil _) (Forall_nil _) eq_refl
              (fun p (Hp : In p []) => match Hp with end))
    as (c' & a' & Hf & Hc & Hn & Ho & Hna & Hi & _ & Hcov & Hlen).
  rewrite Hf. cbn [fst]. rewrite Hc. repeat split; auto.
Qed.
End ClusterFacts.

Lemma clusterPages_partition_witness :
  onmessage threeEmbeddings
  = [ ("cluster_0"%string, ["a"; "b"]%string);
      ("cluster_1"%string, ["c"]%string) ]
  /\ NoDup (concat (map snd (clusterPages threeEmbeddings (dec 5 10)))).
Proof.
  split; [vm_compute; reflexivity|].
  apply (@clusterPages_partition _ _ threeEmbeddings (dec 5 10)).
Defined.

Section WorkerCosine.
Local Open Scope R_scope.

Lemma workerLoop_equal_length {N} `{JsNumber N} (a : list N) :
  forall b d na nb,
  length a = length b ->
  workerLoop a b (Some d) na (Some nb)
  = (let '(d', na', nb') := fold_left cosStep (combine a b) (d, na, nb) in
     (Some d', na', Some nb')).
Proof.
  induction a as [|x a IH]; intros [|y b] d na nb Hlen; simpl in *;
    try discriminate; [reflexivity|].
  apply IH. lia.
Qed.

Lemma workerLoop_prefix {N} `{JsNumber N} (a : list N) :
  forall b d na nb,
  (length a <= length b)%nat ->
  workerLoop a b d na nb = workerLoop a (firstn (length a) b) d na nb.
Proof.
  induction a as [|x a IH]; intros [|y b] d na nb Hlen; simpl in *;
    try reflexivity; try lia.
  apply IH. lia.
Qed.

Lemma workerLoop_exhausted (a : list R) : forall na,
  workerLoop a [] None na None = (None, na + sumsq a, None).
Proof.
  induction a as [|x a IH]; intros na; simpl.
  - f_equal. f_equal. lra.
  - rewrite IH. cbn [jadd jmul JsR]. f_equal. f_equal. lra.
Qed.

Lemma workerLoop_short (a : list R) : forall b d na nb,
  (length b < length a)%nat ->
  workerLoop a b d na nb = (None, na + sumsq a, None).
Proof.
  induction a as [|x a IH]; intros [|y b] d na nb Hlen; simpl in *; try lia.
  - rewrite workerLoop_exhausted. cbn [jadd jmul JsR]. f_equal. f_equal. lra.
  - rewrite IH by lia. cbn [jadd jmul JsR]. f_equal. f_equal. lra.
Qed.

Lemma sqrt_zero_test x : 0 <= x -> Reqb (sqrt x) 0 = Reqb x 0.
Proof.
  intros Hx. destruct (Reqb x 0) eqn:E.
  - apply Reqb_true in E. subst. apply Reqb_true, sqrt_0.
  - apply Reqb_false in E. apply Reqb_false. intros Hs.
    apply sqrt_eq_0 in Hs; [contradiction | assumption].
Qed.

Lemma worker_cosine_equal_length (a b : list R) :
  length a = length b ->
  worker_cosineSimilarity a b = Some (cosineSimilarity a b).
Proof.
  intros Hlen. unfold worker_cosineSimilarity.
  rewrite workerLoop_equal_length by exact Hlen.
  rewrite cos_loop_R by exact Hlen. cbn [ofZ jsqrt jeqb jdiv jmul JsR].
  rewrite !Rplus_0_l, !sqrt_zero_test by apply sumsq_nonneg.
  rewrite cosineSimilarity_R_cases, Hlen, Nat.eqb_refl. cbn [negb].
  now destruct (Reqb (sumsq a) 0 || Reqb (sumsq b) 0).
Qed.

(** X24.  The worker's own [cosineSimilarity] against the one of the
    vector index (exact arithmetic).  On vectors of equal length the two
    agree.  When the second vector is longer the worker silently compares
    with its prefix, and when it is shorter (and the first vector is not
    zero) the worker's result is NaN, so that the pair is never clustered;
    the index answers 0 in both of these cases. *)
Theorem worker_cosine_vs_index (a b : list R) :
  (length a = length b ->
     worker_cosineSimilarity a b = Some (cosineSimilarity a b))
  /\ ((length a < length b)%nat ->
        worker_cosineSimilarity a b
        = Some (cosineSimilarity a (firstn (length a) b))
        /\ cosineSimilarity a b = 0)
  /\ ((length b < length a)%nat -> sumsq a <> 0 ->
        worker_cosineSimilarity a b = None
        /\ (forall th, similarEnough th a b = false)
        /\ cosineSimilarity a b = 0).
Proof.
  assert (Hmis : length a <> length b -> cosineSimilarity a b = 0).
  { intros Hne. rewrite cosineSimilarity_R_cases.
    apply Nat.eqb_neq in Hne. now rewrite Hne. }
  split; [apply worker_cosine_equal_length|]. split.
  - intros Hlt. split; [|apply Hmis; lia].
    rewrite <- worker_cosine_equal_length
      by (rewrite length_firstn; lia).
    unfold worker_cosineSimilarity. now rewrite workerLoop_prefix by lia.
  - intros Hlt Ha.
    assert (E : worker_cosineSimilarity a b = None).
    { unfold worker_cosineSimilarity. rewrite workerLoop_short by exact Hlt.
      cbn [ofZ jsqrt jeqb JsR]. rewrite Rplus_0_l, sqrt_zero_test
        by apply sumsq_nonneg.
      apply Reqb_false in Ha. now rewrite Ha. }
    split; [exact E|]. split; [|apply Hmis; lia].
    intros th. unfold similarEnough. now rewrite E.
Qed.
End WorkerCosine.

Lemma worker_cosine_vs_index_witness :
  worker_cosineSimilarity [1%R; 0%R] [1%R] = None
  /\ cosineSimilarity [1%R; 0%R] [1%R] = 0%R.
Proof.
  destruct (worker_cosine_vs_index [1%R; 0%R] [1%R]) as (_ & _ & Hs).
  destruct Hs as (Hw & _ & Hc); [simpl; lia | simpl; lra |].
  split; assumption.
Defined.

(* ------------------------------------------------------------------ *)
(** *** The message handler: capture filter and forgetting *)

Section CaptureFacts.
Variable URL_hostname : string -> option string.

Lemma ruleVerdict_filter hostname fullText rules :
  ruleVerdict hostname fullText (filter ruleApplies rules)
  = ruleVerdict hostname fullText rules.
Proof.
  induction rules as [|r rules IH]; [reflexivity|].
  cbn [filter]. unfold ruleApplies at 1.
  destruct (rule_status r) eqn:Es, (rule_type r) eqn:Et;
    cbn [ruleVerdict]; rewrite ?Es, ?Et, ?IH; reflexivity.
Qed.

(** X25.  What the capture filter never looks at: the answer to
    ["PAGE_CAPTURED"] is the same when the settings differ only in
    [excludeKeywords] and [maxStorageSize], and when every inactive rule
    and every rule of type ["date"] is dropped from the privacy rules. *)
Theorem capture_ignores_keywords_and_date_rules
        settings settings' rules payload session now :
  enabled settings' = enabled settings ->
  excludeDomains settings' = excludeDomains settings ->
  pageCaptured URL_hostname settings' (filter ruleApplies rules) payload
               session now
  = pageCaptured URL_hostname settings rules payload session now.
Proof.
  intros He Hd. unfold pageCaptured. rewrite He, Hd.
  destruct (URL_hostname (pc_url payload)); [|reflexivity].
  now rewrite ruleVerdict_filter.
Qed.

Lemma prefix_app s post : String.prefix s (s ++ post) = true.
Proof.
  induction s as [|c s IH]; simpl; [now destruct post|].
  destruct (ascii_dec c c); [assumption | contradiction].
Qed.

Lemma includes_app pre s post : includes (pre ++ s ++ post) s = true.
Proof.
  induction pre as [|c pre IH].
  - cbn [append]. destruct (s ++ post)%string eqn:E.
    + destruct s; [reflexivity | discriminate].
    + cbn [includes]. rewrite <- E, prefix_app. reflexivity.
  - cbn [append includes]. rewrite IH. apply orb_true_r.
Qed.

(** X26.  The domain exclusion of the settings is a substring test on the
    host name: with capture enabled, a page whose host name contains the
    lowercased text of an excluded domain anywhere is skipped with the
    reason ["excluded_domain"], whatever the rules and the session cache
    are.  An empty entry in [excludeDomains] therefore stops the capture
    of every page. *)
Theorem capture_excluded_by_substring
        settings rules payload session now hostname d pre post :
  enabled settings = true ->
  URL_hostname (pc_url payload) = Some hostname ->
  In d (excludeDomains settings) ->
  hostname = (pre ++ toLowerCase d ++ post)%string ->
  pageCaptured URL_hostname settings rules payload session now
  = Skipped "excluded_domain".
Proof.
  intros He Hh Hd Hsub. unfold pageCaptured. rewrite He, Hh. cbn [negb].
  replace (existsb _ (excludeDomains settings)) with true; [reflexivity|].
  symmetry. apply existsb_exists. exists d. split; [assumption|].
  subst hostname. apply includes_app.
Qed.
End CaptureFacts.

Lemma capture_ignores_keywords_and_date_rules_witness :
  pageCaptured fixHostname fixSettings fixRules fixPayload [] 1700000000000
  = pageCaptured fixHostname
      {| enabled := true; excludeDomains := ["Bank.example"%string];
         excludeKeywords := []; maxStorageSize := 500 |}
      [] fixPayload [] 1700000000000.
Proof.
  symmetry.
  apply (capture_ignores_keywords_and_date_rules fixHostname fixSettings
           {| enabled := true; excludeDomains := ["Bank.example"%string];
              excludeKeywords := []; maxStorageSize := 500 |}
           fixRules fixPayload [] 1700000000000); reflexivity.
Defined.

Lemma capture_excluded_by_substring_witness :
  pageCaptured fixHostname fixSettings []
    {| pc_url := "https://mybank.example.org/"; pc_title := "T";
       pc_readableText := "t"; pc_isRefresh := false |} [] 1700000000000
  = Skipped "excluded_domain".
Proof.
  apply (@capture_excluded_by_substring fixHostname fixSettings []
           {| pc_url := "https://mybank.example.org/"; pc_title := "T";
              pc_readableText := "t"; pc_isRefresh := false |}
           [] 1700000000000 "mybank.example.org" "Bank.example" "my" ".org");
    try reflexivity.
  left. reflexivity.
Defined.

Section ForgetFacts.
Context {N : Type} `{JsNumber N}.
Implicit Types (db : Database N).

Lemma clearAllData_wipes hydrating db :
  opened (core db) = true ->
  exists db',
    clearAllData true hydrating db = (db', Ok tt)
    /\ pages (core db') = [] /\ embeddings (core db') = []
    /\ settings db' = None /\ rules db' = []
    /\ (hydrating = false \/ isHydrated db = true ->
        vectors (annIndex (core db')) = []).
Proof.
  intros Ho. unfold clearAllData, ready. rewrite Ho. eexists.
  split; [reflexivity|]. cbn [core pages embeddings settings rules annIndex].
  repeat split.
  intros Hc. unfold hydrateIndex, setCore.
  cbn [core isHydrated withIndex annIndex].
  destruct Hc as [-> | ->]; [reflexivity|]. now destruct hydrating.
Qed.

(** X27.  ["FORGET_DATA"] tests its fields for truthiness.  With a
    non-empty [domain] it runs [deleteByDomain] on that domain, whatever
    the dates are, and nothing else: on a store keyed by page id it
    answers with the number of stored pages of the domain, no page of the
    domain is left, pages of other domains, the settings and the privacy
    rules are as before.  With no domain (or an empty one) and both bounds
    present and non-zero it runs [deleteByDateRange].  In every other
    case, also when one bound is given and the other is absent or 0, it
    wipes the whole database: the answer is the count -1, the session
    cache is emptied, and no page, embedding, setting or privacy rule is
    left (nor a vector in the index, unless a hydration was in flight). *)
Theorem forgetData_dispatch dom startDate endDate fa io hydrating db session :
  opened (core db) = true ->
  (forall d, dom = Some d -> d <> EmptyString ->
     forgetData dom startDate endDate fa io hydrating db session
     = (setCore db (fst (deleteByDomain d fa (core db))), session,
        countResponse (snd (deleteByDomain d fa (core db))))
     /\ (pagesKeyed (pages (core db)) -> fa = None ->
         exists db',
           forgetData dom startDate endDate fa io hydrating db session
           = (db', session,
              Forgotten
                (Z.of_nat
                   (length (filter (fun nd => String.eqb (domain nd) d)
                                   (map_values (pages (core db)))))))
           /\ (forall nd, In nd (map_values (pages (core db'))) ->
                 domain nd <> d)
           /\ (forall k nd, map_get k (pages (core db)) = Some nd ->
                 domain nd <> d ->
                 map_get k (pages (core db')) = Some nd)
           /\ settings db' = settings db /\ rules db' = rules db))
  /\ ((dom = None \/ dom = Some EmptyString) ->
      (startDate = None \/ startDate = Some 0%Z
       \/ endDate = None \/ endDate = Some 0%Z) ->
      exists db',
        forgetData dom startDate endDate fa true hydrating db session
        = (db', [], Forgotten (-1))
        /\ pages (core db') = [] /\ embeddings (core db') = []
        /\ settings db' = None /\ rules db' = []
        /\ (hydrating = false \/ isHydrated db = true ->
            vectors (annIndex (core db')) = []))
  /\ (forall s e, (dom = None \/ dom = Some EmptyString) ->
        s <> 0%Z -> e <> 0%Z ->
        forgetData dom (Some s) (Some e) fa io hydrating db session
        = (setCore db (fst (deleteByDateRange s e fa (core db))), session,
           countResponse (snd (deleteByDateRange s e fa (core db))))).
Proof.
  intros Ho. split; [|split].
  - intros d -> Hd.
    assert (E : forgetData (Some d) startDate endDate fa io hydrating db session
                = (setCore db (fst (deleteByDomain d fa (core db))), session,
                   countResponse (snd (deleteByDomain d fa (core db))))).
    { unfold forgetData. apply String.eqb_neq in Hd. rewrite Hd. cbn [negb].
      now destruct (deleteByDomain d fa (core db)). }
    split; [exact E|]. intros Hkeyed ->. rewrite E.
    destruct (deleteByDomain d None (core db)) as [st' r] eqn:Ed.
    cbn [fst snd].
    assert (Hrun : deleteCursor (domainRange d (pages (core db))) None
                     "Failed to delete by domain" (core db) = (st', r)).
    { revert Ed. unfold deleteByDomain, ready. now rewrite Ho. }
    assert (Hr : r = Ok (length (domainRange d (pages (core db))))).
    { revert Hrun. unfold deleteCursor. now intros [= _ <-]. }
    destruct (deleteCursor_spec (fun nd => String.eqb (domain nd) d) _ _ _ _
                Hkeyed (domainRange_In d (pages (core db))) Hrun)
      as [Hok _].
    destruct (Hok _ Hr) as (_ & Hnone & Hkeep & _).
    eexists. split.
    + rewrite Hr. cbn [countResponse]. unfold domainRange.
      rewrite js_sort_length. reflexivity.
    + cbn [setCore core settings rules]. split; [|split; [|split; reflexivity]].
      * intros nd Hin Hdom. apply Hnone in Hin.
        apply String.eqb_neq in Hin. contradiction.
      * intros k nd Hget Hdom. apply (Hkeep k nd Hget).
        now apply String.eqb_neq.
  - intros Hdom Hdates.
    assert (E : forgetData dom startDate endDate fa true hydrating db session
                = match clearAllData true hydrating db with
                  | (db', Ok _) => (db', [], Forgotten (-1))
                  | (db', Err e) => (db', session, ForgetFailed e)
                  end).
    { unfold forgetData.
      assert (Hz : match startDate, endDate with
                   | Some s, Some e => negb (s =? 0)%Z && negb (e =? 0)%Z
                   | _, _ => false
                   end = false).
      { destruct Hdates as [-> | [-> | [-> | ->]]].
        - reflexivity.
        - destruct endDate; reflexivity.
        - destruct startDate; reflexivity.
        - destruct startDate as [s|]; [|reflexivity]. cbn [Z.eqb negb].
          apply andb_false_r. }
      destruct Hdom as [-> | ->]; cbn [String.eqb negb];
        destruct startDate as [s|], endDate as [e|]; try reflexivity;
        rewrite Hz; reflexivity. }
    rewrite E.
    destruct (clearAllData_wipes hydrating db Ho) as (db' & -> & Hrest).
    exists db'. split; [reflexivity | exact Hrest].
  - intros s e Hdom Hs He. unfold forgetData.
    apply Z.eqb_neq in Hs, He.
    destruct Hdom as [-> | ->]; cbn [String.eqb negb]; rewrite Hs, He;
      cbn [negb andb]; now destruct (deleteByDateRange s e fa (core db)).
Qed.
End ForgetFacts.

Lemma forgetData_dispatch_witness :
  (exists db',
     forgetData None (Some 0%Z) (Some 1700000000500%Z) None true false fixDb []
     = (db', [], Forgotten (-1))
     /\ pages (core db') = [])
  /\ exists db',
       forgetData (Some "a.example"%string) None None None true false fixDb []
       = (db', [], Forgotten 1)
       /\ map_get "b"%string (pages (core db')) = Some pageNew.
Proof.
  split.
  - destruct (@forgetData_dispatch _ _ None (Some 0%Z) (Some 1700000000500%Z)
                None true false fixDb [] eq_refl) as (_ & Hw & _).
    destruct Hw as (db' & E & Hp & _); [now left | right; now left |].
    exists db'. split; assumption.
  - destruct (@forgetData_dispatch _ _ (Some "a.example"%string) None None
                None true false fixDb [] eq_refl) as (Hd & _).
    destruct (Hd "a.example"%string eq_refl) as [_ Hsem]; [discriminate|].
    destruct (Hsem twoPages_keyed eq_refl) as (db' & E & _ & Hkeep & _).
    exists db'. split; [exact E|].
    apply (Hkeep "b"%string pageNew); [reflexivity | discriminate].
Defined.

(* ------------------------------------------------------------------ *)
(** *** The two classifiers: Dashboard and AnalyticsService *)

Lemma find_pointwise {A} (f g : A -> bool) l :
  (forall x, f x = g x) -> find f l = find g l.
Proof.
  intros Hfg. induction l as [|x l IH]; simpl; [reflexivity|].
  now rewrite Hfg, IH.
Qed.

(** Both tables hold the same domain list under every key. *)
Lemma category_tables_agree key :
  map_get key Dashboard.CATEGORY_DEFINITIONS = map_get key CATEGORY_DEFINITIONS.
Proof.
  unfold Dashboard.CATEGORY_DEFINITIONS, CATEGORY_DEFINITIONS.
  cbn [map_get key_eqb Key_string].
  repeat match goal with
         | |- context [String.eqb key ?s] =>
             destruct (String.eqb_spec key s) as [->|?];
             [vm_compute; reflexivity|]
         end.
  reflexivity.
Qed.

Section Classifiers.
Variable URL_hostname : string -> option string.

Lemma dashboard_hit hostname key :
  match map_get key Dashboard.CATEGORY_DEFINITIONS with
  | Some domains => existsb (fun d => includes hostname (toLowerCase d)) domains
  | None => false
  end = categoryHit hostname key.
Proof. unfold categoryHit. now rewrite category_tables_agree. Qed.

Lemma dashboard_categorizeUrl_find u h :
  URL_hostname u = Some h ->
  Dashboard.categorizeUrl URL_hostname u
  = match find (categoryHit (toLowerCase h)) Dashboard.priorityOrder with
    | Some key => key
    | None => "miscellaneous"%string
    end.
Proof.
  intros Hh. unfold Dashboard.categorizeUrl. rewrite Hh.
  rewrite (find_pointwise _ (categoryHit (toLowerCase h))
             Dashboard.priorityOrder (dashboard_hit (toLowerCase h))).
  destruct (find _ Dashboard.priorityOrder); reflexivity.
Qed.

Lemma analytics_categorizeUrl_find u h :
  URL_hostname u = Some h ->
  categorizeUrl URL_hostname u
  = match find (categoryHit (toLowerCase h)) CATEGORY_PRIORITY_ORDER with
    | Some key => key
    | None => "miscellaneous"%string
    end.
Proof.
  intros Hh. unfold categorizeUrl. rewrite Hh.
  change (find _ CATEGORY_PRIORITY_ORDER)
    with (find (categoryHit (toLowerCase h)) CATEGORY_PRIORITY_ORDER).
  destruct (find _ CATEGORY_PRIORITY_ORDER); reflexivity.
Qed.

Lemma priority_orders_same_keys key :
  In key Dashboard.priorityOrder <-> In key CATEGORY_PRIORITY_ORDER.
Proof.
  unfold Dashboard.priorityOrder, CATEGORY_PRIORITY_ORDER. simpl. tauto.
Qed.

(** X28.  The classifier of the Dashboard and the one of the analytics
    ("must match exactly") read the same domain lists but walk the
    categories in different orders.  They return the same category unless
    the host name matches the lists of both returned categories; and a
    host name that matches a list of ["ai"] and a list of ["developer"]
    but none of ["coding"] is filed under ["developer"] by the Dashboard
    and under ["ai"] by the analytics. *)
Theorem classifiers_agree_unless_overlap u :
  (forall key,
     map_get key Dashboard.CATEGORY_DEFINITIONS
     = map_get key CATEGORY_DEFINITIONS)
  /\ (Dashboard.categorizeUrl URL_hostname u <> categorizeUrl URL_hostname u ->
      exists h,
        URL_hostname u = Some h
        /\ categoryHit (toLowerCase h)
                       (Dashboard.categorizeUrl URL_hostname u) = true
        /\ categoryHit (toLowerCase h) (categorizeUrl URL_hostname u) = true)
  /\ (forall h,
        URL_hostname u = Some h ->
        categoryHit (toLowerCase h) "coding" = false ->
        categoryHit (toLowerCase h) "ai" = true ->
        categoryHit (toLowerCase h) "developer" = true ->
        Dashboard.categorizeUrl URL_hostname u = "developer"%string
        /\ categorizeUrl URL_hostname u = "ai"%string).
Proof.
  split; [exact category_tables_agree|]. split.
  - intros Hne. destruct (URL_hostname u) as [h|] eqn:Hh.
    2:{ exfalso. apply Hne. unfold Dashboard.categorizeUrl, categorizeUrl.
        now rewrite Hh. }
    exists h. split; [reflexivity|].
    rewrite (dashboard_categorizeUrl_find Hh) in *.
    rewrite (analytics_categorizeUrl_find Hh) in *.
    destruct (find _ Dashboard.priorityOrder) as [k1|] eqn:Ed;
      destruct (find _ CATEGORY_PRIORITY_ORDER) as [k2|] eqn:Ea.
    + apply find_some in Ed, Ea. tauto.
    + exfalso. apply find_some in Ed. destruct Ed as [Hin Hhit].
      apply priority_orders_same_keys in Hin.
      apply (find_none _ _ Ea) in Hin. congruence.
    + exfalso. apply find_some in Ea. destruct Ea as [Hin Hhit].
      apply priority_orders_same_keys in Hin.
      apply (find_none _ _ Ed) in Hin. congruence.
    + congruence.
  - intros h Hh Hc Ha Hd.
    rewrite (dashboard_categorizeUrl_find Hh).
    rewrite (analytics_categorizeUrl_find Hh).
    unfold Dashboard.priorityOrder, CATEGORY_PRIORITY_ORDER. cbn [find].
    rewrite Hc, Ha, Hd. split; reflexivity.
Qed.
End Classifiers.

Lemma classifiers_agree_unless_overlap_witness :
  Dashboard.categorizeUrl fixHostname "https://chatgpt.github.io/"
  = "developer"%string
  /\ categorizeUrl fixHostname "https://chatgpt.github.io/" = "ai"%string.
Proof.
  destruct (classifiers_agree_unless_overlap fixHostname
              "https://chatgpt.github.io/") as (_ & _ & Hd).
  apply (Hd "chatgpt.github.io"%string); vm_compute; reflexivity.
Defined.

(* ------------------------------------------------------------------ *)
(** *** Analytics: months, years, sites and the date range *)

Section SiteTable.
Context {N : Type}.
Implicit Types (m : JsMap string (nat * Z)) (nodes : list (MemoryNode N)).

Lemma siteStep_get m (nd : MemoryNode N) d :
  map_get d (siteStep m nd)
  = if String.eqb d (domain nd)
    then Some (match map_get d m with
               | Some e => (fst e + 1, Z.max (snd e) (timestamp nd))
               | None => (1, Z.max 0 (timestamp nd))
               end)
    else map_get d m.
Proof.
  unfold siteStep. destruct (String.eqb d (domain nd)) eqn:E.
  - apply String.eqb_eq in E. subst d. rewrite map_get_set_eq.
    now destruct (map_get (domain nd) m).
  - apply String.eqb_neq in E. now rewrite map_get_set_neq.
Qed.

(** The entry of a domain after the loop over the nodes: its count and
    its latest visit. *)
Lemma siteFold_get nodes : forall m d c lv,
  map_get d (fold_left siteStep nodes m) = Some (c, lv) ->
  c = fst (match map_get d m with Some e => e | None => (0%nat, 0%Z) end)
      + length (filter (fun nd => String.eqb (domain nd) d) nodes)
  /\ (snd (match map_get d m with Some e => e | None => (0%nat, 0%Z) end) <= lv)%Z
  /\ forall nd, In nd nodes -> domain nd = d -> (timestamp nd <= lv)%Z.
Proof.
  induction nodes as [|n nodes IH]; intros m d c lv; simpl.
  - intros ->. simpl. split; [lia|]. split; [lia | intros nd []].
  - intros Hget. apply IH in Hget. rewrite siteStep_get in Hget.
    rewrite (String.eqb_sym (domain n) d).
    destruct (String.eqb d (domain n)) eqn:E.
    + apply String.eqb_eq in E. destruct Hget as (Hc & Hlv & Hall).
      destruct (map_get d m) as [[c0 lv0]|]; cbn [fst snd] in *.
      * split; [simpl; lia|]. split; [lia|].
        intros nd [<-|Hin] Hd; [lia | auto].
      * split; [simpl; lia|]. split; [lia|].
        intros nd [<-|Hin] Hd; [lia | auto].
    + apply String.eqb_neq in E. destruct Hget as (Hc & Hlv & Hall).
      split; [assumption|]. split; [assumption|].
      intros nd [<-|Hin] Hd; [congruence | auto].
Qed.

Lemma siteFold_keys nodes : forall m k,
  In k (map_keys m) \/ In k (map (@domain N) nodes) ->
  In k (map_keys (fold_left siteStep nodes m)).
Proof.
  induction nodes as [|n nodes IH]; intros m k; simpl; [tauto|].
  intros Hk. apply IH. unfold siteStep. rewrite map_keys_set.
  destruct (map_has (domain n) m) eqn:Eh.
  - destruct Hk as [Hk|[<-|Hk]]; auto. left. now apply map_has_keys.
  - rewrite in_app_iff. simpl. tauto.
Qed.

Lemma fold_set_add_NoDup (l : list string) : forall s,
  NoDup s -> NoDup (fold_left (fun c x => set_add x c) l s).
Proof.
  induction l as [|x l IH]; intros s Hs; simpl; [assumption|].
  apply IH. now apply set_add_NoDup.
Qed.

Lemma fold_set_add_map nodes : forall s,
  fold_left (fun s nd => set_add (domain nd) s) nodes s
  = fold_left (fun c x => set_add x c) (map (@domain N) nodes) s.
Proof. induction nodes as [|n nodes IH]; intros s; simpl; auto. Qed.
End SiteTable.

Section SortedEnds.
Context {A : Type} (R : A -> A -> Prop).

Lemma StronglySorted_hd (d : A) l :
  StronglySorted R l -> forall x, In x l -> x = hd d l \/ R (hd d l) x.
Proof.
  intros Hs x Hx. destruct Hs as [|y l Hs Hall]; [destruct Hx|].
  simpl. destruct Hx as [<-|Hx]; [now left|]. right.
  rewrite Forall_forall in Hall. auto.
Qed.

Lemma StronglySorted_last (d : A) l :
  StronglySorted R l -> forall x, In x l -> x = last l d \/ R x (last l d).
Proof.
  intros Hs x Hx. destruct l as [|y l]; [destruct Hx|].
  assert (Hne : y :: l <> []) by discriminate.
  pose proof (app_removelast_last d Hne) as E.
  rewrite E in Hs, Hx. apply in_app_or in Hx.
  destruct Hx as [Hx|[<-|[]]]; [|now left]. right.
  eapply StronglySorted_app_inv in Hs; [exact Hs | exact Hx | now left].
Qed.
End SortedEnds.

Section AnalyticsMore.
Context {N : Type} `{JsNumber N}.
Variable getFullYear getMonth getDate : Z -> Z.
Variable localeAfter : string -> string -> bool.
Variable URL_hostname : string -> option string.
Variable now : Z.

(** X29.  On a non-empty batch of nodes the analytics are consistent with
    the batch: the monthly and the yearly counts add up to [totalPages];
    the date range spans the timestamps of all nodes; [uniqueDomains] lies
    between 1 and [totalPages], and [topSites] has
    [min 20 uniqueDomains] entries, in descending order of their counts;
    the count of a listed site is the number of nodes of its domain, and
    its last visit is not earlier than any of them. *)
Theorem analytics_site_statistics (allNodes : list (MemoryNode N)) :
  allNodes <> [] ->
  let a := analyse getFullYear getMonth getDate localeAfter URL_hostname now
             allNodes in
  list_sum (map snd (monthly a)) = totalPages a
  /\ list_sum (map snd (yearly a)) = totalPages a
  /\ (forall nd, In nd allNodes ->
        (fst (dateRange a) <= timestamp nd <= snd (dateRange a))%Z)
  /\ 1 <= uniqueDomains a <= totalPages a
  /\ length (topSites a) = Nat.min 20 (uniqueDomains a)
  /\ StronglySorted (fun s t => ts_count t <= ts_count s) (topSites a)
  /\ (forall s, In s (topSites a) ->
        ts_count s
        = length (filter (fun nd => String.eqb (domain nd) (ts_domain s))
                         allNodes)
        /\ forall nd, In nd allNodes -> domain nd = ts_domain s ->
             (timestamp nd <= ts_lastVisit s)%Z).
Proof.
  intros Hne a. subst a. destruct allNodes as [|first rest]; [congruence|].
  unfold analyse.
  cbn [monthly yearly dateRange uniqueDomains topSites totalPages fst snd].
  set (gt := fun a b : MemoryNode N => (timestamp a - timestamp b >? 0)%Z).
  set (sorted := js_sort gt (first :: rest)).
  assert (Hperm : Permutation sorted (first :: rest)) by apply js_sort_perm.
  assert (Hin : forall nd, In nd (first :: rest) <-> In nd sorted).
  { intros nd. unfold sorted. now rewrite js_sort_In. }
  assert (Hasc : StronglySorted
                   (fun a b : MemoryNode N => (timestamp a <= timestamp b)%Z)
                   sorted).
  { apply Sorted_StronglySorted; [intros x y z; lia|].
    eapply Sorted_weaken; [|apply js_sort_sorted].
    - intros x y Hxy. unfold gt in Hxy. apply not_true_iff_false in Hxy.
      rewrite Z.gtb_lt in Hxy. lia.
    - intros x y Hxy. unfold gt in *. apply Z.gtb_lt in Hxy.
      apply not_true_iff_false. rewrite Z.gtb_lt. lia. }
  set (dm := fold_left (@siteStep N) sorted []).
  destruct (@sites_gen N sorted [] (NoDup_nil _)) as (_ & Hnd & Hk).
  fold dm in Hnd, Hk. simpl in Hk.
  set (doms := fold_left (fun s nd => set_add (domain nd) s) sorted []).
  assert (Hdoms : NoDup doms
                  /\ forall k, In k doms <-> In k (map (@domain N) sorted)).
  { unfold doms. rewrite fold_set_add_map. split.
    - apply fold_set_add_NoDup. constructor.
    - intros k. rewrite fold_set_add_In. simpl. tauto. }
  destruct Hdoms as [Hdnd Hdin].
  assert (Hsame : length dm = length doms).
  { rewrite <- (map_keys_length dm). apply Permutation_length.
    apply NoDup_Permutation; [assumption | assumption|].
    intros k. rewrite Hdin. split.
    - intros Hkk. destruct (Hk k Hkk) as [[]|Hd]. exact Hd.
    - intros Hd. apply siteFold_keys. now right. }
  split; [|split; [|split; [|split; [|split; [|split]]]]].
  - unfold calculateMonthlyStats.
    rewrite (list_sum_perm (Permutation_map snd (js_sort_perm _ _))).
    apply countBy_sum.
  - unfold calculateYearlyStats.
    rewrite (list_sum_perm (Permutation_map snd (js_sort_perm _ _))).
    apply countBy_sum.
  - intros nd Hnode. apply Hin in Hnode. split.
    + destruct (StronglySorted_hd first Hasc nd Hnode) as [->|Hle]; lia.
    + destruct (StronglySorted_last first Hasc nd Hnode) as [->|Hle]; lia.
  - split.
    + assert (Hf : In (domain first) doms).
      { apply Hdin, in_map, Hin. now left. }
      destruct doms; [destruct Hf | simpl; lia].
    + rewrite <- (length_map (@domain N) sorted).
      apply NoDup_incl_length; [assumption|].
      intros k Hkk. now apply Hdin.
  - unfold calculateTopSites. fold dm. unfold slice0.
    rewrite length_firstn, js_sort_length, length_map. now rewrite Hsame.
  - unfold calculateTopSites. fold dm.
    apply (@StronglySorted_firstn _ _ 20).
    apply Sorted_StronglySorted; [intros x y z; lia|].
    eapply Sorted_weaken; [|apply js_sort_sorted].
    + intros x y Hxy. cbn beta in Hxy. apply Nat.ltb_ge in Hxy. exact Hxy.
    + intros x y Hxy. apply Nat.ltb_lt in Hxy. apply Nat.ltb_ge. lia.
  - intros s Hs. unfold calculateTopSites in Hs. fold dm in Hs.
    apply slice0_In, js_sort_In, in_map_iff in Hs.
    destruct Hs as ([d [c lv]] & <- & He). cbn [ts_count ts_domain ts_lastVisit fst snd].
    apply map_In_get in He; [|exact Hnd].
    apply siteFold_get in He. cbn [map_get fst snd] in He.
    destruct He as (Hc & _ & Hlv). split.
    + rewrite Hc, Nat.add_0_l. apply filter_length_perm. exact Hperm.
    + intros nd Hnode Hd. apply (Hlv nd); [now apply Hin | assumption].
Qed.
End AnalyticsMore.

Lemma analytics_site_statistics_witness :
  let a := analyse fixYear fixMonth fixDate fixLocaleAfter fixHostname 0
             sixteenPages in
  length (topSites a) = Nat.min 20 (uniqueDomains a)
  /\ list_sum (map snd (monthly a)) = totalPages a.
Proof.
  intros a.
  destruct (@analytics_site_statistics _ _ fixYear fixMonth fixDate
              fixLocaleAfter fixHostname 0%Z sixteenPages)
    as (Hm & _ & _ & _ & Hl & _); [discriminate|].
  split; [exact Hl | exact Hm].
Defined.

(* ------------------------------------------------------------------ *)
(** *** The hybrid score as a function of the similarity *)

Section HybridShape.
Local Open Scope R_scope.

(** X30.  For a fixed page and query the hybrid score (exact arithmetic)
    never decreases when the similarity grows, adds at most 0.55 to it,
    and is never below the smaller of the similarity and 1; for a
    similarity of at most 1 it lies between that similarity and 1. *)
Theorem calculateHybridScore_monotone (s1 s2 : R) (nd : MemoryNode R)
                                      (query : string) :
  (s1 <= s2 ->
     calculateHybridScore s1 nd query <= calculateHybridScore s2 nd query)
  /\ Rmin 1 s1 <= calculateHybridScore s1 nd query <= s1 + 55 / 100
  /\ (s1 <= 1 -> s1 <= calculateHybridScore s1 nd query <= 1).
Proof.
  rewrite !calculateHybridScore_R. unfold claimedHybridScore.
  cbn [jmin jadd ofZ JsR].
  pose proof (titleBonus_range (toLowerCase (title nd)) (toLowerCase query))
    as Ht.
  pose proof (domainBonus_range (toLowerCase (domain nd)) (toLowerCase query))
    as Hd.
  set (t := titleBonus _ _) in *. set (d := domainBonus _ _) in *.
  destruct (anyBonus nd query).
  - unfold Rmin.
    destruct (Rle_dec 1 (s1 + t + d)); destruct (Rle_dec 1 (s2 + t + d));
      destruct (Rle_dec 1 s1); repeat split; intros; lra.
  - unfold Rmin. destruct (Rle_dec 1 s1); repeat split; intros; lra.
Qed.
End HybridShape.

Lemma calculateHybridScore_monotone_witness :
  (calculateHybridScore (1 / 4) (pageR "React Hooks Guide" "react.dev") "React"
   <= calculateHybridScore (1 / 2) (pageR "React Hooks Guide" "react.dev")
        "React")%R.
Proof.
  apply (calculateHybridScore_monotone (1 / 4) (1 / 2)
           (pageR "React Hooks Guide" "react.dev") "React").
  lra.
Defined.
